(** * Launchpad state reconciliation: identity, merge, settings and backup

    A shallow embedding of [lib/utils.ts] and of the state transitions of
    [hooks/useLaunchpadState.ts].

    Conventions of the embedding.
    - A JavaScript string is a [string]: a sequence of code units, here the
      code units below 256 (Latin-1).
    - A JavaScript number is a [number]: [NaN], the two infinities, or a
      finite value, kept as a canonical rational [Qc] (every finite double is
      a rational; [Math.min], [Math.max] and [Math.round] are exact on
      doubles).
    - A value of type [unknown] is a [value].
    - [Date.now()] is read from an explicit clock.
    - A call that may throw has a [Completion]: it returns a value or it
      throws. No property of a [value] is callable (the values are those of
      [JSON.parse] and of the typed records), so [String] throws a
      [TypeError] on an object with an own property [toString].
    - The functions of the platform whose definition lies outside the
      repository ([new URL], [Number.parseFloat] on text, number printing,
      [localeCompare]) are the fields of a [Host]. *)

From Stdlib Require Import List String Ascii Bool Arith ZArith NArith Lia.
From Stdlib Require Import QArith Qcanon Qround.
From Stdlib Require Import DecimalString DecimalN.
Import ListNotations.

Local Open Scope list_scope.
Local Open Scope string_scope.

(** ** Strings *)

Module Str.

Definition code (c : ascii) : nat := nat_of_ascii c.

Definition between (lo hi : nat) (c : ascii) : bool :=
  (lo <=? code c)%nat && (code c <=? hi)%nat.

(** [WhiteSpace] and [LineTerminator] of ECMAScript, below 256:
    TAB, LF, VT, FF, CR, SP and NBSP. *)
Definition is_ws (c : ascii) : bool :=
  between 9 13 c || (code c =? 32)%nat || (code c =? 160)%nat.

Fixpoint dropStart (p : ascii -> bool) (s : string) : string :=
  match s with
  | EmptyString => EmptyString
  | String c r => if p c then dropStart p r else s
  end.

Fixpoint dropEnd (p : ascii -> bool) (s : string) : string :=
  match s with
  | EmptyString => EmptyString
  | String c r =>
      match dropEnd p r with
      | EmptyString => if p c then EmptyString else String c EmptyString
      | r' => String c r'
      end
  end.

(** [String.prototype.trim]. *)
Definition trim (s : string) : string := dropEnd is_ws (dropStart is_ws s).

Definition isEmpty (s : string) : bool :=
  match s with EmptyString => true | _ => false end.

Definition is_upper (c : ascii) : bool := between 65 90 c.
Definition is_lower (c : ascii) : bool := between 97 122 c.
Definition is_digit (c : ascii) : bool := between 48 57 c.

(** [toLowerCase] on one code unit: A-Z, and the upper-case letters of
    Latin-1 (U+00C0..U+00DE without the multiplication sign U+00D7). *)
Definition lower (c : ascii) : ascii :=
  if is_upper c || (between 192 222 c && negb (code c =? 215)%nat)
  then ascii_of_nat (code c + 32)
  else c.

Fixpoint map (f : ascii -> ascii) (s : string) : string :=
  match s with
  | EmptyString => EmptyString
  | String c r => String (f c) (map f r)
  end.

Definition toLowerCase (s : string) : string := map lower s.

(** [s.startsWith(p)]. *)
Definition startsWith (p s : string) : bool := String.prefix p s.

(** A case-insensitive literal at the start of [s], as in [/^lit/i]
    ([lit] is given in lower case). *)
Fixpoint startsWithCI (lit s : string) : bool :=
  match lit, s with
  | EmptyString, _ => true
  | String a l, String c r => Ascii.eqb a (if is_upper c then lower c else c) && startsWithCI l r
  | String _ _, EmptyString => false
  end.

(** A case-insensitive literal anywhere in [s], as in [/lit/i]. *)
Fixpoint containsCI (lit s : string) : bool :=
  startsWithCI lit s
  || match s with
     | EmptyString => false
     | String _ r => containsCI lit r
     end.

(** [Array.prototype.includes] / [Set.prototype.has] on strings. *)
Definition mem (x : string) (l : list string) : bool :=
  existsb (String.eqb x) l.

(** [n.toString()] of a non-negative integer. *)
Definition decimal (n : N) : string :=
  NilEmpty.string_of_uint (N.to_uint n).

Definition digit (d : N) : ascii :=
  if (d <? 10)%N then ascii_of_N (48 + d) else ascii_of_N (87 + d).

Fixpoint digits (fuel : nat) (radix n : N) (acc : string) : string :=
  match fuel with
  | O => acc
  | S f =>
      let acc' := String (digit (n mod radix)) acc in
      if (n <? radix)%N then acc' else digits f radix (n / radix) acc'
  end.

(** [n.toString(radix)] of a non-negative integer, for a radix from 2 to 36. *)
Definition radixString (radix n : N) : string :=
  digits (S (N.to_nat (N.log2 n))) radix n EmptyString.

(** [s.padStart(2, "0")]. *)
Definition padStart2 (s : string) : string :=
  match s with
  | EmptyString => "00"
  | String c EmptyString => String "0" s
  | _ => s
  end.

(** [s.split(",")]. *)
Fixpoint splitComma (s : string) : list string :=
  match s with
  | EmptyString => [EmptyString]
  | String c r =>
      if Ascii.eqb c ","
      then EmptyString :: splitComma r
      else match splitComma r with
           | [] => [String c EmptyString]
           | w :: ws => String c w :: ws
           end
  end.

(** Every character written twice, as [split("").map(c => c + c).join("")]. *)
Fixpoint doubled (s : string) : string :=
  match s with
  | EmptyString => EmptyString
  | String c r => String c (String c (doubled r))
  end.

End Str.

(** ** App records *)

Inductive Origin := catalog | custom.

Inductive AppType := normal | hidden_group.

(** [LaunchpadApp]; [origin] and [type] are optional in the source. *)
Record LaunchpadApp := mkApp {
  id : string;
  name : string;
  description : string;
  url : string;
  icon : string;
  tags : list string;
  origin : option Origin;
  type_ : option AppType
}.

Definition with_id (app : LaunchpadApp) (i : string) : LaunchpadApp :=
  mkApp i (name app) (description app) (url app) (icon app) (tags app)
        (origin app) (type_ app).

Definition with_origin (app : LaunchpadApp) (o : Origin) : LaunchpadApp :=
  mkApp (id app) (name app) (description app) (url app) (icon app) (tags app)
        (Some o) (type_ app).

Definition ids (apps : list LaunchpadApp) : list string := List.map id apps.

(** ** Identity resolver *)

(** The two [replace] calls of [createSlugId]: every maximal run of
    characters outside [a-z0-9] becomes one dash, then the dashes at both
    ends go. *)
Definition is_slug_char (c : ascii) : bool := Str.is_lower c || Str.is_digit c.

Fixpoint dashRuns (inRun : bool) (s : string) : string :=
  match s with
  | EmptyString => EmptyString
  | String c r =>
      if is_slug_char c then String c (dashRuns false r)
      else if inRun then dashRuns true r
      else String "-" (dashRuns true r)
  end.

Definition is_dash (c : ascii) : bool := Ascii.eqb c "-".

Definition slugBase (name : string) : string :=
  Str.dropEnd is_dash (Str.dropStart is_dash (dashRuns false (Str.toLowerCase name))).

(** [createSlugId(prefix, name)], with the reading [now] of [Date.now()]. *)
Definition createSlugId (now : N) (prefix name : string) : string :=
  let baseName := slugBase name in
  let fallback := prefix ++ "-" ++ Str.radixString 36 now in
  if Str.isEmpty baseName then fallback else prefix ++ "-" ++ baseName.

Definition suffixed (baseId : string) (counter : N) : string :=
  baseId ++ "-" ++ Str.decimal counter.

(** The [while (seen.has(uniqueId))] loop, one iteration per unit of fuel. *)
Fixpoint freeIdLoop (fuel : nat) (seen : list string) (baseId uniqueId : string)
         (counter : N) : option string :=
  match fuel with
  | O => None
  | S f =>
      if Str.mem uniqueId seen
      then freeIdLoop f seen baseId (suffixed baseId counter) (counter + 1)
      else Some uniqueId
  end.

(** The loop started at [uniqueId = baseId], [counter = 2]. It leaves after
    at most [length seen] iterations ([freeIdLoop_total]). *)
Definition freeId (seen : list string) (baseId : string) : string :=
  match freeIdLoop (S (List.length seen)) seen baseId baseId 2 with
  | Some u => u
  | None => baseId
  end.

Definition originPrefix (app : LaunchpadApp) : string :=
  match origin app with
  | Some custom => "custom"
  | _ => "app"
  end.

Definition baseIdOf (now : N) (app : LaunchpadApp) : string :=
  if Str.isEmpty (Str.trim (id app))
  then createSlugId now (originPrefix app) (name app)
  else Str.trim (id app).

(** The body of the [map] of [ensureUniqueAppIds]: [seen] is the set so far,
    [clock i] the reading of [Date.now()] while record [i] is processed. *)
Fixpoint uniqueFrom (clock : nat -> N) (i : nat) (seen : list string)
         (apps : list LaunchpadApp) : list LaunchpadApp :=
  match apps with
  | [] => []
  | app :: rest =>
      let uniqueId := freeId seen (baseIdOf (clock i) app) in
      with_id app uniqueId :: uniqueFrom clock (S i) (uniqueId :: seen) rest
  end.

Definition ensureUniqueAppIds (clock : nat -> N) (apps : list LaunchpadApp)
  : list LaunchpadApp :=
  uniqueFrom clock 0 [] apps.

(** ** Numbers and values *)

Inductive number :=
| NaN
| Inf (negative : bool)
| Fin (q : Qc).

Module Num.

Definition ofQ (q : Q) : number := Fin (Q2Qc q).
Definition ofZ (z : Z) : number := ofQ (inject_Z z).

(** [Number.isFinite]. *)
Definition isFinite (n : number) : bool :=
  match n with Fin _ => true | _ => false end.

Definition leq (x y : Qc) : bool := Qle_bool x y.

(** [a <= b]. *)
Definition le (a b : number) : bool :=
  match a, b with
  | NaN, _ | _, NaN => false
  | Inf true, _ | _, Inf false => true
  | Inf false, _ | _, Inf true => false
  | Fin x, Fin y => leq x y
  end.

(** [Math.max(a, b)] and [Math.min(a, b)]. *)
Definition max (a b : number) : number :=
  match a, b with
  | NaN, _ | _, NaN => NaN
  | Inf false, _ | _, Inf false => Inf false
  | Inf true, x | x, Inf true => x
  | Fin x, Fin y => if leq x y then Fin y else Fin x
  end.

Definition min (a b : number) : number :=
  match a, b with
  | NaN, _ | _, NaN => NaN
  | Inf true, _ | _, Inf true => Inf true
  | Inf false, x | x, Inf false => x
  | Fin x, Fin y => if leq x y then Fin x else Fin y
  end.

(** [Math.round]: the nearest integer, halves towards plus infinity. *)
Definition round (a : number) : number :=
  match a with
  | Fin x => ofZ (Qfloor (x + (1 # 2)))
  | _ => a
  end.

Definition isZero (x : Qc) : bool := Qeq_bool x 0.
Definition isNeg (x : Qc) : bool := negb (Qle_bool 0 x).

(** [a / b] and [a * b]; a zero is the positive zero. *)
Definition div (a b : number) : number :=
  match a, b with
  | NaN, _ | _, NaN => NaN
  | Inf _, Inf _ => NaN
  | Inf s, Fin y => Inf (xorb s (isNeg y))
  | Fin _, Inf _ => ofZ 0
  | Fin x, Fin y =>
      if isZero y then (if isZero x then NaN else Inf (isNeg x))
      else Fin (x / y)%Qc
  end.

Definition mul (a b : number) : number :=
  match a, b with
  | NaN, _ | _, NaN => NaN
  | Inf s, Inf t => Inf (xorb s t)
  | Inf s, Fin y | Fin y, Inf s => if isZero y then NaN else Inf (xorb s (isNeg y))
  | Fin x, Fin y => Fin (x * y)%Qc
  end.

End Num.

(** A value of type [unknown]. An object is the list of its own properties,
    the first entry of a key being the property. *)
#[local] Set Warnings "-register-all".
Inductive value :=
| VUndefined
| VNull
| VBool (b : bool)
| VNum (n : number)
| VStr (s : string)
| VArr (items : list value)
| VObj (fields : list (string * value)).

Module Js.

Fixpoint lookup (k : string) (fields : list (string * value)) : option value :=
  match fields with
  | [] => None
  | (k', v) :: rest => if String.eqb k k' then Some v else lookup k rest
  end.

Fixpoint indexed (i : N) (items : list value) : list (string * value) :=
  match items with
  | [] => []
  | v :: rest => (Str.decimal i, v) :: indexed (i + 1) rest
  end.

(** The own enumerable properties copied by a spread [{...v}] of an object
    or an array. *)
Definition ownProps (v : value) : list (string * value) :=
  match v with
  | VObj fields => fields
  | VArr items => indexed 0 items
  | _ => []
  end.

Definition hasOwn (v : value) (k : string) : bool :=
  match lookup k (ownProps v) with Some _ => true | None => false end.

(** [v.k] for the property names this code reads (none of them is
    inherited from a prototype). *)
Definition get (v : value) (k : string) : value :=
  match lookup k (ownProps v) with Some x => x | None => VUndefined end.

(** [{...a, ...b}]. *)
Definition spread (a b : value) : value := VObj (ownProps b ++ ownProps a)%list.

Definition isString (v : value) : bool :=
  match v with VStr _ => true | _ => false end.

Definition isBoolean (v : value) : bool :=
  match v with VBool _ => true | _ => false end.

Definition isArray (v : value) : bool :=
  match v with VArr _ => true | _ => false end.

(** [typeof v === "object"]. *)
Definition typeofObject (v : value) : bool :=
  match v with VNull | VArr _ | VObj _ => true | _ => false end.

(** [Boolean(v)]. *)
Definition truthy (v : value) : bool :=
  match v with
  | VUndefined | VNull => false
  | VBool b => b
  | VNum NaN => false
  | VNum (Inf _) => true
  | VNum (Fin q) => negb (Num.isZero q)
  | VStr s => negb (Str.isEmpty s)
  | VArr _ | VObj _ => true
  end.

(** [v && typeof v === "object"]. *)
Definition isObject (v : value) : bool := truthy v && typeofObject v.

(** [a ?? b]. *)
Definition nullish (v : value) : bool :=
  match v with VUndefined | VNull => true | _ => false end.

Definition orElse (a b : value) : value := if nullish a then b else a.

(** [v === "lit"]. *)
Definition isLit (v : value) (lit : string) : bool :=
  match v with VStr s => String.eqb s lit | _ => false end.

Definition ofOption {A} (f : A -> value) (o : option A) : value :=
  match o with Some a => f a | None => VUndefined end.

(** An entry of an object literal; a key whose value is [undefined] is
    left out. *)
Definition entry (k : string) (v : value) : list (string * value) :=
  match v with VUndefined => [] | _ => [(k, v)] end.

(** [JSON.parse(JSON.stringify(v))]: properties holding [undefined] go,
    [undefined] in an array and the numbers that are not finite become
    [null]. *)
Fixpoint jsonRoundTrip (v : value) : value :=
  match v with
  | VUndefined => VNull
  | VNum n => if Num.isFinite n then v else VNull
  | VArr items => VArr (List.map jsonRoundTrip items)
  | VObj fields =>
      VObj ((fix go (fs : list (string * value)) : list (string * value) :=
               match fs with
               | [] => []
               | (k, VUndefined) :: rest => go rest
               | (k, x) :: rest => (k, jsonRoundTrip x) :: go rest
               end) fields)
  | _ => v
  end.

End Js.

(** ** Exceptions *)

(** What a call that may throw comes to. *)
Inductive Completion (A : Type) : Type :=
| Returns (a : A)
| Throws.

Arguments Returns {A} a.
Arguments Throws {A}.

Module Try.

Definition bind {A B} (x : Completion A) (k : A -> Completion B) : Completion B :=
  match x with
  | Returns a => k a
  | Throws => Throws
  end.

(** [items.map(f)] with a callback that may throw: the first throw ends the
    whole call. *)
Fixpoint each {A B} (f : A -> Completion B) (items : list A) : Completion (list B) :=
  match items with
  | [] => Returns []
  | x :: rest =>
      bind (f x) (fun y => bind (each f rest) (fun ys => Returns (y :: ys)))
  end.

Definition returned {A} (x : Completion A) : bool :=
  match x with Returns _ => true | Throws => false end.

End Try.

Notation "x <- e ;; k" := (Try.bind e (fun x => k))
  (at level 61, e at next level, right associativity).

(** ** The platform *)

(** What [new URL(s)] exposes to this code. *)
Record URL := mkURL {
  protocol : string;
  href : string
}.

(** The platform functions this code calls and the repository does not
    define. [URL_new s = None] when [new URL(s)] throws. *)
Record Host := mkHost {
  URL_new : string -> option URL;
  parseFloat : string -> number;
  numberToString : number -> string;
  localeCompare : string -> string -> comparison
}.

Section WithHost.

Variable h : Host.

(** [String(v)]. An array prints its elements in order, [null] and
    [undefined] as the empty string. An object goes through its [toString]:
    with none of its own it is [Object.prototype.toString]; an own property
    [toString] is not callable, [valueOf] (its own, not callable, or the
    inherited one, which answers the object itself) gives no primitive
    either, and the call throws a [TypeError]. *)
Fixpoint toStr (v : value) : Completion string :=
  match v with
  | VUndefined => Returns "undefined"
  | VNull => Returns "null"
  | VBool true => Returns "true"
  | VBool false => Returns "false"
  | VNum n => Returns (numberToString h n)
  | VStr s => Returns s
  | VArr items =>
      (fix join (l : list value) : Completion string :=
         let elem x :=
           match x with VUndefined | VNull => Returns "" | _ => toStr x end in
         match l with
         | [] => Returns ""
         | [x] => elem x
         | x :: rest => s <- elem x ;; t <- join rest ;; Returns (s ++ "," ++ t)
         end) items
  | VObj fields =>
      match Js.lookup "toString" fields with
      | Some _ => Throws
      | None => Returns "[object Object]"
      end
  end.

End WithHost.

(** ** Settings, user data and the constants of [lib/constants.ts] *)

Inductive BackgroundType := bg_image | bg_color.

Inductive MobileLayout := layout_grid | layout_list.

(** [LaunchpadSettings]. The source reads [hideDefaultApps] and
    [mobileLayout] through [??], so they may be missing; [hasCompletedSetup]
    is copied by the spreads without a check, so it is any value. *)
Record LaunchpadSettings := mkSettings {
  backgroundType : BackgroundType;
  backgroundColor : string;
  backgroundImage : string;
  overlayOpacity : number;
  blurStrength : number;
  glassTintColor : string;
  glassTintOpacity : number;
  hideDefaultApps : option bool;
  mobileLayout : option MobileLayout;
  hasCompletedSetup : value
}.

(** [LaunchpadUserData]. *)
Record LaunchpadUserData := mkUserData {
  hiddenAppIds : list string;
  customApps : list LaunchpadApp;
  pageSize : option number
}.

(** [lib/constants.ts] and [lib/version.ts] are not among the sources: their
    constants are parameters. The page sizes are integers. *)
Record Constants := mkConstants {
  MIN_PAGE_SIZE : Z;
  MAX_PAGE_SIZE : Z;
  PAGE_SIZE_STEP : Z;
  DEFAULT_PAGE_SIZE : Z;
  DEFAULT_ICON : string;
  defaultSettings : LaunchpadSettings;
  defaultUserData : LaunchpadUserData;
  APP_VERSION : string
}.

(** ** Validators *)

Section Validators.

Variable h : Host.
Variable c : Constants.

(** [Number.parseFloat(String(v))]. For a number the text printed by
    [String] reads back as the number itself; other values go through the
    platform's parser. *)
Definition toFloat (v : value) : Completion number :=
  match v with
  | VNum n => Returns n
  | _ => text <- toStr h v ;; Returns (parseFloat h text)
  end.

Definition clampNumber (v : value) (lo hi fallback : number) : Completion number :=
  numeric <- toFloat v ;;
  Returns (if negb (Num.isFinite numeric) then fallback
           else Num.min (Num.max numeric lo) hi).

Definition fallbackPageSize : number :=
  match pageSize (defaultUserData c) with
  | Some n => n
  | None => Num.ofZ (DEFAULT_PAGE_SIZE c)
  end.

Definition normalizePageSize (v : value) : Completion number :=
  let lo := Num.ofZ (MIN_PAGE_SIZE c) in
  let hi := Num.ofZ (MAX_PAGE_SIZE c) in
  let step := Num.ofZ (PAGE_SIZE_STEP c) in
  let fallback := fallbackPageSize in
  clamped <- clampNumber v lo hi fallback ;;
  let rounded := if Num.isFinite clamped then Num.round clamped else fallback in
  if Num.le step (Num.ofZ 1) then Returns (Num.min (Num.max rounded lo) hi)
  else
    let stepped := Num.mul (Num.round (Num.div rounded step)) step in
    Returns (Num.min (Num.max stepped lo) hi).

Definition is_alpha (ch : ascii) : bool := Str.is_upper ch || Str.is_lower ch.

Definition is_scheme_char (ch : ascii) : bool :=
  is_alpha ch || Str.is_digit ch
  || Ascii.eqb ch "+" || Ascii.eqb ch "-" || Ascii.eqb ch ".".

Fixpoint schemeTail (s : string) : bool :=
  match s with
  | EmptyString => false
  | String ch r =>
      if Ascii.eqb ch ":" then true
      else if is_scheme_char ch then schemeTail r
      else false
  end.

(** [/^[a-z][a-z0-9+\-.]*:/i.test(s)]. *)
Definition hasScheme (s : string) : bool :=
  match s with
  | EmptyString => false
  | String ch r => is_alpha ch && schemeTail r
  end.

(** The text [sanitizeHttpUrl] hands to [new URL]. *)
Definition urlCandidate (trimmed : string) : string :=
  if Str.startsWith "//" trimmed then "https:" ++ trimmed
  else if negb (hasScheme trimmed) then "https://" ++ trimmed
  else trimmed.

Definition isHttp (u : URL) : bool :=
  String.eqb (protocol u) "http:" || String.eqb (protocol u) "https:".

Definition sanitizeHttpUrl (v : value) : string :=
  match v with
  | VStr s =>
      let trimmed := Str.trim s in
      if Str.isEmpty trimmed || Str.startsWithCI "javascript:" trimmed then ""
      else
        match URL_new h (urlCandidate trimmed) with
        | Some u => if negb (isHttp u) then "" else href u
        | None => ""
        end
  | _ => ""
  end.

(** The four tests [sanitizeIconSource] accepts a source by. *)
Definition iconAccepted (trimmed : string) : bool :=
  Str.startsWithCI "http://" trimmed
  || Str.startsWithCI "https://" trimmed
  || Str.startsWithCI "data:image/" trimmed
  || Str.startsWith "./" trimmed
  || Str.startsWith "/" trimmed.

Definition sanitizeIconSource (v : value) : string :=
  match v with
  | VStr s =>
      let trimmed := Str.trim s in
      if Str.isEmpty trimmed || Str.startsWithCI "javascript:" trimmed
      then DEFAULT_ICON c
      else if iconAccepted trimmed then trimmed
      else DEFAULT_ICON c
  | _ => DEFAULT_ICON c
  end.

Definition nonEmpty (s : string) : bool := negb (Str.isEmpty s).

Definition sanitizeTagList (v : value) : Completion (list string) :=
  match v with
  | VArr items =>
      texts <- Try.each (fun tag =>
                           text <- toStr h (Js.orElse tag (VStr "")) ;;
                           Returns (Str.trim text)) items ;;
      Returns (filter nonEmpty texts)
  | _ => Returns []
  end.

Definition parseCustomTagString (v : value) : list string :=
  match v with
  | VStr s => filter nonEmpty (List.map Str.trim (Str.splitComma s))
  | _ => []
  end.

Definition trimmedString (v : value) : string :=
  match v with VStr s => Str.trim s | _ => "" end.

(** [sanitizeAppRecord]: [Returns None] is the answer [null]; the call
    throws when [sanitizeTagList] does. *)
Definition sanitizeAppRecord (app : value) (o : Origin)
  : Completion (option LaunchpadApp) :=
  if negb (Js.isObject app) then Returns None
  else
    let name_ := trimmedString (Js.get app "name") in
    let description_ := trimmedString (Js.get app "description") in
    let url_ := sanitizeHttpUrl (Js.get app "url") in
    let icon_ := sanitizeIconSource (Js.get app "icon") in
    tags_ <- sanitizeTagList (Js.get app "tags") ;;
    let id_ := trimmedString (Js.get app "id") in
    if (match o with custom => true | catalog => false end)
       && (Str.isEmpty name_ || Str.isEmpty url_)
    then Returns None
    else
      Returns (Some (mkApp id_ (if Str.isEmpty name_ then "Untitled app" else name_)
                           description_ url_ icon_ tags_ (Some o) None)).

Definition stripAppForStorage (app : LaunchpadApp) : LaunchpadApp :=
  with_origin app custom.

Definition dedupeHiddenIds (hiddenIds : value) (apps : list LaunchpadApp)
  : list string :=
  match hiddenIds with
  | VArr items =>
      let validIds := ids apps in
      filter (fun i => nonEmpty i && Str.mem i validIds)
        (List.map trimmedString items)
  | _ => []
  end.

(** *** Colours *)

Record RGB := mkRGB { r : Z; g : Z; b : Z }.

Definition hexDigit (ch : ascii) : option Z :=
  if Str.is_digit ch then Some (Z.of_nat (Str.code ch) - 48)%Z
  else if Str.between 97 102 ch then Some (Z.of_nat (Str.code ch) - 87)%Z
  else if Str.between 65 70 ch then Some (Z.of_nat (Str.code ch) - 55)%Z
  else None.

(** The value of the longest run of hexadecimal digits at the start of [s];
    [acc] is [None] until a digit was read. *)
Fixpoint hexRun (s : string) (acc : option Z) : option Z :=
  match s with
  | EmptyString => acc
  | String ch rest =>
      match hexDigit ch with
      | Some d =>
          hexRun rest (Some (16 * match acc with Some a => a | None => 0 end + d)%Z)
      | None => acc
      end
  end.

(** [Number.parseInt(s, 16)], [None] for [NaN]: white space, a sign, an
    optional [0x], then the digits. The value is exact for the six
    characters [hexToRgb] passes. *)
Definition parseInt16 (s : string) : option Z :=
  let s1 := Str.dropStart Str.is_ws s in
  let '(negative, s2) :=
    match s1 with
    | String "-" rest => (true, rest)
    | String "+" rest => (false, rest)
    | _ => (false, s1)
    end in
  let s3 :=
    match s2 with
    | String "0" (String x rest) =>
        if Ascii.eqb x "x" || Ascii.eqb x "X" then rest else s2
    | _ => s2
    end in
  match hexRun s3 None with
  | Some v => Some (if negative then (- v)%Z else v)
  | None => None
  end.

(** [ToInt32], applied by [>>] and [&] to their operands. *)
Definition toInt32 (z : Z) : Z := ((z + 2 ^ 31) mod 2 ^ 32 - 2 ^ 31)%Z.

Definition sar (z : Z) (n : Z) : Z := toInt32 (Z.shiftr (toInt32 z) n).
Definition band (x y : Z) : Z := toInt32 (Z.land (toInt32 x) (toInt32 y)).

Definition hexToRgb (hex : value) : option RGB :=
  match hex with
  | VStr s =>
      let trimmed := Str.trim s in
      if Str.isEmpty trimmed then None
      else
        let withoutHash :=
          match trimmed with
          | String "#" rest => rest
          | _ => trimmed
          end in
        let normalized :=
          if (String.length withoutHash =? 3)%nat then Str.doubled withoutHash
          else withoutHash in
        if negb (String.length normalized =? 6)%nat then None
        else
          match parseInt16 normalized with
          | None => None
          | Some v =>
              Some (mkRGB (band (sar v 16) 255) (band (sar v 8) 255) (band v 255))
          end
  | _ => None
  end.

Definition toHex (component : Z) : string :=
  Str.padStart2 (Str.radixString 16 (Z.to_N component)).

Definition rgbToHex (rgb : option RGB) : option string :=
  match rgb with
  | None => None
  | Some x => Some ("#" ++ toHex (r x) ++ toHex (g x) ++ toHex (b x))
  end.

Definition resolveHexColor (v : value) (fallback : string) : string :=
  match hexToRgb v with
  | Some rgb =>
      match rgbToHex (Some rgb) with Some s => s | None => fallback end
  | None =>
      match hexToRgb (VStr fallback) with
      | Some fallbackRgb =>
          match rgbToHex (Some fallbackRgb) with Some s => s | None => fallback end
      | None => fallback
      end
  end.

Definition sanitizeBackgroundImage (v : value) : string :=
  match v with
  | VStr s =>
      let trimmed := Str.trim s in
      if Str.isEmpty trimmed then ""
      else if Str.containsCI "javascript:" trimmed then ""
      else trimmed
  | _ => ""
  end.

End Validators.

(** ** Settings reconciler and user data *)

Definition layoutToValue (l : MobileLayout) : value :=
  match l with layout_grid => VStr "grid" | layout_list => VStr "list" end.

Definition backgroundTypeToValue (t : BackgroundType) : value :=
  match t with bg_image => VStr "image" | bg_color => VStr "color" end.

Definition originToValue (o : Origin) : value :=
  match o with catalog => VStr "catalog" | custom => VStr "custom" end.

Definition appTypeToValue (t : AppType) : value :=
  match t with normal => VStr "normal" | hidden_group => VStr "hidden-group" end.

(** The objects the records stand for. *)
Definition settingsToValue (s : LaunchpadSettings) : value :=
  VObj (Js.entry "backgroundType" (backgroundTypeToValue (backgroundType s))
        ++ Js.entry "backgroundColor" (VStr (backgroundColor s))
        ++ Js.entry "backgroundImage" (VStr (backgroundImage s))
        ++ Js.entry "overlayOpacity" (VNum (overlayOpacity s))
        ++ Js.entry "blurStrength" (VNum (blurStrength s))
        ++ Js.entry "glassTintColor" (VStr (glassTintColor s))
        ++ Js.entry "glassTintOpacity" (VNum (glassTintOpacity s))
        ++ Js.entry "hideDefaultApps" (Js.ofOption VBool (hideDefaultApps s))
        ++ Js.entry "mobileLayout" (Js.ofOption layoutToValue (mobileLayout s))
        ++ Js.entry "hasCompletedSetup" (hasCompletedSetup s))%list.

Definition appToValue (a : LaunchpadApp) : value :=
  VObj (Js.entry "id" (VStr (id a))
        ++ Js.entry "name" (VStr (name a))
        ++ Js.entry "description" (VStr (description a))
        ++ Js.entry "url" (VStr (url a))
        ++ Js.entry "icon" (VStr (icon a))
        ++ Js.entry "tags" (VArr (List.map VStr (tags a)))
        ++ Js.entry "origin" (Js.ofOption originToValue (origin a))
        ++ Js.entry "type" (Js.ofOption appTypeToValue (type_ a)))%list.

Definition userDataToValue (u : LaunchpadUserData) : value :=
  VObj (Js.entry "hiddenAppIds" (VArr (List.map VStr (hiddenAppIds u)))
        ++ Js.entry "customApps" (VArr (List.map appToValue (customApps u)))
        ++ Js.entry "pageSize" (Js.ofOption VNum (pageSize u)))%list.

(** What [mergeUserData] receives from [importBackup]: the two lists when
    they were arrays, and the page size as it came. *)
Record PartialUserData := mkPartialUserData {
  p_hiddenAppIds : option (list string);
  p_customApps : option (list LaunchpadApp);
  p_pageSize : value
}.

Section Reconcile.

Variable h : Host.
Variable c : Constants.

(** [updateSettingsFromForm]. Reading a property of [null] or [undefined]
    throws; on any other update the call throws when one of the three calls
    of [clampNumber] does, and nothing else in it can. *)
Definition updateSettingsFromForm (base : LaunchpadSettings) (partial : value)
  : Completion LaunchpadSettings :=
  let d := defaultSettings c in
  if Js.nullish partial then Throws
  else
  overlayOpacity_ <-
    clampNumber h (Js.get partial "overlayOpacity")
      (Num.ofZ 0) (Num.ofQ (6 # 10)) (overlayOpacity d) ;;
  blurStrength_ <-
    clampNumber h (Js.get partial "blurStrength")
      (Num.ofZ 0) (Num.ofZ 20) (blurStrength d) ;;
  glassTintOpacity_ <-
    clampNumber h (Js.get partial "glassTintOpacity")
      (Num.ofQ (5 # 100)) (Num.ofQ (95 # 100)) (glassTintOpacity d) ;;
  Returns
  {| backgroundType :=
       if Js.isLit (Js.get partial "backgroundType") "color" then bg_color else bg_image;
     backgroundColor :=
       resolveHexColor (Js.get partial "backgroundColor") (backgroundColor d);
     backgroundImage :=
       sanitizeBackgroundImage (Js.get partial "backgroundImage");
     overlayOpacity := overlayOpacity_;
     blurStrength := blurStrength_;
     glassTintColor :=
       resolveHexColor (Js.get partial "glassTintColor") (glassTintColor d);
     glassTintOpacity := glassTintOpacity_;
     hideDefaultApps :=
       Some (Js.truthy
               (Js.orElse (Js.get partial "hideDefaultApps")
                  (Js.orElse (Js.ofOption VBool (hideDefaultApps base))
                     (Js.ofOption VBool (hideDefaultApps d)))));
     mobileLayout :=
       if Js.isLit (Js.get partial "mobileLayout") "list" then Some layout_list
       else if Js.isLit (Js.get partial "mobileLayout") "grid" then Some layout_grid
       else match mobileLayout base with
            | Some l => Some l
            | None => mobileLayout d
            end;
     (* the one field [...base, ...partial] leaves as it finds it *)
     hasCompletedSetup :=
       if Js.hasOwn partial "hasCompletedSetup"
       then Js.get partial "hasCompletedSetup"
       else hasCompletedSetup base |}.

Definition mergeUserData (base : LaunchpadUserData) (partial : PartialUserData)
  : Completion LaunchpadUserData :=
  pageSize_ <-
    normalizePageSize h c
      (Js.orElse (p_pageSize partial)
         (Js.orElse (Js.ofOption VNum (pageSize base))
            (Js.ofOption VNum (pageSize (defaultUserData c))))) ;;
  Returns
  {| hiddenAppIds :=
       match p_hiddenAppIds partial with
       | Some l => l
       | None => hiddenAppIds base
       end;
     customApps :=
       match p_customApps partial with
       | Some l => l
       | None => customApps base
       end;
     pageSize := Some pageSize_ |}.

(** ** Record merger *)

Fixpoint insertByName (a : LaunchpadApp) (sorted : list LaunchpadApp)
  : list LaunchpadApp :=
  match sorted with
  | [] => [a]
  | x :: rest =>
      match localeCompare h (name a) (name x) with
      | Lt => a :: x :: rest
      | _ => x :: insertByName a rest
      end
  end.

(** Modelled from the spec: [sortAppsByName] of [lib/apps.ts] is not among
    the sources. The spec: sort by name using locale-aware, case-insensitive
    ordering with ties broken by original order (stable sort). The ordering
    is the platform's [localeCompare]. *)
Definition sortAppsByName (apps : list LaunchpadApp) : list LaunchpadApp :=
  fold_left (fun sorted a => insertByName a sorted) apps [].

Definition tagOrigin (a : LaunchpadApp) : LaunchpadApp :=
  match origin a with
  | Some _ => a
  | None => with_origin a catalog
  end.

(** The body of the [catalogApps] memo. *)
Definition mergeCollection (clock : nat -> N) (baseCatalog customApps_ : list LaunchpadApp)
           (hideDefaultApps_ : option bool) : list LaunchpadApp :=
  let cataloguePart :=
    match hideDefaultApps_ with Some true => [] | _ => baseCatalog end in
  let allApps := (cataloguePart ++ customApps_)%list in
  let normalized := ensureUniqueAppIds clock (List.map tagOrigin allApps) in
  sortAppsByName normalized.

End Reconcile.

(** ** The state of the hook and its transitions *)

Record State := mkState {
  settings : LaunchpadSettings;
  userData : LaunchpadUserData;
  baseCatalog : list LaunchpadApp
}.

Record BackupActionResult := mkResult {
  success : bool;
  message : string
}.

(** [CustomAppInput]. *)
Record CustomAppInput := mkInput {
  in_id : option string;
  in_name : string;
  in_url : string;
  in_description : option string;
  in_tagsInput : option string;
  in_iconChoice : option string;
  in_iconCustom : option string
}.

(** [SettingsFormInput]. *)
Record SettingsFormInput := mkForm {
  f_backgroundType : BackgroundType;
  f_backgroundImageChoice : string;
  f_backgroundImageCustom : option string;
  f_backgroundColor : string;
  f_overlayOpacity : number;
  f_blurStrength : number;
  f_glassTintColor : string;
  f_glassTintOpacity : number;
  f_pageSize : number;
  f_hideDefaultApps : bool;
  f_mobileLayout : MobileLayout
}.

Definition BACKUP_SCHEMA_VERSION : Z := 1.

(** A [Set] of strings in insertion order. *)
Module StrSet.

Definition add (x : string) (s : list string) : list string :=
  if Str.mem x s then s else (s ++ [x])%list.

Definition ofList (l : list string) : list string :=
  fold_left (fun s x => add x s) l [].

Definition delete (x : string) (s : list string) : list string :=
  filter (fun y => negb (String.eqb y x)) s.

End StrSet.

Section Transitions.

Variable h : Host.
Variable c : Constants.

Definition initialState : State :=
  mkState (defaultSettings c) (defaultUserData c) [].

Definition setUserData (st : State) (u : LaunchpadUserData) : State :=
  mkState (settings st) u (baseCatalog st).

Definition setSettings (st : State) (s : LaunchpadSettings) : State :=
  mkState s (userData st) (baseCatalog st).

Definition setBaseCatalog (st : State) (apps : list LaunchpadApp) : State :=
  mkState (settings st) (userData st) apps.

(** The memo [catalogApps] of a state; [clock] gives the readings of
    [Date.now()] taken when the memo was computed. *)
Definition catalogApps (clock : nat -> N) (st : State) : list LaunchpadApp :=
  mergeCollection h clock (baseCatalog st) (customApps (userData st))
    (hideDefaultApps (settings st)).

Definition withHidden (u : LaunchpadUserData) (l : list string) : LaunchpadUserData :=
  mkUserData l (customApps u) (pageSize u).

Definition hideApp (clock : nat -> N) (appId : string) (st : State) : State :=
  if Str.isEmpty appId then st
  else
    let prev := userData st in
    let hiddenSet := StrSet.add appId (StrSet.ofList (hiddenAppIds prev)) in
    let deduped :=
      dedupeHiddenIds (VArr (List.map VStr hiddenSet)) (catalogApps clock st) in
    setUserData st (withHidden prev deduped).

Definition showApp (clock : nat -> N) (appId : string) (st : State) : State :=
  if Str.isEmpty appId then st
  else
    let prev := userData st in
    let hiddenSet := StrSet.delete appId (StrSet.ofList (hiddenAppIds prev)) in
    let deduped :=
      dedupeHiddenIds (VArr (List.map VStr hiddenSet)) (catalogApps clock st) in
    setUserData st (withHidden prev deduped).

Definition differs (x y : string) : bool := negb (String.eqb x y).

Definition removeCustomApp (appId : string) (st : State) : State :=
  let prev := userData st in
  setUserData st
    {| hiddenAppIds := filter (fun i => differs i appId) (hiddenAppIds prev);
       customApps := filter (fun a => differs (id a) appId) (customApps prev);
       pageSize := pageSize prev |}.

(** [setDesktopPageSize]; a throw inside the updater would put no new
    state. *)
Definition setDesktopPageSize (size : number) (st : State) : State :=
  let prev := userData st in
  match normalizePageSize h c (VNum size) with
  | Returns normalized =>
      setUserData st
        (mkUserData (hiddenAppIds prev) (customApps prev) (Some normalized))
  | Throws => st
  end.

Definition withCompletedSetup (s : LaunchpadSettings) (v : value) : LaunchpadSettings :=
  mkSettings (backgroundType s) (backgroundColor s) (backgroundImage s)
    (overlayOpacity s) (blurStrength s) (glassTintColor s) (glassTintOpacity s)
    (hideDefaultApps s) (mobileLayout s) v.

Definition closeSettings (markCompleted : bool) (st : State) : State :=
  if markCompleted
  then setSettings st (withCompletedSetup (settings st) (VBool true))
  else st.

(** [submitSettings]. The settings and the page size are both computed
    before the first setter runs: a throw in either would leave the state as
    it was. *)
Definition submitSettings (input : SettingsFormInput) (st : State) : State :=
  let backgroundImage_ :=
    if String.eqb (f_backgroundImageChoice input) "custom"
    then match f_backgroundImageCustom input with Some s => s | None => "" end
    else f_backgroundImageChoice input in
  match
    updateSettingsFromForm h c (settings st)
      (VObj [("backgroundType", backgroundTypeToValue (f_backgroundType input));
             ("backgroundImage", VStr backgroundImage_);
             ("backgroundColor", VStr (f_backgroundColor input));
             ("overlayOpacity", VNum (f_overlayOpacity input));
             ("blurStrength", VNum (f_blurStrength input));
             ("glassTintColor", VStr (f_glassTintColor input));
             ("glassTintOpacity", VNum (f_glassTintOpacity input));
             ("hasCompletedSetup", VBool true);
             ("hideDefaultApps", VBool (f_hideDefaultApps input));
             ("mobileLayout", layoutToValue (f_mobileLayout input))])
  with
  | Throws => st
  | Returns nextSettings =>
      match normalizePageSize h c (VNum (f_pageSize input)) with
      | Throws => st
      | Returns nextPageSize =>
          let prev := userData st in
          closeSettings true
            (mkState nextSettings
               (mkUserData (hiddenAppIds prev) (customApps prev) (Some nextPageSize))
               (baseCatalog st))
      end
  end.

(** What a call of an action that answers with a [BackupActionResult] comes
    to: the result, or a throw, and the state the setters have put by
    then. *)
Definition failure (msg : string) (st : State)
  : Completion BackupActionResult * State :=
  (Returns (mkResult false msg), st).

(** The call returned, and its result tells success. *)
Definition succeeded (r : Completion BackupActionResult) : bool :=
  match r with
  | Returns result => success result
  | Throws => false
  end.

(** [submitCustomApp]: [clock] dates the memo [catalogApps] the callback
    closes over, [now] is the reading of [Date.now()] inside the updater. *)
Definition submitCustomApp (clock : nat -> N) (now : N) (input : CustomAppInput)
           (st : State) : Completion BackupActionResult * State :=
  let trimmedName := Str.trim (in_name input) in
  if Str.isEmpty trimmedName then failure "Please enter a name." st
  else
    let sanitizedUrl := sanitizeHttpUrl h (VStr (in_url input)) in
    if Str.isEmpty sanitizedUrl then failure "Please enter a valid link." st
    else
      let iconStep : option string :=
        match in_iconChoice input with
        | Some choice =>
            if String.eqb choice "custom" then
              let customValue :=
                match in_iconCustom input with Some s => s | None => "" end in
              if Str.isEmpty (Str.trim customValue) then None
              else Some (sanitizeIconSource c (VStr customValue))
            else Some (sanitizeIconSource c (VStr choice))
        | None => Some (DEFAULT_ICON c)
        end in
      match iconStep with
      | None => failure "Paste an icon URL or pick a preset." st
      | Some icon_ =>
          let raw :=
            VObj [("id", Js.ofOption VStr (in_id input));
                  ("name", VStr trimmedName);
                  ("description",
                   VStr match in_description input with
                        | Some d => Str.trim d
                        | None => ""
                        end);
                  ("url", VStr sanitizedUrl);
                  ("icon", VStr icon_);
                  ("tags",
                   VArr (List.map VStr
                           match in_tagsInput input with
                           | Some t =>
                               if Str.isEmpty t then []
                               else parseCustomTagString (VStr t)
                           | None => []
                           end))] in
          match sanitizeAppRecord h c raw custom with
          | Throws => (Throws, st)
          | Returns None =>
              failure "Unable to create the app. Please check the fields again." st
          | Returns (Some baseApp) =>
              let prev := userData st in
              let trimmedId :=
                match in_id input with Some i => Str.trim i | None => "" end in
              let previousId :=
                if Str.isEmpty trimmedId then id baseApp else trimmedId in
              let reservedIds :=
                let all := StrSet.ofList (ids (catalogApps clock st)) in
                if Str.isEmpty previousId then all
                else StrSet.delete previousId all in
              let targetId :=
                if Str.isEmpty previousId
                then freeId reservedIds (createSlugId now "custom" (name baseApp))
                else Str.trim previousId in
              let prepared := with_origin (with_id baseApp targetId) custom in
              let withoutPrevious :=
                filter (fun a => differs (id a) previousId
                                 && differs (id a) (id prepared))
                       (customApps prev) in
              let updatedCustomApps := (withoutPrevious ++ [prepared])%list in
              let nextHiddenIds :=
                filter (fun i => differs i previousId && differs i (id prepared))
                       (hiddenAppIds prev) in
              (Returns
                 (mkResult true
                    match in_id input with
                    | Some i => if Str.isEmpty i then "App saved successfully."
                                else "App updated successfully."
                    | None => "App saved successfully."
                    end),
               setUserData st
                 (mkUserData nextHiddenIds updatedCustomApps (pageSize prev)))
          end
      end.

(** The payload [exportBackup] serialises; the serialisation to a file and
    the download are outside this core. *)
Definition exportPayload (generatedAt : string) (st : State) : value :=
  VObj [("version", VNum (Num.ofZ BACKUP_SCHEMA_VERSION));
        ("appVersion", VStr (APP_VERSION c));
        ("generatedAt", VStr generatedAt);
        ("settings", settingsToValue (settings st));
        ("userData", userDataToValue (userData st))].

Fixpoint keepSome {A} (l : list (option A)) : list A :=
  match l with
  | [] => []
  | Some a :: rest => a :: keepSome rest
  | None :: rest => keepSome rest
  end.

(** The settings [importBackup] hands to [setSettings]. *)
Definition importSettings (st : State) (rawSettings : value)
  : Completion LaunchpadSettings :=
  let incomingSettings := rawSettings in
  sanitized <-
    updateSettingsFromForm h c (defaultSettings c)
      (Js.spread (settingsToValue (defaultSettings c)) incomingSettings) ;;
  Returns
    (withCompletedSetup sanitized
       (if Js.isBoolean (Js.get incomingSettings "hasCompletedSetup")
        then Js.get incomingSettings "hasCompletedSetup"
        else Js.orElse (hasCompletedSetup (settings st)) (hasCompletedSetup sanitized))).

(** The user data [importBackup] hands to [setUserData]. *)
Definition importUserData (rawUserData : value) : Completion LaunchpadUserData :=
  let incomingUserData := rawUserData in
  sanitizedCustomApps <-
    match Js.get incomingUserData "customApps" with
    | VArr entries =>
        records <- Try.each (fun e => sanitizeAppRecord h c e custom) entries ;;
        Returns (Some (keepSome records))
    | _ => Returns None
    end ;;
  let sanitizedHiddenIds :=
    match Js.get incomingUserData "hiddenAppIds" with
    | VArr entries =>
        Some (StrSet.ofList (filter nonEmpty (List.map trimmedString entries)))
    | _ => None
    end in
  mergeUserData h c (defaultUserData c)
    (mkPartialUserData sanitizedHiddenIds sanitizedCustomApps
       (Js.get incomingUserData "pageSize")).

(** [importBackup]. The settings are set before the user data are looked
    at: when the user data make the call throw, the settings of the payload
    stay set. *)
Definition importBackup (data : value) (st : State)
  : Completion BackupActionResult * State :=
  if negb (Js.isObject data) then failure "The backup file is invalid." st
  else
    let rawSettings := Js.get data "settings" in
    let rawUserData := Js.get data "userData" in
    if negb (Js.truthy rawSettings) && negb (Js.truthy rawUserData)
    then failure "The backup file is missing required data." st
    else
      let settingsUpdated := Js.isObject rawSettings in
      match
        (if settingsUpdated
         then sanitized <- importSettings st rawSettings ;;
              Returns (setSettings st sanitized)
         else Returns st)
      with
      | Throws => (Throws, st)
      | Returns st1 =>
          let userDataUpdated := Js.isObject rawUserData in
          match
            (if userDataUpdated
             then mergedUserData <- importUserData rawUserData ;;
                  Returns (setUserData st1 mergedUserData)
             else Returns st1)
          with
          | Throws => (Throws, st1)
          | Returns st2 =>
              if negb settingsUpdated && negb userDataUpdated
              then failure "No changes were applied from the backup file." st2
              else
                (Returns
                   (mkResult true
                      (if settingsUpdated && userDataUpdated
                       then "Imported settings and app data successfully."
                       else if settingsUpdated then "Imported settings successfully."
                       else "Imported app data successfully.")),
                 st2)
          end
      end.

(** The transitions of an hydrated hook: the catalogue arrives, or the user
    acts. *)
Inductive step : State -> State -> Prop :=
| step_catalog st apps :
    step st (setBaseCatalog st apps)
| step_hide st clock appId :
    step st (hideApp clock appId st)
| step_show st clock appId :
    step st (showApp clock appId st)
| step_remove st appId :
    step st (removeCustomApp appId st)
| step_submit_app st clock now input :
    step st (snd (submitCustomApp clock now input st))
| step_page_size st size :
    step st (setDesktopPageSize size st)
| step_close_settings st markCompleted :
    step st (closeSettings markCompleted st)
| step_submit_settings st input :
    step st (submitSettings input st)
| step_import st data :
    step st (snd (importBackup data st)).

Inductive reachable : State -> Prop :=
| reachable_initial : reachable initialState
| reachable_step st st' : reachable st -> step st st' -> reachable st'.

End Transitions.

(** ** View projector *)

(** Modelled from the spec: [splitApps] of [lib/apps.ts] is not among the
    sources. The spec: [splitByHidden(apps, hiddenIds) -> (visible, hidden)],
    a single pass preserving relative order. *)
Definition splitApps (apps : list LaunchpadApp) (hiddenIds : list string)
  : list LaunchpadApp * list LaunchpadApp :=
  (filter (fun a => negb (Str.mem (id a) hiddenIds)) apps,
   filter (fun a => Str.mem (id a) hiddenIds) apps).

Definition visibleApps (apps : list LaunchpadApp) (hiddenIds : list string)
  : list LaunchpadApp := fst (splitApps apps hiddenIds).

Definition hiddenApps (apps : list LaunchpadApp) (hiddenIds : list string)
  : list LaunchpadApp := snd (splitApps apps hiddenIds).

(** ** A platform and constants for the examples *)

Definition hasNoSpace (s : string) : bool :=
  String.eqb (Str.dropEnd Str.is_ws s) s.

Fixpoint hasSlash (s : string) : bool :=
  match s with
  | EmptyString => false
  | String ch rest => Ascii.eqb ch "/" || hasSlash rest
  end.

Fixpoint skip (n : nat) (s : string) : string :=
  match n, s with
  | S m, String _ rest => skip m rest
  | _, _ => s
  end.

(** A small [new URL]: it accepts [https://] followed by a non-empty text,
    when the whole does not end in white space, and prints it back, with a
    [/] added when the text after [https://] has none. *)
Definition exampleURL (s : string) : option URL :=
  if Str.startsWith "https://" s && hasNoSpace s then
    match skip 8 s with
    | EmptyString => None
    | rest => Some (mkURL "https:" (if hasSlash rest then s else s ++ "/"))
    end
  else None.

(** A small platform: [exampleURL]; a [parseFloat] that reads no text as a
    number; a printer for numbers that only tells their kind; code-unit
    order on the lower-cased names. *)
Definition exampleHost : Host :=
  mkHost exampleURL
         (fun _ => NaN)
         (fun n => match n with
                   | NaN => "NaN"
                   | Inf true => "-Infinity"
                   | Inf false => "Infinity"
                   | Fin _ => "0"
                   end)
         (fun a b => String.compare (Str.toLowerCase a) (Str.toLowerCase b)).

(** Constants for the examples. The page sizes are those of the slider of
    the settings dialog ([min={14} max={56} step={7}]). *)
Definition exampleSettings : LaunchpadSettings :=
  mkSettings bg_image "#0f172a" "" (Num.ofQ (35 # 100)) (Num.ofZ 8)
             "#0f172a" (Num.ofQ (4 # 10)) (Some false) (Some layout_grid)
             (VBool false).

Definition exampleConstants : Constants :=
  mkConstants 14 56 7 28 "/icons/default.svg" exampleSettings
              (mkUserData [] [] (Some (Num.ofZ 28))) "1.0.0".

Definition catalogApp (id_ name_ : string) : LaunchpadApp :=
  mkApp id_ name_ "" "https://example.com/" "/icons/default.svg" [] None None.

(** A catalogue of one app, that app hidden, then the settings saved with
    "hide default apps" ticked. *)
Definition hideDefaultsForm : SettingsFormInput :=
  mkForm bg_image "" None "#0f172a" (Num.ofQ (35 # 100)) (Num.ofZ 8)
         "#0f172a" (Num.ofQ (4 # 10)) (Num.ofZ 28) true layout_grid.

Definition staleState : State :=
  submitSettings exampleHost exampleConstants hideDefaultsForm
    (hideApp exampleHost (fun _ => 0%N) "docs"
       (setBaseCatalog (initialState exampleConstants) [catalogApp "docs" "Docs"])).

(** A hidden custom app, and the form that edits it. *)
Definition mailApp : LaunchpadApp :=
  mkApp "custom-mail" "Mail" "" "https://mail.example.com/" "/icons/default.svg"
        [] (Some custom) None.

Definition hiddenMailState : State :=
  mkState exampleSettings
          (mkUserData ["custom-mail"] [mailApp] (Some (Num.ofZ 28))) [].

Definition editMailForm : CustomAppInput :=
  mkInput (Some "custom-mail") "Mail box" "mail.example.com/inbox" None None None None.

(** Two custom apps named Foo come from a backup, the second without an id;
    the user hides both, then edits the first. *)
Definition twoFoosBackup : value :=
  VObj [("userData",
         VObj [("customApps",
                VArr [VObj [("id", VStr "custom-foo"); ("name", VStr "Foo");
                            ("url", VStr "https://a.example.com/")];
                      VObj [("name", VStr "Foo");
                            ("url", VStr "https://b.example.com/")]])])].

Definition noon : nat -> N := fun _ => 1700000000000%N.

Definition twoFoosHidden : State :=
  hideApp exampleHost noon "custom-foo-2"
    (hideApp exampleHost noon "custom-foo"
       (snd (importBackup exampleHost exampleConstants twoFoosBackup
               (initialState exampleConstants)))).

Definition editFooForm : CustomAppInput :=
  mkInput (Some "custom-foo") "Foo Mail" "https://a.example.com/" None None None None.

Definition afterEditFoo : State :=
  snd (submitCustomApp exampleHost exampleConstants noon 1700000000000
         editFooForm twoFoosHidden).

(** A value [String] cannot print: [JSON.parse('{"toString": 1}')]. *)
Definition ownToString : value := VObj [("toString", VNum (Num.ofZ 1))].

(** A backup whose settings are fine and whose page size cannot be
    printed: [{ settings: { overlayOpacity: 0.5 },
                userData: { pageSize: { toString: 1 } } }]. *)
Definition halfReadableBackup : value :=
  VObj [("settings", VObj [("overlayOpacity", VNum (Num.ofQ (5 # 10)))]);
        ("userData", VObj [("pageSize", ownToString)])].

(** ** Auxiliary notions of the identity resolver *)

(** The candidates the loop tries, in order. *)
Definition candidates (baseId first : string) (counter : N) (n : nat) : list string :=
  first :: List.map (fun j => suffixed baseId (counter + N.of_nat j)) (seq 0 n).

(** A record that needs no timestamp: it has an id, or its name has a
    character of [a-z0-9] once in lower case. *)
Definition slugged (a : LaunchpadApp) : Prop :=
  Str.trim (id a) = "" -> slugBase (name a) <> "".

(** ** The values that [String] prints *)

(** Every value but an object with an own property [toString] and an array
    that holds one, at any depth. *)
Fixpoint printable (v : value) : bool :=
  match v with
  | VArr items => forallb printable items
  | VObj fields =>
      match Js.lookup "toString" fields with
      | Some _ => false
      | None => true
      end
  | _ => true
  end.

(** ** Conditions on the constants and on the platform *)

(** What the properties of the page size ask of the constants: the bounds
    are in order and multiples of a positive step, and the default page size
    is a finite number. *)
Definition pageConstantsOk (c : Constants) : Prop :=
  (MIN_PAGE_SIZE c <= MAX_PAGE_SIZE c)%Z
  /\ (0 < PAGE_SIZE_STEP c)%Z
  /\ (PAGE_SIZE_STEP c | MIN_PAGE_SIZE c)%Z
  /\ (PAGE_SIZE_STEP c | MAX_PAGE_SIZE c)%Z
  /\ Num.isFinite (fallbackPageSize c) = true.

(** The last three lines of [normalizePageSize], on an integer [z] for
    [rounded]. *)
Definition steppedPageSize (c : Constants) (z : Z) : number :=
  let lo := Num.ofZ (MIN_PAGE_SIZE c) in
  let hi := Num.ofZ (MAX_PAGE_SIZE c) in
  let step := Num.ofZ (PAGE_SIZE_STEP c) in
  if Num.le step (Num.ofZ 1) then Num.min (Num.max (Num.ofZ z) lo) hi
  else
    let stepped := Num.mul (Num.round (Num.div (Num.ofZ z) step)) step in
    Num.min (Num.max stepped lo) hi.

(** ** What a valid settings object is *)

Definition isHexDigit (ch : ascii) : bool :=
  Str.is_digit ch || Str.between 97 102 ch.

Fixpoint allChars (p : ascii -> bool) (s : string) : bool :=
  match s with
  | EmptyString => true
  | String ch rest => p ch && allChars p rest
  end.

(** A colour in normal form: [#] and six hexadecimal digits, as [rgbToHex]
    prints them. *)
Definition isHexColor (s : string) : bool :=
  match s with
  | String "#" rest => (String.length rest =? 6)%nat && allChars isHexDigit rest
  | _ => false
  end.

(** A finite number of the interval [[lo, hi]]. *)
Definition within (lo hi : Q) (n : number) : Prop :=
  match n with
  | Fin x => (Q2Qc lo <= x)%Qc /\ (x <= Q2Qc hi)%Qc
  | _ => False
  end.

Definition isLayout (l : option MobileLayout) : Prop :=
  l = Some layout_grid \/ l = Some layout_list.

(** The invariants of a settings object: numbers in their ranges, colours
    in normal form, a layout. *)
Definition settingsInRange (s : LaunchpadSettings) : Prop :=
  within 0 (6 # 10) (overlayOpacity s)
  /\ within 0 20 (blurStrength s)
  /\ within (5 # 100) (95 # 100) (glassTintOpacity s)
  /\ isHexColor (backgroundColor s) = true
  /\ isHexColor (glassTintColor s) = true
  /\ isLayout (mobileLayout s).

(** What the reconciler asks of [defaultSettings], its fallback: numbers in
    range, colours that [hexToRgb] reads, a layout. *)
Definition defaultsUsable (c : Constants) : Prop :=
  let d := defaultSettings c in
  within 0 (6 # 10) (overlayOpacity d)
  /\ within 0 20 (blurStrength d)
  /\ within (5 # 100) (95 # 100) (glassTintOpacity d)
  /\ hexToRgb (VStr (backgroundColor d)) <> None
  /\ hexToRgb (VStr (glassTintColor d)) <> None
  /\ isLayout (mobileLayout d).

(** Two hexadecimal digits, as [toHex] prints a byte. *)
Definition twoHex (s : string) : bool :=
  match s with
  | String a (String b EmptyString) => isHexDigit a && isHexDigit b
  | _ => false
  end.

(** ** What a valid state is *)

Definition trimmed (s : string) : Prop := Str.trim s = s.

Definition cleanText (s : string) : Prop := trimmed s /\ s <> "".

(** A background image as [sanitizeBackgroundImage] leaves it. *)
Definition cleanImage (s : string) : Prop :=
  trimmed s /\ Str.containsCI "javascript:" s = false.

(** The text the platform prints for some http or https URL. *)
Definition canonicalUrl (h : Host) (s : string) : Prop :=
  exists t u, URL_new h t = Some u /\ isHttp u = true /\ href u = s.

(** The default icon, or a trimmed source of one of the accepted kinds. *)
Definition validIcon (c : Constants) (s : string) : Prop :=
  s = DEFAULT_ICON c \/ (trimmed s /\ iconAccepted s = true).

(** A custom app as the hook stores it. *)
Definition validCustomApp (h : Host) (c : Constants) (a : LaunchpadApp) : Prop :=
  trimmed (id a)
  /\ cleanText (name a)
  /\ trimmed (description a)
  /\ canonicalUrl h (url a)
  /\ validIcon c (icon a)
  /\ Forall cleanText (tags a)
  /\ origin a = Some custom
  /\ type_ a = None.

Definition validPageSize (c : Constants) (n : option number) : Prop :=
  exists p, n = Some (Num.ofZ p)
            /\ (MIN_PAGE_SIZE c <= p <= MAX_PAGE_SIZE c)%Z
            /\ (PAGE_SIZE_STEP c | p)%Z.

Definition validSettings (s : LaunchpadSettings) : Prop :=
  settingsInRange s
  /\ cleanImage (backgroundImage s)
  /\ (exists flag, hideDefaultApps s = Some flag)
  /\ (exists flag, hasCompletedSetup s = VBool flag).

Definition validUserData (h : Host) (c : Constants) (u : LaunchpadUserData) : Prop :=
  NoDup (hiddenAppIds u)
  /\ Forall cleanText (hiddenAppIds u)
  /\ Forall (validCustomApp h c) (customApps u)
  /\ validPageSize c (pageSize u).

(** Every field is present and within the invariants of the data model. *)
Definition validState (h : Host) (c : Constants) (st : State) : Prop :=
  validSettings (settings st) /\ validUserData h c (userData st).

(** What the round trip asks of [new URL]: the text printed for an http or
    https URL starts with its protocol, ends in no white space, and reads
    back as the same URL. *)
Definition urlPrintsCanonically (h : Host) : Prop :=
  forall t u,
    URL_new h t = Some u -> isHttp u = true ->
    URL_new h (href u) = Some u
    /\ Str.startsWith (protocol u) (href u) = true
    /\ Str.dropEnd Str.is_ws (href u) = href u.

(** *** Dropping from a list

    [droppedOnly P l l']: the list [l'] is [l] without some of its elements
    that satisfy [P]; what stays is in the order it had. *)
Inductive droppedOnly {A : Type} (P : A -> Prop) : list A -> list A -> Prop :=
| droppedOnly_nil : droppedOnly P [] []
| droppedOnly_keep x l l' :
    droppedOnly P l l' -> droppedOnly P (x :: l) (x :: l')
| droppedOnly_drop x l l' :
    P x -> droppedOnly P l l' -> droppedOnly P (x :: l) l'.

(** *** What a scheme is

    The scheme of a URL as RFC 3986 (3.1) writes it: a letter, then letters,
    digits, [+], [-] and [.], up to a colon. The characters are listed one
    by one, with no reference to the tests of the code. *)
Definition letters : list ascii :=
  list_ascii_of_string "abcdefghijklmnopqrstuvwxyzABCDEFGHIJKLMNOPQRSTUVWXYZ".

Definition schemeCharacters : list ascii :=
  (letters ++ list_ascii_of_string "0123456789+-.")%list.

(** The text begins with a scheme and its colon. *)
Definition beginsWithScheme (t : string) : Prop :=
  exists first name rest,
    t = String first (name ++ ":" ++ rest)
    /\ In first letters
    /\ Forall (fun ch => In ch schemeCharacters) (list_ascii_of_string name).

(** The backup [{ userData: { pageSize: 999 } }]. *)
Definition pageSize999 : value :=
  VObj [("userData", VObj [("pageSize", VNum (Num.ofZ 999))])].

(** ** Further code of the hook and of its callers *)

(** [findAppById]; the id is [null] or a string. *)
Definition findAppById (apps : list LaunchpadApp) (i : option string)
  : option LaunchpadApp :=
  match i with
  | None => None
  | Some s =>
      if Str.isEmpty s then None
      else List.find (fun app => String.eqb (id app) s) apps
  end.

(** *** Pages and the active index

    Page numbers, indices, counts and the page size are integers. For a
    divisor that is not zero [Z.div] is [Math.floor] of the quotient and
    [Z.rem] is [%]. *)

(** The effect that follows a change of [totalPages]. *)
Definition settleCurrentPage (isMobileLayout : bool) (totalPages previous : Z) : Z :=
  if isMobileLayout then 0%Z
  else if (previous >=? totalPages)%Z then Z.max (totalPages - 1) 0
  else previous.

Definition setPage (isMobileLayout : bool) (totalPages page : Z) : Z :=
  if isMobileLayout then 0%Z
  else Z.min (Z.max page 0) (totalPages - 1).

(** The two pieces of state the index callbacks write. *)
Record Cursor := mkCursor {
  activeIndex : Z;
  currentPage : Z
}.

(** [setActiveIndex]; [count] is [filteredApps.length], [perPage] is
    [desktopPageSize]. *)
Definition setActiveIndex (count : Z) (isMobileLayout : bool) (perPage index : Z)
           (cur : Cursor) : Cursor :=
  if (count =? 0)%Z then mkCursor (-1) (currentPage cur)
  else
    let maxIndex := (count - 1)%Z in
    let clamped := Z.min (Z.max index 0) maxIndex in
    mkCursor clamped
      (if negb isMobileLayout && (count >? 0)%Z then (clamped / perPage)%Z
       else currentPage cur).

Definition advanceActiveIndex (count : Z) (isMobileLayout : bool) (perPage delta : Z)
           (cur : Cursor) : Cursor :=
  if (count =? 0)%Z then cur
  else
    let previous := activeIndex cur in
    if (previous =? -1)%Z then
      let next := if (delta >? 0)%Z then 0%Z else (count - 1)%Z in
      mkCursor next
        (if negb isMobileLayout then (next / perPage)%Z else currentPage cur)
    else
      let nextIndex := Z.rem (previous + delta + count) count in
      mkCursor nextIndex
        (if negb isMobileLayout then (nextIndex / perPage)%Z else currentPage cur).

(** [globalIndex] of the card [index] of the page [pageIndex], in the grid of
    [LaunchpadApp]. *)
Definition globalIndex (isMobileLayout : bool) (perPage pageIndex index : Z) : Z :=
  if isMobileLayout then index else (pageIndex * perPage + index)%Z.

(** *** The page size the viewport allows *)

(** [desktopPageSizeLimit] of [LaunchpadApp], when the grid metrics exist;
    [rawLimit] is their product of columns and rows. *)
Definition desktopPageSizeLimit (c : Constants) (rawLimit : Z) : Z :=
  let capped := Z.min rawLimit (MAX_PAGE_SIZE c) in
  if (capped <=? MIN_PAGE_SIZE c)%Z then MIN_PAGE_SIZE c
  else
    let steps := ((capped - MIN_PAGE_SIZE c) / PAGE_SIZE_STEP c)%Z in
    (MIN_PAGE_SIZE c + steps * PAGE_SIZE_STEP c)%Z.

(** The memo [desktopPageSize] of the hook. *)
Definition desktopPageSize (h : Host) (c : Constants) (st : State)
  : Completion number :=
  normalizePageSize h c (Js.ofOption VNum (pageSize (userData st))).

(** The effect of [LaunchpadApp] that holds the page size under the limit;
    [limit] is [None] when there are no grid metrics. The effect runs with
    the page size the hook gave: a hook that threw gave none, and no effect
    runs. *)
Definition enforcePageSizeLimit (h : Host) (c : Constants) (isMobileLayout : bool)
           (limit : option Z) (st : State) : State :=
  match limit with
  | None => st
  | Some l =>
      match desktopPageSize h c st with
      | Throws => st
      | Returns size =>
          if isMobileLayout || (l =? 0)%Z || Num.le size (Num.ofZ l)
          then st
          else setDesktopPageSize h c (Num.ofZ l) st
      end
  end.

(** *** The form of [AddAppModal] *)

Record AddAppForm := mkForm_ {
  form_name : string;
  form_url : string;
  form_description : string;
  form_tags : string;
  form_iconChoice : string;
  form_iconCustom : string
}.

(** [tags.join(", ")]. *)
Definition joinTags (tags_ : list string) : string := String.concat ", " tags_.

Definition isCustom (a : LaunchpadApp) : bool :=
  match origin a with Some custom => true | _ => false end.

(** The form the modal opens with; [iconLibrary] is the icon list of the
    hook. *)
Definition openForm (c : Constants) (iconLibrary : list string)
           (editing : option LaunchpadApp) : AddAppForm :=
  match editing with
  | Some a =>
      if isCustom a then
        mkForm_ (name a) (url a) (description a) (joinTags (tags a))
                (if Str.mem (icon a) iconLibrary then icon a else "custom")
                (if Str.mem (icon a) iconLibrary then "" else icon a)
      else
        mkForm_ "" "" "" "" (hd (DEFAULT_ICON c) iconLibrary) ""
  | None => mkForm_ "" "" "" "" (hd (DEFAULT_ICON c) iconLibrary) ""
  end.

(** What [handleSubmit] hands to [submitCustomApp] when the form has a name
    and a link ([None] when the link is blank, or the name is and a title
    must be fetched first). *)
Definition formInput (editing : option LaunchpadApp) (f : AddAppForm)
  : option CustomAppInput :=
  let resolvedName := Str.trim (form_name f) in
  if Str.isEmpty (Str.trim (form_url f)) then None
  else if Str.isEmpty resolvedName then None
  else
    Some (mkInput
            match editing with
            | Some a => if isCustom a then Some (id a) else None
            | None => None
            end
            resolvedName (form_url f) (Some (form_description f))
            (Some (form_tags f)) (Some (form_iconChoice f)) (Some (form_iconCustom f))).

(** *** Shapes of texts *)

Definition notComma (ch : ascii) : bool := negb (Ascii.eqb ch ",").

Definition notSpace (ch : ascii) : bool := negb (Str.is_ws ch).

Definition slugOrDash (ch : ascii) : bool := is_slug_char ch || is_dash ch.

(** No two dashes in a row. *)
Fixpoint noDoubleDash (s : string) : bool :=
  match s with
  | String a ((String b _) as rest) => negb (is_dash a && is_dash b) && noDoubleDash rest
  | _ => true
  end.

(** The body of a slug id: not empty, characters of [a-z0-9] and single
    dashes, no dash at either end. *)
Definition slugBody (s : string) : Prop :=
  s <> ""
  /\ allChars slugOrDash s = true
  /\ noDoubleDash s = true
  /\ Str.dropStart is_dash s = s
  /\ Str.dropEnd is_dash s = s.

(** ** What every state of the hook keeps *)

(** Valid settings, hidden ids that are trimmed and not empty, valid custom
    apps, and a page size within the bounds and on a step. *)
Definition wellFormed (h : Host) (c : Constants) (st : State) : Prop :=
  validSettings (settings st)
  /\ Forall cleanText (hiddenAppIds (userData st))
  /\ Forall (validCustomApp h c) (customApps (userData st))
  /\ validPageSize c (pageSize (userData st)).

(** * Properties *)

(** ** Strings and sets of strings *)

Lemma mem_In (x : string) (l : list string) : Str.mem x l = true <-> In x l.
Proof.
  unfold Str.mem. rewrite existsb_exists. split.
  - intros [y [Hy Heq]]. apply String.eqb_eq in Heq. now subst.
  - intros Hin. exists x. split; [assumption | apply String.eqb_refl].
Qed.

Lemma mem_false_not_In (x : string) (l : list string) :
  Str.mem x l = false <-> ~ In x l.
Proof.
  rewrite <- mem_In. destruct (Str.mem x l); split; congruence.
Qed.

Lemma append_inj_r (a x y : string) : a ++ x = a ++ y -> x = y.
Proof.
  induction a as [|ch a IH]; simpl; intros Heq; [assumption|].
  injection Heq as Heq. auto.
Qed.

Lemma append_length (a x : string) :
  String.length (a ++ x) = (String.length a + String.length x)%nat.
Proof. induction a; simpl; congruence. Qed.

Lemma decimal_inj (j k : N) : Str.decimal j = Str.decimal k -> j = k.
Proof.
  unfold Str.decimal. intros Heq.
  apply DecimalN.Unsigned.to_uint_inj.
  assert (Hs : Some (N.to_uint j) = Some (N.to_uint k)).
  { rewrite <- (NilEmpty.usu (N.to_uint j)), <- (NilEmpty.usu (N.to_uint k)).
    now rewrite Heq. }
  now injection Hs.
Qed.

Lemma suffixed_inj (baseId : string) (j k : N) :
  suffixed baseId j = suffixed baseId k -> j = k.
Proof.
  unfold suffixed. intros Heq.
  apply append_inj_r in Heq. apply (append_inj_r "-") in Heq.
  now apply decimal_inj.
Qed.

Lemma suffixed_neq_base (baseId : string) (k : N) : suffixed baseId k <> baseId.
Proof.
  unfold suffixed. intros Heq.
  apply (f_equal String.length) in Heq.
  rewrite append_length in Heq. simpl in Heq. lia.
Qed.

Lemma NoDup_map_inj {A B} (f : A -> B) (l : list A) :
  (forall x y, f x = f y -> x = y) -> NoDup l -> NoDup (List.map f l).
Proof.
  intros Hinj Hnd. induction Hnd as [|x l Hx Hnd IH]; simpl; constructor.
  - rewrite in_map_iff. intros [y [Hy Hin]]. apply Hinj in Hy. now subst.
  - assumption.
Qed.

(** ** Identity resolver *)

Lemma seq_shift_map {A} (f : nat -> A) (n : nat) :
  List.map f (seq 1 n) = List.map (fun j => f (S j)) (seq 0 n).
Proof. rewrite <- seq_shift, map_map. reflexivity. Qed.

Lemma freeIdLoop_none fuel seen baseId first counter :
  freeIdLoop (S fuel) seen baseId first counter = None ->
  incl (candidates baseId first counter fuel) seen.
Proof.
  revert first counter.
  induction fuel as [|fuel IH]; intros first counter; simpl.
  - destruct (Str.mem first seen) eqn:Hm; [|discriminate].
    intros _ x [<- | []]. now apply mem_In.
  - destruct (Str.mem first seen) eqn:Hm; [|discriminate].
    intros Hnone. apply IH in Hnone.
    intros x [<- | Hx]; [now apply mem_In|].
    apply Hnone. unfold candidates.
    simpl in Hx. destruct Hx as [<- | Hx].
    + left. now rewrite N.add_0_r.
    + right. rewrite seq_shift_map in Hx.
      rewrite in_map_iff in *. destruct Hx as [j [<- Hj]].
      exists j. split; [|assumption]. f_equal. lia.
Qed.

Lemma candidates_NoDup baseId counter n :
  NoDup (candidates baseId baseId counter n).
Proof.
  unfold candidates. constructor.
  - rewrite in_map_iff. intros [j [Hj _]]. now apply suffixed_neq_base in Hj.
  - apply NoDup_map_inj; [|apply seq_NoDup].
    intros i j Hij. apply suffixed_inj in Hij. lia.
Qed.

(** The loop leaves before its fuel is spent. *)
Lemma freeIdLoop_total seen baseId :
  exists u, freeIdLoop (S (List.length seen)) seen baseId baseId 2 = Some u.
Proof.
  destruct (freeIdLoop (S (List.length seen)) seen baseId baseId 2) as [u|] eqn:Hloop.
  - now exists u.
  - apply freeIdLoop_none in Hloop.
    apply (NoDup_incl_length (candidates_NoDup baseId 2 (List.length seen))) in Hloop.
    unfold candidates in Hloop. simpl in Hloop.
    rewrite length_map, length_seq in Hloop. lia.
Qed.

(** More fuel does not change the result. *)
Lemma freeIdLoop_more_fuel fuel fuel' seen baseId first counter u :
  freeIdLoop fuel seen baseId first counter = Some u ->
  (fuel <= fuel')%nat ->
  freeIdLoop fuel' seen baseId first counter = Some u.
Proof.
  revert fuel' first counter.
  induction fuel as [|fuel IH]; intros fuel' first counter; simpl; [discriminate|].
  intros Hloop Hle. destruct fuel' as [|fuel']; [lia|]. simpl.
  destruct (Str.mem first seen); [|assumption].
  apply IH; [assumption | lia].
Qed.

Lemma freeIdLoop_fresh fuel seen baseId first counter u :
  freeIdLoop fuel seen baseId first counter = Some u -> ~ In u seen.
Proof.
  revert first counter.
  induction fuel as [|fuel IH]; intros first counter; simpl; [discriminate|].
  destruct (Str.mem first seen) eqn:Hm.
  - apply IH.
  - intros [= <-]. now apply mem_false_not_In.
Qed.

Lemma freeIdLoop_shape fuel seen baseId first counter u :
  freeIdLoop fuel seen baseId first counter = Some u ->
  u = first \/ exists k, (counter <= k)%N /\ u = suffixed baseId k.
Proof.
  revert first counter.
  induction fuel as [|fuel IH]; intros first counter; simpl; [discriminate|].
  destruct (Str.mem first seen).
  - intros Hloop. apply IH in Hloop. right.
    destruct Hloop as [-> | [k [Hk ->]]].
    + exists counter. split; [lia | reflexivity].
    + exists k. split; [lia | reflexivity].
  - intros [= <-]. now left.
Qed.

Lemma freeId_fresh seen baseId : ~ In (freeId seen baseId) seen.
Proof.
  unfold freeId. destruct (freeIdLoop_total seen baseId) as [u Hu].
  rewrite Hu. eapply freeIdLoop_fresh. exact Hu.
Qed.

Lemma freeId_shape seen baseId :
  freeId seen baseId = baseId
  \/ exists k, (2 <= k)%N /\ freeId seen baseId = suffixed baseId k.
Proof.
  unfold freeId. destruct (freeIdLoop_total seen baseId) as [u Hu].
  rewrite Hu. eapply freeIdLoop_shape. exact Hu.
Qed.

Lemma freeId_unseen seen baseId :
  ~ In baseId seen -> freeId seen baseId = baseId.
Proof.
  intros Hnot. unfold freeId. simpl.
  apply mem_false_not_In in Hnot. now rewrite Hnot.
Qed.

Lemma uniqueFrom_ids clock i seen apps :
  NoDup (ids (uniqueFrom clock i seen apps))
  /\ forall x, In x (ids (uniqueFrom clock i seen apps)) -> ~ In x seen.
Proof.
  revert i seen.
  induction apps as [|app rest IH]; intros i seen; simpl.
  - split; [constructor | intros x []].
  - destruct (IH (S i) (freeId seen (baseIdOf (clock i) app) :: seen)) as [Hnd Hout].
    split.
    + constructor; [|assumption].
      intros Hin. apply Hout in Hin. apply Hin. now left.
    + intros x [<- | Hin].
      * apply freeId_fresh.
      * apply Hout in Hin. intros Hseen. apply Hin. now right.
Qed.

Lemma uniqueFrom_nth clock i seen apps n a :
  nth_error apps n = Some a ->
  exists a',
    nth_error (uniqueFrom clock i seen apps) n = Some a'
    /\ a' = with_id a (id a')
    /\ (id a' = baseIdOf (clock (i + n)%nat) a
        \/ exists k, (2 <= k)%N /\ id a' = suffixed (baseIdOf (clock (i + n)%nat) a) k).
Proof.
  revert i seen n.
  induction apps as [|app rest IH]; intros i seen n; [destruct n; discriminate|].
  destruct n as [|n]; simpl.
  - intros [= <-]. eexists. split; [reflexivity|]. simpl. split; [reflexivity|].
    rewrite Nat.add_0_r. apply freeId_shape.
  - intros Hn. replace (i + S n)%nat with (S i + n)%nat by lia.
    now apply IH.
Qed.

Lemma uniqueFrom_length clock i seen apps :
  List.length (uniqueFrom clock i seen apps) = List.length apps.
Proof.
  revert i seen. induction apps as [|app rest IH]; intros i seen; simpl; auto.
Qed.

(** C2. The output of [ensureUniqueAppIds] holds no two records with the same
    id, whatever the input list and the clock. It has one record per input
    record, in the input order, and the id of a record is its base id (its
    own trimmed id, or the slug of its name) or that base id followed by
    [-k] for a [k] from 2 on. *)
Theorem ensureUniqueAppIds_unique (clock : nat -> N) (apps : list LaunchpadApp) :
  NoDup (ids (ensureUniqueAppIds clock apps))
  /\ List.length (ensureUniqueAppIds clock apps) = List.length apps
  /\ forall n a,
       nth_error apps n = Some a ->
       exists a',
         nth_error (ensureUniqueAppIds clock apps) n = Some a'
         /\ a' = with_id a (id a')
         /\ (id a' = baseIdOf (clock n) a
             \/ exists k, (2 <= k)%N /\ id a' = suffixed (baseIdOf (clock n) a) k).
Proof.
  unfold ensureUniqueAppIds. split; [|split].
  - apply uniqueFrom_ids.
  - apply uniqueFrom_length.
  - intros n a Hn. apply (uniqueFrom_nth clock 0 [] apps n a Hn).
Qed.

Lemma ensureUniqueAppIds_unique_witness :
  ids (ensureUniqueAppIds noon [catalogApp "" "Docs"; catalogApp "" "Docs"])
  = ["app-docs"; "app-docs-2"]
  /\ exists a',
       nth_error (ensureUniqueAppIds noon [catalogApp "" "Docs"; catalogApp "" "Docs"]) 1
       = Some a'
       /\ a' = with_id (catalogApp "" "Docs") (id a')
       /\ (id a' = baseIdOf (noon 1%nat) (catalogApp "" "Docs")
           \/ exists k, (2 <= k)%N
                        /\ id a' = suffixed (baseIdOf (noon 1%nat) (catalogApp "" "Docs")) k).
Proof.
  split; [reflexivity|].
  exact (proj2 (proj2 (ensureUniqueAppIds_unique noon
                         [catalogApp "" "Docs"; catalogApp "" "Docs"]))
           1%nat (catalogApp "" "Docs") eq_refl).
Defined.

(** ** Record merger *)

Lemma baseIdOf_slugged now now' a :
  slugged a -> baseIdOf now a = baseIdOf now' a.
Proof.
  unfold slugged, baseIdOf, createSlugId. intros Hs.
  destruct (Str.trim (id a)) eqn:Hid; simpl; [|reflexivity].
  specialize (Hs eq_refl).
  destruct (slugBase (name a)); [congruence | reflexivity].
Qed.

Lemma tagOrigin_slugged a : slugged a -> slugged (tagOrigin a).
Proof. unfold slugged, tagOrigin. destruct (origin a); auto. Qed.

Lemma uniqueFrom_clock clock clock' i seen apps :
  Forall slugged apps ->
  uniqueFrom clock i seen apps = uniqueFrom clock' i seen apps.
Proof.
  intros Hall. revert i seen.
  induction Hall as [|a rest Ha Hall IH]; intros i seen; simpl; [reflexivity|].
  rewrite (baseIdOf_slugged (clock i) (clock' i) a Ha). now rewrite IH.
Qed.

(** C1, the counterexample. A catalogue record with no id and the name
    [???] gets the id [app-0] when the clock reads 0 and [app-1] when it
    reads 1: two merges of the same inputs differ. *)
Lemma mergeCollection_clock_dependent :
  mergeCollection exampleHost (fun _ => 0%N) [catalogApp "" "???"] [] (Some false)
  <> mergeCollection exampleHost (fun _ => 1%N) [catalogApp "" "???"] [] (Some false).
Proof. vm_compute. discriminate. Qed.

(** C1, amended. When every record that has no id has a name with a
    character of [a-z0-9] once in lower case, two merges of the same
    catalogue, custom apps and flag give the same list, ids and order
    included, whatever the clock reads at each. *)
Theorem mergeCollection_deterministic (h : Host) (clock clock' : nat -> N)
        (baseCatalog_ customApps_ : list LaunchpadApp) (hide : option bool) :
  Forall slugged baseCatalog_ ->
  Forall slugged customApps_ ->
  mergeCollection h clock baseCatalog_ customApps_ hide
  = mergeCollection h clock' baseCatalog_ customApps_ hide.
Proof.
  intros Hcat Hcus. unfold mergeCollection, ensureUniqueAppIds.
  f_equal. apply uniqueFrom_clock.
  rewrite Forall_map. apply Forall_app. split.
  - destruct hide as [[|]|]; [constructor | |];
      eapply Forall_impl; try exact Hcat; intros a; apply tagOrigin_slugged.
  - eapply Forall_impl; [|exact Hcus]. intros a; apply tagOrigin_slugged.
Qed.

Lemma mergeCollection_deterministic_witness :
  mergeCollection exampleHost (fun _ => 0%N)
    [catalogApp "" "Docs"; catalogApp "" "Docs"] [] (Some false)
  = mergeCollection exampleHost (fun _ => 1%N)
      [catalogApp "" "Docs"; catalogApp "" "Docs"] [] (Some false).
Proof.
  apply mergeCollection_deterministic.
  - repeat constructor; intros _; vm_compute; discriminate.
  - constructor.
Defined.

(** ** Hidden ids *)

Lemma dropEnd_idem p s : Str.dropEnd p (Str.dropEnd p s) = Str.dropEnd p s.
Proof.
  induction s as [|ch rest IH]; simpl; [reflexivity|].
  destruct (Str.dropEnd p rest) as [|ch' rest'] eqn:Hrest.
  - destruct (p ch) eqn:Hp; simpl; [reflexivity | now rewrite Hp].
  - simpl in *. now rewrite IH.
Qed.

Lemma dropStart_head p s :
  match Str.dropStart p s with
  | EmptyString => True
  | String ch _ => p ch = false
  end.
Proof.
  induction s as [|ch rest IH]; simpl; [exact I|].
  destruct (p ch) eqn:Hp; [exact IH | exact Hp].
Qed.

Lemma dropStart_dropEnd p s :
  match s with EmptyString => True | String ch _ => p ch = false end ->
  Str.dropStart p (Str.dropEnd p s) = Str.dropEnd p s.
Proof.
  destruct s as [|ch rest]; simpl; [reflexivity|]. intros Hp.
  destruct (Str.dropEnd p rest); rewrite ?Hp; simpl; now rewrite Hp.
Qed.

Lemma trim_idem s : Str.trim (Str.trim s) = Str.trim s.
Proof.
  unfold Str.trim.
  rewrite (dropStart_dropEnd Str.is_ws (Str.dropStart Str.is_ws s)).
  - apply dropEnd_idem.
  - apply dropStart_head.
Qed.

Lemma trimmedString_trimmed v : Str.trim (trimmedString v) = trimmedString v.
Proof. destruct v; try reflexivity. apply trim_idem. Qed.

Lemma nonEmpty_true s : nonEmpty s = true <-> s <> "".
Proof. unfold nonEmpty. destruct s; simpl; split; congruence. Qed.

Lemma dedupeHiddenIds_sound hiddenIds apps i :
  In i (dedupeHiddenIds hiddenIds apps) ->
  i <> "" /\ Str.trim i = i /\ In i (ids apps)
  /\ exists items raw, hiddenIds = VArr items /\ In raw items /\ i = trimmedString raw.
Proof.
  destruct hiddenIds; simpl; try contradiction.
  rewrite filter_In, in_map_iff, andb_true_iff, nonEmpty_true, mem_In.
  intros [[raw [<- Hraw]] [Hne Hin]].
  repeat split; try assumption.
  - apply trimmedString_trimmed.
  - now exists items, raw.
Qed.

(** C4, the counterexample. [dedupeHiddenIds] keeps a repeated id: with the
    app [docs] in the list, the ids [docs], [docs] come back twice. *)
Lemma dedupeHiddenIds_keeps_duplicates :
  dedupeHiddenIds (VArr [VStr "docs"; VStr "docs"]) [catalogApp "docs" "Docs"]
  = ["docs"; "docs"]
  /\ ~ NoDup (dedupeHiddenIds (VArr [VStr "docs"; VStr "docs"])
                [catalogApp "docs" "Docs"]).
Proof.
  split; [reflexivity|].
  intros Hnd. inversion Hnd as [|x l Hin _]; subst. apply Hin. now left.
Qed.

(** C4, amended. Whatever [hiddenIds] and the app list, every id that
    [dedupeHiddenIds] returns is non-empty, trimmed, the trimmed form of an
    entry of [hiddenIds], and the id of an app of the list: the id of an app
    that is no longer in the list is never returned. The function removes no
    duplicate itself: its result has none when the trimmed entries of
    [hiddenIds] are pairwise distinct. *)
Theorem dedupeHiddenIds_prunes (hiddenIds : value) (apps : list LaunchpadApp) :
  (forall i, In i (dedupeHiddenIds hiddenIds apps) ->
             i <> "" /\ Str.trim i = i /\ In i (ids apps))
  /\ (forall i, ~ In i (ids apps) -> ~ In i (dedupeHiddenIds hiddenIds apps))
  /\ (forall items,
        hiddenIds = VArr items ->
        NoDup (List.map trimmedString items) ->
        NoDup (dedupeHiddenIds hiddenIds apps)).
Proof.
  split; [|split].
  - intros i Hin. apply dedupeHiddenIds_sound in Hin. tauto.
  - intros i Hnot Hin. apply dedupeHiddenIds_sound in Hin. tauto.
  - intros items -> Hnd. simpl. now apply NoDup_filter.
Qed.

Lemma dedupeHiddenIds_prunes_witness :
  NoDup (dedupeHiddenIds (VArr [VStr " docs "; VStr "gone"; VNum NaN; VStr "mail"])
           [catalogApp "docs" "Docs"; catalogApp "mail" "Mail"]).
Proof.
  refine (proj2 (proj2 (dedupeHiddenIds_prunes _ _)) _ eq_refl _).
  vm_compute. repeat constructor; simpl; intuition discriminate.
Defined.

(** ** Hidden-app bookkeeping of the hook *)

(** C3, the counterexample. The catalogue brings the app [docs], the user
    hides it, then saves the settings with "hide default apps" ticked. The
    merged collection is now empty, and [hiddenAppIds] still holds [docs]:
    recomputing the merge prunes nothing. *)
Lemma stale_hidden_id_reachable :
  reachable exampleHost exampleConstants staleState
  /\ hiddenAppIds (userData staleState) = ["docs"]
  /\ forall clock, catalogApps exampleHost clock staleState = [].
Proof.
  split; [|split].
  - unfold staleState.
    eapply reachable_step; [|apply step_submit_settings].
    eapply reachable_step; [|apply step_hide].
    eapply reachable_step; [|apply step_catalog].
    apply reachable_initial.
  - reflexivity.
  - intros clock. reflexivity.
Qed.

Lemma catalogApps_setUserData h clock st u :
  customApps u = customApps (userData st) ->
  catalogApps h clock (setUserData st u) = catalogApps h clock st.
Proof. unfold catalogApps. simpl. now intros ->. Qed.

(** C3, amended. [hiddenAppIds] is pruned by the hide and show actions, not
    by the merge: after [hideApp] or [showApp] with a non-empty id, every id
    of [hiddenAppIds] is the id of an app of the merged collection; a change
    of the catalogue, which recomputes the merge, leaves [hiddenAppIds] as it
    was. *)
Theorem hide_show_prune_hidden_ids (h : Host) (clock : nat -> N) (appId : string)
        (st : State) :
  appId <> "" ->
  incl (hiddenAppIds (userData (hideApp h clock appId st)))
       (ids (catalogApps h clock (hideApp h clock appId st)))
  /\ incl (hiddenAppIds (userData (showApp h clock appId st)))
          (ids (catalogApps h clock (showApp h clock appId st)))
  /\ forall apps,
       hiddenAppIds (userData (setBaseCatalog st apps)) = hiddenAppIds (userData st).
Proof.
  intros Hne. unfold hideApp, showApp.
  destruct appId as [|ch rest]; [congruence|]. simpl Str.isEmpty. cbv iota.
  split; [|split].
  - rewrite catalogApps_setUserData by reflexivity.
    intros i Hin. cbn [userData setUserData hiddenAppIds withHidden] in Hin.
    apply dedupeHiddenIds_sound in Hin. tauto.
  - rewrite catalogApps_setUserData by reflexivity.
    intros i Hin. cbn [userData setUserData hiddenAppIds withHidden] in Hin.
    apply dedupeHiddenIds_sound in Hin. tauto.
  - reflexivity.
Qed.

Lemma hide_show_prune_hidden_ids_witness :
  incl (hiddenAppIds (userData (hideApp exampleHost (fun _ => 0%N) "docs" staleState)))
       (ids (catalogApps exampleHost (fun _ => 0%N)
               (hideApp exampleHost (fun _ => 0%N) "docs" staleState))).
Proof.
  apply (hide_show_prune_hidden_ids exampleHost (fun _ => 0%N) "docs" staleState).
  discriminate.
Defined.

(** C10, the counterexample. Two custom apps named Foo are hidden, the
    first stored under the id [custom-foo], the second stored without an id
    and shown under [custom-foo-2]. Editing the first succeeds and takes
    [custom-foo] out of [hiddenAppIds]; the saved record goes to the end of
    [customApps], so the merge now gives [custom-foo] to the app without an
    id and [custom-foo-2], still hidden, to the saved one: the edited app
    stays hidden. *)
Lemma edited_app_stays_hidden :
  reachable exampleHost exampleConstants twoFoosHidden
  /\ List.map name (hiddenApps (catalogApps exampleHost noon twoFoosHidden)
                      (hiddenAppIds (userData twoFoosHidden)))
     = ["Foo"; "Foo"]
  /\ succeeded (fst (submitCustomApp exampleHost exampleConstants noon 1700000000000
                       editFooForm twoFoosHidden)) = true
  /\ hiddenAppIds (userData afterEditFoo) = ["custom-foo-2"]
  /\ List.map (fun a => (id a, name a)) (catalogApps exampleHost noon afterEditFoo)
     = [("custom-foo", "Foo"); ("custom-foo-2", "Foo Mail")]
  /\ List.map name (visibleApps (catalogApps exampleHost noon afterEditFoo)
                       (hiddenAppIds (userData afterEditFoo)))
     = ["Foo"]
  /\ List.map name (hiddenApps (catalogApps exampleHost noon afterEditFoo)
                      (hiddenAppIds (userData afterEditFoo)))
     = ["Foo Mail"].
Proof.
  split.
  - unfold twoFoosHidden.
    eapply reachable_step; [|apply step_hide].
    eapply reachable_step; [|apply step_hide].
    eapply reachable_step; [|apply step_import].
    apply reachable_initial.
  - repeat split; vm_compute; reflexivity.
Qed.

Lemma filter_without_first (p q : string) (l : list string) :
  ~ In p (filter (fun i => differs i p && differs i q) l).
Proof.
  rewrite filter_In. intros [_ Hkeep].
  apply andb_true_iff in Hkeep. destruct Hkeep as [Hkeep _].
  unfold differs in Hkeep. now rewrite String.eqb_refl in Hkeep.
Qed.

Lemma filter_without_second (p q : string) (l : list string) :
  ~ In q (filter (fun i => differs i p && differs i q) l).
Proof.
  rewrite filter_In. intros [_ Hkeep].
  apply andb_true_iff in Hkeep. destruct Hkeep as [_ Hkeep].
  unfold differs in Hkeep. now rewrite String.eqb_refl in Hkeep.
Qed.

(** C10, amended. When [submitCustomApp] succeeds, the saved record is the
    last of [customApps], and neither its id nor the id given in the form
    (trimmed) is in [hiddenAppIds] afterwards: every app that the merged
    collection shows under the saved id is among the visible ones. After
    [removeCustomApp] the removed id is not in [hiddenAppIds] either. *)
Theorem submit_and_remove_unhide (h : Host) (c : Constants) (clock : nat -> N)
        (now : N) (input : CustomAppInput) (appId : string) (st : State) :
  (succeeded (fst (submitCustomApp h c clock now input st)) = true ->
   let st' := snd (submitCustomApp h c clock now input st) in
   (exists others prepared,
       customApps (userData st') = (others ++ [prepared])%list
       /\ ~ In (id prepared) (hiddenAppIds (userData st'))
       /\ forall clock' a,
            In a (catalogApps h clock' st') -> id a = id prepared ->
            In a (visibleApps (catalogApps h clock' st') (hiddenAppIds (userData st'))))
   /\ (forall previous, in_id input = Some previous ->
                        ~ In (Str.trim previous) (hiddenAppIds (userData st'))))
  /\ ~ In appId (hiddenAppIds (userData (removeCustomApp appId st))).
Proof.
  split.
  - unfold submitCustomApp.
    destruct (Str.isEmpty (Str.trim (in_name input))); [discriminate|].
    destruct (Str.isEmpty (sanitizeHttpUrl h (VStr (in_url input)))); [discriminate|].
    match goal with |- context [match ?icon with Some _ => _ | None => _ end] =>
      destruct icon as [icon_|] end; [|discriminate].
    match goal with |- context [sanitizeAppRecord h c ?raw custom] =>
      destruct (sanitizeAppRecord h c raw custom) as [[baseApp|]|] eqn:Hbase end;
      [|discriminate|discriminate].
    intros _. cbv zeta. cbn [snd userData setUserData customApps hiddenAppIds].
    split.
    + eexists _, _. split; [reflexivity|]. split; [apply filter_without_second|].
      intros clock' a Hin Hid. unfold visibleApps, splitApps. cbn [fst].
      apply filter_In. split; [exact Hin|].
      apply negb_true_iff, mem_false_not_In. rewrite Hid.
      apply filter_without_second.
    + intros previous Hprev. rewrite Hprev.
      destruct (Str.isEmpty (Str.trim previous)) eqn:Hempty.
      * (* an id of white space only: the base record carries the same id *)
        unfold sanitizeAppRecord in Hbase. rewrite Hprev in Hbase.
        simpl Js.isObject in Hbase. simpl negb in Hbase. cbv iota in Hbase.
        destruct (sanitizeTagList h _) as [tags_|]; [|discriminate].
        cbn [Try.bind] in Hbase.
        match type of Hbase with (if ?b then _ else _) = _ =>
          destruct b; [discriminate|] end.
        injection Hbase as <-. cbn [id]. apply filter_without_first.
      * apply filter_without_first.
  - unfold removeCustomApp. simpl. rewrite filter_In. intros [_ Hkeep].
    unfold differs in Hkeep. now rewrite String.eqb_refl in Hkeep.
Qed.

Lemma submit_and_remove_unhide_witness :
  succeeded (fst (submitCustomApp exampleHost exampleConstants (fun _ => 0%N) 0
                    editMailForm hiddenMailState)) = true
  /\ ~ In "custom-mail"
         (hiddenAppIds
            (userData (snd (submitCustomApp exampleHost exampleConstants
                              (fun _ => 0%N) 0 editMailForm hiddenMailState)))).
Proof.
  split; [reflexivity|].
  exact (proj2 (proj1 (submit_and_remove_unhide exampleHost exampleConstants
                         (fun _ => 0%N) 0 editMailForm "" hiddenMailState)
                  eq_refl)
           "custom-mail" eq_refl).
Defined.

(** ** Backup import *)




(** ** Numbers *)

Lemma this_Q2Qc (q : Q) : (this (Q2Qc q) == q)%Q.
Proof. apply Qred_correct. Qed.

Lemma Qle_bool_comp (a a' b b' : Q) :
  (a == a')%Q -> (b == b')%Q -> Qle_bool a b = Qle_bool a' b'.
Proof.
  intros Ha Hb. apply eq_true_iff_eq. rewrite !Qle_bool_iff.
  now rewrite Ha, Hb.
Qed.

Lemma leq_Q2Qc (a b : Q) : Num.leq (Q2Qc a) (Q2Qc b) = Qle_bool a b.
Proof. unfold Num.leq. apply Qle_bool_comp; apply this_Q2Qc. Qed.

Lemma Qle_bool_inject_Z (a b : Z) :
  Qle_bool (inject_Z a) (inject_Z b) = (a <=? b)%Z.
Proof. unfold Qle_bool. simpl. now rewrite !Z.mul_1_r. Qed.

Lemma leq_ofZ (a b : Z) :
  Num.leq (Q2Qc (inject_Z a)) (Q2Qc (inject_Z b)) = (a <=? b)%Z.
Proof. now rewrite leq_Q2Qc, Qle_bool_inject_Z. Qed.

Lemma le_ofZ (a b : Z) : Num.le (Num.ofZ a) (Num.ofZ b) = (a <=? b)%Z.
Proof. apply leq_ofZ. Qed.

Lemma max_ofZ (a b : Z) : Num.max (Num.ofZ a) (Num.ofZ b) = Num.ofZ (Z.max a b).
Proof.
  unfold Num.max, Num.ofZ, Num.ofQ. rewrite leq_ofZ.
  destruct (Z.leb_spec a b).
  - now rewrite Z.max_r.
  - now rewrite Z.max_l by lia.
Qed.

Lemma min_ofZ (a b : Z) : Num.min (Num.ofZ a) (Num.ofZ b) = Num.ofZ (Z.min a b).
Proof.
  unfold Num.min, Num.ofZ, Num.ofQ. rewrite leq_ofZ.
  destruct (Z.leb_spec a b).
  - now rewrite Z.min_l.
  - now rewrite Z.min_r by lia.
Qed.

Lemma Qfloor_half (z : Z) : Qfloor (inject_Z z + (1 # 2)) = z.
Proof.
  unfold Qfloor, Qplus, inject_Z. simpl.
  symmetry. apply (Z.div_unique _ _ _ 1); lia.
Qed.

Lemma round_ofZ (z : Z) : Num.round (Num.ofZ z) = Num.ofZ z.
Proof.
  unfold Num.round, Num.ofZ at 1, Num.ofQ. f_equal.
  transitivity (Qfloor (inject_Z z + (1 # 2))); [|apply Qfloor_half].
  apply Qfloor_comp. now rewrite this_Q2Qc.
Qed.

Lemma mul_ofZ (a b : Z) : Num.mul (Num.ofZ a) (Num.ofZ b) = Num.ofZ (a * b).
Proof.
  unfold Num.mul, Num.ofZ, Num.ofQ. f_equal.
  apply Qc_is_canon. unfold Qcmult.
  rewrite !this_Q2Qc. now rewrite inject_Z_mult.
Qed.

Lemma isZero_ofZ (z : Z) : Num.isZero (Q2Qc (inject_Z z)) = (z =? 0)%Z.
Proof.
  unfold Num.isZero. apply eq_true_iff_eq.
  rewrite Qeq_bool_iff, Z.eqb_eq, this_Q2Qc.
  unfold Qeq. simpl. lia.
Qed.

(** The division [Math.round] receives is that of two integers. *)
Lemma div_ofZ (a b : Z) :
  b <> 0%Z ->
  exists q : Qc, Num.div (Num.ofZ a) (Num.ofZ b) = Fin q
                 /\ (q == inject_Z a / inject_Z b)%Q.
Proof.
  intros Hb. unfold Num.div, Num.ofZ, Num.ofQ. rewrite isZero_ofZ.
  destruct (Z.eqb_spec b 0); [contradiction|].
  eexists. split; [reflexivity|].
  unfold Qcdiv, Qcmult, Qcinv. rewrite !this_Q2Qc. reflexivity.
Qed.

Lemma div_ofZ_exact (k b : Z) :
  b <> 0%Z ->
  Num.round (Num.div (Num.ofZ (k * b)) (Num.ofZ b)) = Num.ofZ k.
Proof.
  intros Hb. destruct (div_ofZ (k * b) b Hb) as [q [-> Hq]].
  unfold Num.round. f_equal.
  transitivity (Qfloor (inject_Z k + (1 # 2))); [|apply Qfloor_half].
  apply Qfloor_comp.
  rewrite Hq, inject_Z_mult. field.
  unfold Qeq. simpl. lia.
Qed.

Lemma round_is_integer (n : number) :
  Num.isFinite n = true -> exists z, Num.round n = Num.ofZ z.
Proof. destruct n; try discriminate. intros _. now eexists. Qed.

(** [Math.min(Math.max(x, lo), hi)] of a finite [x] lies between finite
    bounds [lo <= hi]. *)
Lemma clamp_bounds (x lo hi : Qc) :
  (lo <= hi)%Qc ->
  exists y, Num.min (Num.max (Fin x) (Fin lo)) (Fin hi) = Fin y
            /\ (lo <= y)%Qc /\ (y <= hi)%Qc.
Proof.
  intros Hle. unfold Num.max, Num.min, Num.leq.
  destruct (Qle_bool x lo) eqn:H1.
  - apply Qle_bool_iff in Hle. rewrite Hle.
    exists lo. repeat split; [apply Qcle_refl | now apply Qle_bool_iff].
  - destruct (Qle_bool x hi) eqn:H2.
    + exists x. repeat split; [|now apply Qle_bool_iff].
      apply Qclt_le_weak. apply Qcnot_le_lt. intros Hc.
      apply Qle_bool_iff in Hc. congruence.
    + exists hi. repeat split; [assumption | apply Qcle_refl].
Qed.

Lemma clamp_fixed (x lo hi : Qc) :
  (lo <= x)%Qc -> (x <= hi)%Qc ->
  Num.min (Num.max (Fin x) (Fin lo)) (Fin hi) = Fin x.
Proof.
  intros Hlo Hhi. unfold Num.max, Num.min, Num.leq.
  destruct (Qle_bool x lo) eqn:H1.
  - apply Qle_bool_iff in H1.
    assert (x = lo) as -> by (apply Qcle_antisym; assumption).
    apply Qle_bool_iff in Hhi. now rewrite Hhi.
  - apply Qle_bool_iff in Hhi. now rewrite Hhi.
Qed.

(** ** What [String] prints and where it throws *)

Lemma toStr_printable h : forall v, Try.returned (toStr h v) = printable v.
Proof.
  fix IH 1. intros v. destruct v as [ | | flag | n | s | items | fields];
    try reflexivity.
  - destruct flag; reflexivity.
  - cbn [toStr printable]. revert items. fix IHl 1. intros [|x rest]; [reflexivity|].
    pose proof (IH x) as Hx. pose proof (IHl rest) as Hrest.
    cbn [forallb]. rewrite <- Hx, <- Hrest.
    assert (Helem : Try.returned
                      match x with
                      | VUndefined | VNull => Returns ""
                      | _ => toStr h x
                      end = Try.returned (toStr h x))
      by (destruct x; reflexivity).
    destruct rest as [|y rest'].
    + rewrite andb_true_r. exact Helem.
    + rewrite <- Helem.
      destruct (match x with
                | VUndefined | VNull => Returns ""
                | _ => toStr h x
                end); [|reflexivity].
      cbn [Try.bind Try.returned andb].
      match goal with |- Try.returned (Try.bind ?j _) = Try.returned ?j' =>
        change j' with j; destruct j; reflexivity end.
  - cbn [toStr printable]. destruct (Js.lookup "toString" fields); reflexivity.
Qed.

Lemma returned_true {A} (x : Completion A) :
  Try.returned x = true <-> exists a, x = Returns a.
Proof. destruct x; simpl; split; eauto; try discriminate. intros [a Ha]. discriminate. Qed.

Lemma returned_false {A} (x : Completion A) : Try.returned x = false <-> x = Throws.
Proof. destruct x; simpl; split; congruence. Qed.

Lemma each_returned {A B} (f : A -> Completion B) (l : list A) :
  Try.returned (Try.each f l) = forallb (fun x => Try.returned (f x)) l.
Proof.
  induction l as [|x rest IH]; [reflexivity|]. cbn [Try.each forallb].
  destruct (f x); [|reflexivity]. cbn [Try.bind Try.returned andb].
  rewrite <- IH. now destruct (Try.each f rest).
Qed.

Lemma each_results {A B} (f : A -> Completion B) (l : list A) (ys : list B) :
  Try.each f l = Returns ys -> Forall2 (fun x y => f x = Returns y) l ys.
Proof.
  revert ys. induction l as [|x rest IH]; intros ys; cbn [Try.each].
  - intros [= <-]. constructor.
  - destruct (f x) as [y|] eqn:Hy; [|discriminate].
    destruct (Try.each f rest) as [ys'|]; [|discriminate].
    cbn [Try.bind]. intros [= <-]. constructor; [exact Hy | now apply IH].
Qed.

Lemma each_In {A B} (f : A -> Completion B) (l : list A) (ys : list B) (y : B) :
  Try.each f l = Returns ys -> In y ys -> exists x, In x l /\ f x = Returns y.
Proof.
  intros Heach. apply each_results in Heach.
  induction Heach as [|x y' rest ys' Hxy _ IH]; intros Hin; [contradiction|].
  destruct Hin as [<- | Hin].
  - exists x. split; [now left | exact Hxy].
  - destruct (IH Hin) as (x' & Hx' & Hfx). exists x'. split; [now right | exact Hfx].
Qed.

Lemma toFloat_printable h v : Try.returned (toFloat h v) = printable v.
Proof.
  rewrite <- (toStr_printable h). destruct v; try reflexivity;
    unfold toFloat; destruct (toStr h _); reflexivity.
Qed.

Lemma clampNumber_printable h v lo hi fallback :
  Try.returned (clampNumber h v lo hi fallback) = printable v.
Proof.
  rewrite <- (toFloat_printable h). unfold clampNumber.
  destruct (toFloat h v); reflexivity.
Qed.

Lemma normalizePageSize_printable h c v :
  Try.returned (normalizePageSize h c v) = printable v.
Proof.
  rewrite <- (clampNumber_printable h v (Num.ofZ (MIN_PAGE_SIZE c))
                (Num.ofZ (MAX_PAGE_SIZE c)) (fallbackPageSize c)).
  unfold normalizePageSize.
  destruct (clampNumber h v _ _ _); [|reflexivity].
  cbn [Try.bind]. now destruct (Num.le _ _).
Qed.

(** ** Page size *)

Section PageSize.

Variable h : Host.
Variable c : Constants.
Hypothesis Hok : pageConstantsOk c.

Local Abbreviation lo := (MIN_PAGE_SIZE c).
Local Abbreviation hi := (MAX_PAGE_SIZE c).
Local Abbreviation stp := (PAGE_SIZE_STEP c).

Lemma bounds_Qcle : (Q2Qc (inject_Z lo) <= Q2Qc (inject_Z hi))%Qc.
Proof.
  destruct Hok as [Hle _].
  unfold Qcle. apply Qle_bool_iff. fold (Num.leq (Q2Qc (inject_Z lo)) (Q2Qc (inject_Z hi))).
  rewrite leq_ofZ. now apply Z.leb_le.
Qed.

Lemma clampNumber_finite v x :
  clampNumber h v (Num.ofZ lo) (Num.ofZ hi) (fallbackPageSize c) = Returns x ->
  Num.isFinite x = true.
Proof.
  unfold clampNumber. destruct (toFloat h v) as [numeric|]; [|discriminate].
  cbn [Try.bind]. intros [= <-].
  destruct numeric as [| |y]; simpl negb; cbv iota;
    try (now destruct Hok as (_ & _ & _ & _ & Hfin)).
  destruct (clamp_bounds y _ _ bounds_Qcle) as [z [Hz _]].
  unfold Num.ofZ, Num.ofQ. now rewrite Hz.
Qed.

Local Abbreviation stepped := (steppedPageSize c).

Lemma normalizePageSize_stepped v n :
  normalizePageSize h c v = Returns n -> exists z, n = stepped z.
Proof.
  unfold normalizePageSize.
  destruct (clampNumber h v (Num.ofZ lo) (Num.ofZ hi) (fallbackPageSize c))
    as [clamped|] eqn:Hclamp; [|discriminate].
  cbn [Try.bind]. rewrite (clampNumber_finite v clamped Hclamp).
  destruct (round_is_integer clamped (clampNumber_finite v clamped Hclamp)) as [z Hz].
  rewrite Hz. intros Hn. exists z.
  unfold stepped, steppedPageSize. fold lo hi stp.
  destruct (Num.le (Num.ofZ stp) (Num.ofZ 1)); now injection Hn as <-.
Qed.

Lemma stepped_range z :
  exists p, stepped z = Num.ofZ p /\ (lo <= p <= hi)%Z /\ (stp | p)%Z.
Proof.
  destruct Hok as (Hle & Hpos & Hlo & Hhi & _). fold lo hi stp in Hle, Hpos, Hlo, Hhi.
  unfold stepped, steppedPageSize. fold lo hi stp. rewrite le_ofZ.
  destruct (Z.leb_spec stp 1) as [Hone|Hbig].
  - rewrite max_ofZ, min_ofZ. eexists. split; [reflexivity|]. split; [lia|].
    assert (stp = 1%Z) as -> by lia. apply Z.divide_1_l.
  - destruct (div_ofZ z stp) as [q [-> _]]; [lia|].
    destruct (round_is_integer (Fin q) eq_refl) as [k ->].
    rewrite mul_ofZ, max_ofZ, min_ofZ. eexists. split; [reflexivity|]. split; [lia|].
    destruct (Z.max_spec (k * stp) lo) as [[_ ->]|[_ ->]];
      destruct (Z.min_spec lo hi) as [[_ Hm]|[_ Hm]];
      try match goal with |- (stp | Z.min ?a hi)%Z =>
            destruct (Z.min_spec a hi) as [[_ ->]|[_ ->]] end;
      auto using Z.divide_factor_r.
Qed.

Lemma stepped_fixed p :
  (lo <= p <= hi)%Z -> (stp | p)%Z -> stepped p = Num.ofZ p.
Proof.
  intros Hp [k ->]. destruct Hok as (_ & Hpos & _). fold stp in Hpos.
  unfold stepped, steppedPageSize. fold lo hi stp. rewrite le_ofZ.
  destruct (Z.leb_spec stp 1).
  - rewrite max_ofZ, min_ofZ. f_equal. lia.
  - rewrite div_ofZ_exact by lia. rewrite mul_ofZ, max_ofZ, min_ofZ. f_equal. lia.
Qed.

Lemma normalizePageSize_number (x : Z) :
  normalizePageSize h c (VNum (Num.ofZ x))
  = Returns (stepped (Z.min (Z.max x lo) hi)).
Proof.
  unfold normalizePageSize, stepped, steppedPageSize, clampNumber. fold lo hi stp.
  simpl toFloat. cbn [Try.bind]. simpl negb. cbv iota.
  rewrite max_ofZ, min_ofZ. simpl Num.isFinite. cbv iota.
  rewrite round_ofZ. now destruct (Num.le (Num.ofZ stp) (Num.ofZ 1)).
Qed.

Lemma normalizePageSize_fixed p :
  (lo <= p <= hi)%Z -> (stp | p)%Z ->
  normalizePageSize h c (VNum (Num.ofZ p)) = Returns (Num.ofZ p).
Proof.
  intros Hp Hdiv. rewrite normalizePageSize_number.
  replace (Z.min (Z.max p lo) hi) with p by lia.
  f_equal. now apply stepped_fixed.
Qed.

End PageSize.




(** ** Settings reconciler *)

Lemma clampNumber_within h v (lo hi : Q) fallback y :
  (lo <= hi)%Q ->
  within lo hi fallback ->
  clampNumber h v (Num.ofQ lo) (Num.ofQ hi) fallback = Returns y ->
  within lo hi y.
Proof.
  intros Hle Hfb. unfold clampNumber.
  destruct (toFloat h v) as [numeric|]; [|discriminate].
  cbn [Try.bind]. intros [= <-].
  destruct numeric as [| |x]; simpl negb; cbv iota; try assumption.
  assert (Hc : (Q2Qc lo <= Q2Qc hi)%Qc).
  { unfold Qcle. now rewrite !this_Q2Qc. }
  destruct (clamp_bounds x _ _ Hc) as [y [Hy Hrange]].
  unfold Num.ofQ. rewrite Hy. exact Hrange.
Qed.

Lemma toInt32_small z : (- 2 ^ 31 <= z < 2 ^ 31)%Z -> toInt32 z = z.
Proof. intros Hz. unfold toInt32. rewrite Z.mod_small; lia. Qed.

Lemma band_255 x : (0 <= band x 255 <= 255)%Z.
Proof.
  unfold band. rewrite (toInt32_small 255) by lia.
  assert (Hland : (0 <= Z.land (toInt32 x) 255 < 256)%Z).
  { change 255%Z with (Z.ones 8). rewrite Z.land_ones by lia.
    apply Z.mod_pos_bound. lia. }
  rewrite toInt32_small; lia.
Qed.

Lemma toHex_twoHex z : (0 <= z <= 255)%Z -> twoHex (toHex z) = true.
Proof.
  intros Hz.
  assert (Hall : forallb (fun n => twoHex (toHex (Z.of_nat n))) (seq 0 256) = true)
    by (vm_compute; reflexivity).
  rewrite forallb_forall in Hall.
  rewrite <- (Z2Nat.id z) by lia. apply Hall. apply in_seq. lia.
Qed.

Lemma rgbToHex_color x :
  (0 <= r x <= 255)%Z -> (0 <= g x <= 255)%Z -> (0 <= b x <= 255)%Z ->
  exists s, rgbToHex (Some x) = Some s /\ isHexColor s = true.
Proof.
  intros Hr Hg Hb. eexists. split; [reflexivity|].
  apply toHex_twoHex in Hr, Hg, Hb.
  destruct (toHex (r x)) as [|r1 [|r2 [|]]]; try discriminate.
  destruct (toHex (g x)) as [|g1 [|g2 [|]]]; try discriminate.
  destruct (toHex (b x)) as [|b1 [|b2 [|]]]; try discriminate.
  simpl in *. apply andb_true_iff in Hr, Hg, Hb.
  destruct Hr as [-> ->], Hg as [-> ->], Hb as [-> ->]. reflexivity.
Qed.

Lemma hexToRgb_bytes v x :
  hexToRgb v = Some x ->
  (0 <= r x <= 255)%Z /\ (0 <= g x <= 255)%Z /\ (0 <= b x <= 255)%Z.
Proof.
  unfold hexToRgb. destruct v; try discriminate.
  destruct (Str.isEmpty (Str.trim s)); [discriminate|].
  match goal with |- context [negb ?t] => destruct t end; [|discriminate].
  simpl negb. cbv iota.
  match goal with |- context [parseInt16 ?t] => destruct (parseInt16 t) end;
    [|discriminate].
  intros [= <-]. simpl. auto using band_255.
Qed.

Lemma resolveHexColor_color v fallback :
  hexToRgb (VStr fallback) <> None ->
  isHexColor (resolveHexColor v fallback) = true.
Proof.
  intros Hfb. unfold resolveHexColor.
  destruct (hexToRgb v) as [x|] eqn:Hv.
  - destruct (hexToRgb_bytes _ _ Hv) as (Hr & Hg & Hb).
    destruct (rgbToHex_color x Hr Hg Hb) as [s [-> Hs]]. exact Hs.
  - destruct (hexToRgb (VStr fallback)) as [x|] eqn:Hf; [|congruence].
    destruct (hexToRgb_bytes _ _ Hf) as (Hr & Hg & Hb).
    destruct (rgbToHex_color x Hr Hg Hb) as [s [-> Hs]]. exact Hs.
Qed.

(** What [updateSettingsFromForm] returns, when it returns: the three
    numbers are what [clampNumber] returned. *)
Lemma updateSettingsFromForm_returns h c base partial s :
  updateSettingsFromForm h c base partial = Returns s ->
  Js.nullish partial = false
  /\ clampNumber h (Js.get partial "overlayOpacity")
       (Num.ofZ 0) (Num.ofQ (6 # 10)) (overlayOpacity (defaultSettings c))
     = Returns (overlayOpacity s)
  /\ clampNumber h (Js.get partial "blurStrength")
       (Num.ofZ 0) (Num.ofZ 20) (blurStrength (defaultSettings c))
     = Returns (blurStrength s)
  /\ clampNumber h (Js.get partial "glassTintOpacity")
       (Num.ofQ (5 # 100)) (Num.ofQ (95 # 100)) (glassTintOpacity (defaultSettings c))
     = Returns (glassTintOpacity s)
  /\ backgroundType s
     = (if Js.isLit (Js.get partial "backgroundType") "color"
        then bg_color else bg_image)
  /\ backgroundColor s
     = resolveHexColor (Js.get partial "backgroundColor")
         (backgroundColor (defaultSettings c))
  /\ backgroundImage s = sanitizeBackgroundImage (Js.get partial "backgroundImage")
  /\ glassTintColor s
     = resolveHexColor (Js.get partial "glassTintColor")
         (glassTintColor (defaultSettings c))
  /\ hideDefaultApps s
     = Some (Js.truthy
               (Js.orElse (Js.get partial "hideDefaultApps")
                  (Js.orElse (Js.ofOption VBool (hideDefaultApps base))
                     (Js.ofOption VBool (hideDefaultApps (defaultSettings c))))))
  /\ mobileLayout s
     = (if Js.isLit (Js.get partial "mobileLayout") "list" then Some layout_list
        else if Js.isLit (Js.get partial "mobileLayout") "grid" then Some layout_grid
        else match mobileLayout base with
             | Some l => Some l
             | None => mobileLayout (defaultSettings c)
             end)
  /\ hasCompletedSetup s
     = (if Js.hasOwn partial "hasCompletedSetup"
        then Js.get partial "hasCompletedSetup"
        else hasCompletedSetup base).
Proof.
  unfold updateSettingsFromForm. cbv zeta.
  destruct (Js.nullish partial); [discriminate|].
  destruct (clampNumber h (Js.get partial "overlayOpacity") _ _ _) as [x1|];
    [|discriminate].
  destruct (clampNumber h (Js.get partial "blurStrength") _ _ _) as [x2|];
    [|discriminate].
  destruct (clampNumber h (Js.get partial "glassTintOpacity") _ _ _) as [x3|];
    [|discriminate].
  cbn [Try.bind]. intros [= <-]. cbn. repeat split.
Qed.

(** [updateSettingsFromForm] returns exactly on an update that is neither
    [null] nor [undefined] and whose three numeric fields [String] prints. *)
Lemma updateSettingsFromForm_returned h c base partial :
  Try.returned (updateSettingsFromForm h c base partial)
  = negb (Js.nullish partial)
    && printable (Js.get partial "overlayOpacity")
    && printable (Js.get partial "blurStrength")
    && printable (Js.get partial "glassTintOpacity").
Proof.
  unfold updateSettingsFromForm. cbv zeta.
  destruct (Js.nullish partial); [reflexivity|]. simpl negb. rewrite andb_true_l.
  rewrite <- (clampNumber_printable h (Js.get partial "overlayOpacity")
                (Num.ofZ 0) (Num.ofQ (6 # 10)) (overlayOpacity (defaultSettings c))).
  rewrite <- (clampNumber_printable h (Js.get partial "blurStrength")
                (Num.ofZ 0) (Num.ofZ 20) (blurStrength (defaultSettings c))).
  rewrite <- (clampNumber_printable h (Js.get partial "glassTintOpacity")
                (Num.ofQ (5 # 100)) (Num.ofQ (95 # 100))
                (glassTintOpacity (defaultSettings c))).
  destruct (clampNumber h (Js.get partial "overlayOpacity") _ _ _); [|reflexivity].
  destruct (clampNumber h (Js.get partial "blurStrength") _ _ _); [|reflexivity].
  destruct (clampNumber h (Js.get partial "glassTintOpacity") _ _ _); reflexivity.
Qed.

Lemma updateSettingsFromForm_inRange h c base partial s :
  defaultsUsable c ->
  updateSettingsFromForm h c base partial = Returns s ->
  settingsInRange s.
Proof.
  intros (Hov & Hbl & Hgl & Hbg & Htint & Hlay) Hs.
  destruct (updateSettingsFromForm_returns h c base partial s Hs)
    as (_ & H1 & H2 & H3 & _ & Hbc & _ & Hgc & _ & Hml & _).
  unfold settingsInRange. rewrite Hbc, Hgc, Hml.
  split; [|split; [|split; [|split; [|split]]]].
  - eapply clampNumber_within; [| exact Hov | exact H1]. discriminate.
  - eapply (clampNumber_within h _ 0 20); [| exact Hbl | exact H2]. discriminate.
  - eapply clampNumber_within; [| exact Hgl | exact H3]. discriminate.
  - apply resolveHexColor_color; exact Hbg.
  - apply resolveHexColor_color; exact Htint.
  - destruct (Js.isLit (Js.get partial "mobileLayout") "list"); [now right|].
    destruct (Js.isLit (Js.get partial "mobileLayout") "grid"); [now left|].
    destruct (mobileLayout base) as [[|]|]; [now left | now right | exact Hlay].
Qed.



Lemma exampleConstants_usable : defaultsUsable exampleConstants.
Proof.
  unfold defaultsUsable, within, isLayout. simpl.
  repeat split; try (vm_compute; discriminate). now left.
Qed.


(** ** URL sanitizer *)

Lemma isEmpty_true s : Str.isEmpty s = true <-> s = "".
Proof. destruct s; simpl; split; congruence. Qed.

Lemma listed (ch : ascii) (l : list ascii) :
  In ch l <-> existsb (Ascii.eqb ch) l = true.
Proof.
  rewrite existsb_exists. split.
  - intros Hin. exists ch. split; [exact Hin | apply Ascii.eqb_refl].
  - intros (x & Hin & Heq). apply Ascii.eqb_eq in Heq. now subst.
Qed.

Lemma is_alpha_letters ch : is_alpha ch = true <-> In ch letters.
Proof.
  rewrite listed.
  destruct ch as [[|] [|] [|] [|] [|] [|] [|] [|]]; vm_compute; tauto.
Qed.

Lemma is_scheme_char_listed ch :
  is_scheme_char ch = true <-> In ch schemeCharacters.
Proof.
  rewrite listed.
  destruct ch as [[|] [|] [|] [|] [|] [|] [|] [|]]; vm_compute; tauto.
Qed.

Lemma colon_is_no_scheme_character : ~ In ":"%char schemeCharacters.
Proof. rewrite listed. vm_compute. discriminate. Qed.

Lemma schemeTail_spec (r : string) :
  schemeTail r = true
  <-> exists name rest,
        r = name ++ ":" ++ rest
        /\ Forall (fun ch => In ch schemeCharacters) (list_ascii_of_string name).
Proof.
  split.
  - induction r as [|ch r IH]; simpl; [discriminate|].
    destruct (Ascii.eqb ch ":") eqn:Hcolon.
    + intros _. apply Ascii.eqb_eq in Hcolon. subst ch.
      exists "", r. split; [reflexivity | constructor].
    + destruct (is_scheme_char ch) eqn:Hch; [|discriminate].
      intros Htail. destruct (IH Htail) as (name & rest & -> & Hname).
      exists (String ch name), rest. split; [reflexivity|].
      simpl. constructor; [now apply is_scheme_char_listed | exact Hname].
  - intros (name & rest & -> & Hname). induction name as [|ch name IH]; simpl.
    + reflexivity.
    + simpl in Hname. inversion Hname as [|x l Hch Hrest]; subst.
      destruct (Ascii.eqb ch ":"); [reflexivity|].
      apply is_scheme_char_listed in Hch. rewrite Hch. now apply IH.
Qed.

(** The test of the code for a scheme is the scheme of RFC 3986. *)
Lemma hasScheme_spec (t : string) : hasScheme t = true <-> beginsWithScheme t.
Proof.
  unfold beginsWithScheme. split.
  - destruct t as [|ch r]; simpl; [discriminate|].
    intros H. apply andb_true_iff in H. destruct H as [Hch Htail].
    apply schemeTail_spec in Htail. destruct Htail as (name & rest & -> & Hname).
    exists ch, name, rest. split; [reflexivity|].
    split; [now apply is_alpha_letters | exact Hname].
  - intros (ch & name & rest & -> & Hch & Hname). simpl.
    apply andb_true_iff. split; [now apply is_alpha_letters|].
    apply schemeTail_spec. exists name, rest. split; [reflexivity | exact Hname].
Qed.

Lemma no_scheme (t : string) : hasScheme t = false -> ~ beginsWithScheme t.
Proof. intros Hno Hscheme. apply hasScheme_spec in Hscheme. congruence. Qed.

Lemma startsWith_slashes (t : string) :
  Str.startsWith "//" t = true <-> exists rest, t = "//" ++ rest.
Proof.
  unfold Str.startsWith. rewrite String.prefix_correct. split.
  - destruct t as [|a [|b rest]]; simpl; try discriminate.
    intros H. injection H as -> -> _. now exists rest.
  - intros [rest ->]. simpl. now destruct rest.
Qed.

Lemma urlCandidate_scheme (t : string) :
  beginsWithScheme t -> urlCandidate t = t.
Proof.
  intros Hscheme. pose proof Hscheme as (ch & name & rest & -> & Hch & _).
  apply hasScheme_spec in Hscheme. unfold urlCandidate. rewrite Hscheme.
  replace (Str.startsWith "//" _) with false; [reflexivity|].
  symmetry. apply not_true_is_false. intros Hslash.
  apply startsWith_slashes in Hslash. destruct Hslash as [rest' Heq].
  injection Heq as -> _. apply listed in Hch. vm_compute in Hch. discriminate.
Qed.

Lemma urlCandidate_bare (t : string) :
  ~ beginsWithScheme t -> (forall rest, t <> "//" ++ rest) ->
  urlCandidate t = "https://" ++ t.
Proof.
  intros Hscheme Hslash. unfold urlCandidate.
  destruct (Str.startsWith "//" t) eqn:Hs.
  - apply startsWith_slashes in Hs. destruct Hs as [rest ->]. now destruct (Hslash rest).
  - destruct (hasScheme t) eqn:Hh; [|reflexivity].
    apply hasScheme_spec in Hh. contradiction.
Qed.

Lemma urlCandidate_relative (rest : string) :
  urlCandidate ("//" ++ rest) = "https://" ++ rest.
Proof.
  unfold urlCandidate.
  replace (Str.startsWith "//" ("//" ++ rest)) with true; [reflexivity|].
  symmetry. apply startsWith_slashes. now exists rest.
Qed.

Lemma sanitizeHttpUrl_parsed h s :
  Str.trim s <> "" -> Str.startsWithCI "javascript:" (Str.trim s) = false ->
  sanitizeHttpUrl h (VStr s)
  = match URL_new h (urlCandidate (Str.trim s)) with
    | Some u => if isHttp u then href u else ""
    | None => ""
    end.
Proof.
  intros Hne Hjs. unfold sanitizeHttpUrl. rewrite Hjs.
  destruct (Str.trim s); [congruence|]. simpl.
  destruct (URL_new h _) as [u|]; [|reflexivity].
  now destruct (isHttp u).
Qed.

Lemma ci_letter (a c : ascii) :
  Str.is_lower a = true ->
  Ascii.eqb a (if Str.is_upper c then Str.lower c else c) = true ->
  is_alpha c = true.
Proof.
  intros Ha Heq. apply Ascii.eqb_eq in Heq. subst a. revert Ha.
  destruct c as [[|] [|] [|] [|] [|] [|] [|] [|]]; vm_compute; congruence.
Qed.

Lemma ci_colon (c : ascii) :
  Ascii.eqb ":" (if Str.is_upper c then Str.lower c else c) = true -> c = ":"%char.
Proof.
  destruct c as [[|] [|] [|] [|] [|] [|] [|] [|]]; vm_compute; congruence.
Qed.

Lemma ci_scheme (lit t : string) :
  allChars Str.is_lower lit = true ->
  Str.startsWithCI (lit ++ ":") t = true -> schemeTail t = true.
Proof.
  revert t. induction lit as [|a lit IH]; intros t Hlit Hstarts.
  - destruct t as [|c r]; [discriminate|]. simpl in Hstarts.
    apply andb_true_iff in Hstarts. destruct Hstarts as [Hc _].
    apply ci_colon in Hc. subst c. reflexivity.
  - destruct t as [|c r]; [discriminate|]. simpl in Hlit, Hstarts.
    apply andb_true_iff in Hlit. destruct Hlit as [Ha Hlit].
    apply andb_true_iff in Hstarts. destruct Hstarts as [Hc Hrest].
    simpl. destruct (Ascii.eqb c ":"); [reflexivity|].
    unfold is_scheme_char. rewrite (ci_letter a c Ha Hc). simpl. now apply IH.
Qed.

(** A text that starts with [javascript:] begins with a scheme. *)
Lemma script_has_scheme (t : string) :
  Str.startsWithCI "javascript:" t = true -> hasScheme t = true.
Proof.
  destruct t as [|c r]; [discriminate|]. intros Hstarts.
  change "javascript:" with (String "j" ("avascript" ++ ":")) in Hstarts.
  simpl in Hstarts. apply andb_true_iff in Hstarts. destruct Hstarts as [Hc Hrest].
  simpl. rewrite (ci_letter "j" c eq_refl Hc). simpl.
  apply (ci_scheme "avascript"); [reflexivity | exact Hrest].
Qed.

Lemma relative_is_no_script (rest : string) :
  Str.startsWithCI "javascript:" ("//" ++ rest) = false.
Proof. reflexivity. Qed.

(** C5. [sanitizeHttpUrl] answers [""] to a value that is not a string. A
    string is trimmed; the answer is [""] when the trimmed text is empty or
    starts with [javascript:] in any case. Otherwise the text is given to
    [new URL]: as it is when it begins with a scheme (a letter, then
    letters, digits, [+], [-] and [.], then a colon); after [https://] when
    it begins with no scheme and not with [//]; after [https:] when it
    begins with [//]. The answer is [""] when [new URL] throws or the
    protocol is neither [http:] nor [https:], else the text of the URL as
    the platform prints it. So every answer but [""] is such a text of an
    http or https URL. On the three examples: [javascript:alert(1)] gives
    [""]; [example.com] gives [https://example.com/] on a platform that
    prints [https://example.com] so; [//example.com/x] gives a text that
    starts with [https://] on a platform that reads [https://example.com/x]
    as an https URL printed with that start. Further, [http://example.com/]
    between spaces is read as it is, with no [https://] before it, and an
    [ftp:] URL and a text that [new URL] refuses give [""]. *)
Theorem sanitizeHttpUrl_contract (h : Host) :
  (forall v, Js.isString v = false -> sanitizeHttpUrl h v = "")
  /\ (forall s,
        Str.trim s = "" \/ Str.startsWithCI "javascript:" (Str.trim s) = true ->
        sanitizeHttpUrl h (VStr s) = "")
  /\ (forall s,
        beginsWithScheme (Str.trim s) ->
        Str.startsWithCI "javascript:" (Str.trim s) = false ->
        sanitizeHttpUrl h (VStr s)
        = match URL_new h (Str.trim s) with
          | Some u => if isHttp u then href u else ""
          | None => ""
          end)
  /\ (forall s,
        Str.trim s <> "" ->
        ~ beginsWithScheme (Str.trim s) ->
        (forall rest, Str.trim s <> "//" ++ rest) ->
        sanitizeHttpUrl h (VStr s)
        = match URL_new h ("https://" ++ Str.trim s) with
          | Some u => if isHttp u then href u else ""
          | None => ""
          end)
  /\ (forall s rest,
        Str.trim s = "//" ++ rest ->
        sanitizeHttpUrl h (VStr s)
        = match URL_new h ("https:" ++ Str.trim s) with
          | Some u => if isHttp u then href u else ""
          | None => ""
          end)
  /\ (forall v,
        sanitizeHttpUrl h v <> "" ->
        exists s u,
          v = VStr s
          /\ (URL_new h (Str.trim s) = Some u
              \/ URL_new h ("https://" ++ Str.trim s) = Some u
              \/ URL_new h ("https:" ++ Str.trim s) = Some u)
          /\ (protocol u = "http:" \/ protocol u = "https:")
          /\ sanitizeHttpUrl h v = href u)
  /\ sanitizeHttpUrl h (VStr "javascript:alert(1)") = ""
  /\ sanitizeHttpUrl h (VStr "  JavaScript:alert(1)") = ""
  /\ (forall u,
        URL_new h "https://example.com" = Some u ->
        protocol u = "https:" -> href u = "https://example.com/" ->
        sanitizeHttpUrl h (VStr "example.com") = "https://example.com/")
  /\ (forall u,
        URL_new h "https://example.com/x" = Some u ->
        protocol u = "https:" -> Str.startsWith "https://" (href u) = true ->
        Str.startsWith "https://" (sanitizeHttpUrl h (VStr "//example.com/x")) = true)
  /\ (forall u,
        URL_new h "http://example.com/" = Some u ->
        protocol u = "http:" -> href u = "http://example.com/" ->
        sanitizeHttpUrl h (VStr " http://example.com/ ") = "http://example.com/")
  /\ (forall u,
        URL_new h "ftp://example.com/file" = Some u -> protocol u = "ftp:" ->
        sanitizeHttpUrl h (VStr "ftp://example.com/file") = "")
  /\ (URL_new h "https://not a host" = None ->
      sanitizeHttpUrl h (VStr "not a host") = "").
Proof.
  assert (Hcases : forall s,
             Str.trim s <> "" ->
             Str.startsWithCI "javascript:" (Str.trim s) = false ->
             beginsWithScheme (Str.trim s) /\ urlCandidate (Str.trim s) = Str.trim s
             \/ urlCandidate (Str.trim s) = "https://" ++ Str.trim s
             \/ urlCandidate (Str.trim s) = "https:" ++ Str.trim s).
  { intros s _ _. unfold urlCandidate.
    destruct (Str.startsWith "//" (Str.trim s)); [now right; right|].
    destruct (hasScheme (Str.trim s)) eqn:Hh; [|now right; left].
    left. split; [now apply hasScheme_spec | reflexivity]. }
  split; [|split; [|split; [|split; [|split; [|split; [|split; [|split;
    [|split; [|split; [|split; [|split]]]]]]]]]]].
  - intros v Hv. destruct v; try reflexivity. discriminate.
  - intros s Hs. unfold sanitizeHttpUrl.
    destruct Hs as [-> | ->]; [reflexivity|]. now rewrite orb_true_r.
  - intros s Hscheme Hjs. rewrite sanitizeHttpUrl_parsed; [|idtac|exact Hjs].
    + now rewrite urlCandidate_scheme.
    + destruct Hscheme as (ch & name & rest & -> & _). discriminate.
  - intros s Hne Hscheme Hslash.
    rewrite sanitizeHttpUrl_parsed; [|exact Hne|].
    + now rewrite urlCandidate_bare.
    + destruct (Str.startsWithCI "javascript:" (Str.trim s)) eqn:Hjs; [|reflexivity].
      exfalso. apply Hscheme. apply hasScheme_spec.
      now apply script_has_scheme.
  - intros s rest Hs. rewrite sanitizeHttpUrl_parsed.
    + rewrite Hs, urlCandidate_relative. reflexivity.
    + rewrite Hs. discriminate.
    + rewrite Hs. apply relative_is_no_script.
  - intros v Hv.
    destruct v as [| | | |s| |]; try (now destruct Hv).
    assert (Hne : Str.trim s <> "").
    { intros He. apply Hv. unfold sanitizeHttpUrl. now rewrite He. }
    assert (Hjs : Str.startsWithCI "javascript:" (Str.trim s) = false).
    { destruct (Str.startsWithCI "javascript:" (Str.trim s)) eqn:Hjs; [|reflexivity].
      exfalso. apply Hv. unfold sanitizeHttpUrl. now rewrite Hjs, orb_true_r. }
    rewrite (sanitizeHttpUrl_parsed h s Hne Hjs) in Hv |- *.
    destruct (URL_new h (urlCandidate (Str.trim s))) as [u|] eqn:Hu; [|congruence].
    destruct (isHttp u) eqn:Hhttp; [|congruence].
    exists s, u. split; [reflexivity|]. split; [|split; [|reflexivity]].
    + destruct (Hcases s Hne Hjs) as [[_ Hc] | [Hc | Hc]]; rewrite Hc in Hu; auto.
    + unfold isHttp in Hhttp. apply orb_true_iff in Hhttp.
      destruct Hhttp as [Hp | Hp]; apply String.eqb_eq in Hp; auto.
  - reflexivity.
  - reflexivity.
  - intros u Hu Hp Hhref. unfold sanitizeHttpUrl.
    change (Str.trim "example.com") with "example.com".
    change (urlCandidate "example.com") with "https://example.com".
    simpl. rewrite Hu. unfold isHttp. rewrite Hp. simpl. exact Hhref.
  - intros u Hu Hp Hhref. unfold sanitizeHttpUrl.
    change (Str.trim "//example.com/x") with "//example.com/x".
    change (urlCandidate "//example.com/x") with "https://example.com/x".
    simpl. rewrite Hu. unfold isHttp. rewrite Hp. simpl. exact Hhref.
  - intros u Hu Hp Hhref. unfold sanitizeHttpUrl.
    change (Str.trim " http://example.com/ ") with "http://example.com/".
    change (urlCandidate "http://example.com/") with "http://example.com/".
    simpl. rewrite Hu. unfold isHttp. rewrite Hp. simpl. exact Hhref.
  - intros u Hu Hp. unfold sanitizeHttpUrl.
    change (Str.trim "ftp://example.com/file") with "ftp://example.com/file".
    change (urlCandidate "ftp://example.com/file") with "ftp://example.com/file".
    simpl. rewrite Hu. unfold isHttp. rewrite Hp. reflexivity.
  - intros Hu. unfold sanitizeHttpUrl.
    change (Str.trim "not a host") with "not a host".
    change (urlCandidate "not a host") with "https://not a host".
    simpl. now rewrite Hu.
Qed.

Lemma sanitizeHttpUrl_contract_witness :
  sanitizeHttpUrl exampleHost (VStr "  example.com ") = "https://example.com/"
  /\ sanitizeHttpUrl exampleHost (VStr "example.com") = "https://example.com/"
  /\ Str.startsWith "https://"
       (sanitizeHttpUrl exampleHost (VStr "//example.com/x")) = true
  /\ sanitizeHttpUrl exampleHost (VStr " https://example.com/x ")
     = "https://example.com/x"
  /\ sanitizeHttpUrl exampleHost (VStr "mailto:someone@example.com") = "".
Proof.
  pose proof (sanitizeHttpUrl_contract exampleHost)
    as (_ & _ & Hscheme & Hbare & _ & _ & _ & _ & Hplain & Hrel & _).
  split; [|split; [|split; [|split]]].
  - rewrite Hbare; [reflexivity | discriminate | now apply no_scheme | discriminate].
  - apply (Hplain (mkURL "https:" "https://example.com/")); reflexivity.
  - apply (Hrel (mkURL "https:" "https://example.com/x")); reflexivity.
  - rewrite Hscheme; [reflexivity | | reflexivity].
    exists "h"%char, "ttps", "//example.com/x".
    split; [reflexivity|].
    split; [apply listed; reflexivity|]. cbn [list_ascii_of_string].
    repeat (apply Forall_cons; [apply listed; reflexivity|]). apply Forall_nil.
  - rewrite Hscheme; [reflexivity | | reflexivity].
    exists "m"%char, "ailto", "someone@example.com".
    split; [reflexivity|].
    split; [apply listed; reflexivity|]. cbn [list_ascii_of_string].
    repeat (apply Forall_cons; [apply listed; reflexivity|]). apply Forall_nil.
Defined.

(** ** Values that the sanitizers leave as they are *)

Ltac each_char ch :=
  destruct ch as [[|] [|] [|] [|] [|] [|] [|] [|]].

Lemma hexDigit_digit ch :
  isHexDigit ch = true ->
  exists v, hexDigit ch = Some v
            /\ (0 <= v < 16)%Z
            /\ ch = Str.digit (Z.to_N v)
            /\ Str.is_ws ch = false
            /\ Ascii.eqb ch "x" || Ascii.eqb ch "X" = false.
Proof.
  each_char ch; vm_compute; intros H; try discriminate H;
    eexists; (split; [reflexivity|]); repeat split; discriminate.
Qed.

Lemma dropEnd_noop p s :
  allChars (fun ch => negb (p ch)) s = true -> Str.dropEnd p s = s.
Proof.
  induction s as [|ch rest IH]; simpl; [reflexivity|].
  intros Hall. apply andb_true_iff in Hall. destruct Hall as [Hch Hrest].
  rewrite (IH Hrest). apply negb_true_iff in Hch. rewrite Hch.
  now destruct rest.
Qed.

Lemma allChars_impl (p q : ascii -> bool) s :
  (forall ch, p ch = true -> q ch = true) ->
  allChars p s = true -> allChars q s = true.
Proof.
  intros Hpq. induction s as [|ch rest IH]; simpl; [reflexivity|].
  intros Hall. apply andb_true_iff in Hall. destruct Hall as [Hch Hrest].
  now rewrite (Hpq _ Hch), IH.
Qed.

Lemma isHexDigit_not_ws ch : isHexDigit ch = true -> negb (Str.is_ws ch) = true.
Proof.
  intros Hd. destruct (hexDigit_digit ch Hd) as (v & _ & _ & _ & Hws & _).
  now rewrite Hws.
Qed.

Lemma isHexColor_trimmed s : isHexColor s = true -> Str.trim s = s.
Proof.
  destruct s as [|ch rest]; [discriminate|]. simpl.
  each_char ch; try discriminate.
  intros Hc. apply andb_true_iff in Hc. destruct Hc as [_ Hall].
  unfold Str.trim. cbn [Str.dropStart]. change (Str.is_ws "#") with false. cbv iota.
  apply dropEnd_noop. simpl. eapply allChars_impl; [|exact Hall].
  apply isHexDigit_not_ws.
Qed.

Lemma toHex_digits v1 v2 :
  (0 <= v1 < 16)%Z -> (0 <= v2 < 16)%Z ->
  toHex (16 * v1 + v2)
  = String (Str.digit (Z.to_N v1)) (String (Str.digit (Z.to_N v2)) EmptyString).
Proof.
  intros H1 H2.
  assert (Hall :
    forallb (fun a => forallb (fun b =>
      String.eqb (toHex (16 * Z.of_nat a + Z.of_nat b))
        (String (Str.digit (Z.to_N (Z.of_nat a)))
           (String (Str.digit (Z.to_N (Z.of_nat b))) EmptyString)))
      (seq 0 16)) (seq 0 16) = true) by (vm_compute; reflexivity).
  rewrite forallb_forall in Hall.
  specialize (Hall (Z.to_nat v1)). rewrite forallb_forall in Hall.
  rewrite <- (Z2Nat.id v1), <- (Z2Nat.id v2) by lia.
  apply String.eqb_eq. apply Hall; apply in_seq; lia.
Qed.

Lemma parseInt16_hex d1 d2 rest :
  isHexDigit d1 = true -> isHexDigit d2 = true ->
  parseInt16 (String d1 (String d2 rest)) = hexRun (String d1 (String d2 rest)) None.
Proof.
  intros H1 H2.
  destruct (hexDigit_digit d2 H2) as (v2 & _ & _ & _ & _ & Hx).
  revert H1. each_char d1; vm_compute isHexDigit; intros H1; try discriminate H1;
    unfold parseInt16; cbn [Str.dropStart];
    match goal with |- context [Str.is_ws ?ch] => change (Str.is_ws ch) with false end;
    cbv iota; cbv beta iota; rewrite ?Hx;
    match goal with |- match ?t with _ => _ end = ?t => now destruct t end.
Qed.

Lemma bytes_of_word hi mid lo :
  (0 <= hi <= 255)%Z -> (0 <= mid <= 255)%Z -> (0 <= lo <= 255)%Z ->
  let v := (hi * 65536 + mid * 256 + lo)%Z in
  band (sar v 16) 255 = hi /\ band (sar v 8) 255 = mid /\ band v 255 = lo.
Proof.
  intros Hhi Hmid Hlo v.
  assert (Hv : (0 <= v < 2 ^ 24)%Z) by (unfold v; lia).
  unfold band, sar. rewrite (toInt32_small 255) by lia.
  rewrite (toInt32_small v) by lia.
  rewrite !Z.shiftr_div_pow2 by lia.
  assert (H16 : (v / 2 ^ 16 = hi)%Z).
  { symmetry. apply (Z.div_unique _ _ _ (mid * 256 + lo)); unfold v; lia. }
  assert (H8 : (v / 2 ^ 8 = hi * 256 + mid)%Z).
  { symmetry. apply (Z.div_unique _ _ _ lo); unfold v; lia. }
  rewrite H16, H8.
  rewrite !(toInt32_small hi), !(toInt32_small (hi * 256 + mid)) by lia.
  change 255%Z with (Z.ones 8). rewrite !Z.land_ones by lia.
  assert (Hm8 : ((hi * 256 + mid) mod 2 ^ 8 = mid)%Z).
  { symmetry. apply (Z.mod_unique _ _ hi); lia. }
  assert (Hm0 : (v mod 2 ^ 8 = lo)%Z).
  { symmetry. apply (Z.mod_unique _ _ (hi * 256 + mid)); unfold v; lia. }
  rewrite Hm8, Hm0, (Z.mod_small hi) by lia.
  rewrite !toInt32_small by lia. auto.
Qed.

Lemma resolveHexColor_fixed s fallback :
  isHexColor s = true -> resolveHexColor (VStr s) fallback = s.
Proof.
  intros Hs. unfold resolveHexColor, hexToRgb.
  rewrite (isHexColor_trimmed s Hs).
  destruct s as [|ch rest]; [discriminate|].
  revert Hs. simpl isHexColor. each_char ch; try discriminate. intros Hs.
  apply andb_true_iff in Hs. destruct Hs as [Hlen Hall].
  destruct rest as [|d1 [|d2 [|d3 [|d4 [|d5 [|d6 [|]]]]]]]; try discriminate Hlen.
  simpl in Hall.
  repeat match type of Hall with
         | (_ && _) = true => apply andb_true_iff in Hall;
                              let Hd := fresh "Hd" in destruct Hall as [Hd Hall]
         end.
  cbn [Str.isEmpty String.length Nat.eqb negb].
  rewrite parseInt16_hex by assumption.
  destruct (hexDigit_digit d1 Hd) as (v1 & E1 & B1 & -> & _).
  destruct (hexDigit_digit d2 Hd0) as (v2 & E2 & B2 & -> & _).
  destruct (hexDigit_digit d3 Hd1) as (v3 & E3 & B3 & -> & _).
  destruct (hexDigit_digit d4 Hd2) as (v4 & E4 & B4 & -> & _).
  destruct (hexDigit_digit d5 Hd3) as (v5 & E5 & B5 & -> & _).
  destruct (hexDigit_digit d6 Hd4) as (v6 & E6 & B6 & -> & _).
  cbn [hexRun]. rewrite E1, E2, E3, E4, E5, E6.
  destruct (bytes_of_word (16 * v1 + v2) (16 * v3 + v4) (16 * v5 + v6))
    as (Hr & Hg & Hb); try lia.
  match goal with |- context [sar ?v 16] =>
    replace v with ((16 * v1 + v2) * 65536 + (16 * v3 + v4) * 256 + (16 * v5 + v6))%Z
      by lia
  end.
  rewrite Hr, Hg, Hb. unfold rgbToHex. cbn [r g b].
  rewrite !toHex_digits by lia. reflexivity.
Qed.

Lemma clampNumber_fixed h n (lo hi : Q) fallback :
  within lo hi n ->
  clampNumber h (VNum n) (Num.ofQ lo) (Num.ofQ hi) fallback = Returns n.
Proof.
  destruct n as [| |x]; simpl; try contradiction.
  intros [Hlo Hhi]. unfold clampNumber. simpl. f_equal. now apply clamp_fixed.
Qed.

Lemma isEmpty_false s : Str.isEmpty s = false <-> s <> "".
Proof. destruct s; simpl; split; congruence. Qed.

Lemma sanitizeBackgroundImage_fixed s :
  cleanImage s -> sanitizeBackgroundImage (VStr s) = s.
Proof.
  intros [Htrim Hjs]. unfold sanitizeBackgroundImage. rewrite Htrim, Hjs.
  now destruct s.
Qed.

Lemma importSettings_fixed h c st s :
  validSettings s -> importSettings h c st (settingsToValue s) = Returns s.
Proof.
  destruct s as [bt bc bi oo bs gc go hd ml hcs].
  unfold validSettings, settingsInRange. simpl.
  intros ((Hoo & Hbs & Hgo & Hbc & Hgc & Hml) & Hbi & [flag ->] & [done ->]).
  assert (Hlayout : exists l, ml = Some l) by (destruct Hml as [-> | ->]; eauto).
  destruct Hlayout as [l ->].
  pose proof (clampNumber_fixed h oo 0 (6 # 10) (overlayOpacity (defaultSettings c)) Hoo)
    as H1.
  pose proof (clampNumber_fixed h bs 0 20 (blurStrength (defaultSettings c)) Hbs)
    as H2.
  pose proof (clampNumber_fixed h go (5 # 100) (95 # 100)
                (glassTintOpacity (defaultSettings c)) Hgo) as H3.
  unfold importSettings, updateSettingsFromForm. cbv zeta.
  set (d := settingsToValue (defaultSettings c)).
  destruct bt, l;
    (replace (Js.nullish (Js.spread d _)) with false by reflexivity; cbv iota;
     replace (Js.get _ "overlayOpacity") with (VNum oo) by reflexivity;
     replace (Js.get _ "blurStrength") with (VNum bs) by reflexivity;
     replace (Js.get _ "glassTintOpacity") with (VNum go) by reflexivity;
     change (Num.ofZ 0) with (Num.ofQ 0); change (Num.ofZ 20) with (Num.ofQ 20);
     rewrite H1, H2, H3; cbn [Try.bind]; unfold withCompletedSetup;
     cbn [backgroundType backgroundColor backgroundImage overlayOpacity blurStrength
          glassTintColor glassTintOpacity hideDefaultApps mobileLayout
          hasCompletedSetup];
     replace (Js.get _ "backgroundColor") with (VStr bc) by reflexivity;
     replace (Js.get _ "backgroundImage") with (VStr bi) by reflexivity;
     replace (Js.get _ "glassTintColor") with (VStr gc) by reflexivity;
     rewrite (resolveHexColor_fixed bc _ Hbc), (resolveHexColor_fixed gc _ Hgc),
       (sanitizeBackgroundImage_fixed bi Hbi);
     reflexivity).
Qed.

Lemma prefix_cons a p s :
  String.prefix (String a p) s = true ->
  exists rest, s = String a rest /\ String.prefix p rest = true.
Proof.
  destruct s as [|ch rest]; simpl; [discriminate|].
  destruct (ascii_dec a ch) as [<- | _]; [|discriminate].
  intros Hp. now exists rest.
Qed.

Lemma sanitizeHttpUrl_fixed h s :
  urlPrintsCanonically h -> canonicalUrl h s ->
  sanitizeHttpUrl h (VStr s) = s /\ s <> "".
Proof.
  intros Hlaw (t & u & Hparse & Hhttp & <-).
  destruct (Hlaw t u Hparse Hhttp) as (Hagain & Hstart & Hend).
  assert (Hshape : exists rest,
             href u = String "h" (String "t" (String "t" (String "p" rest)))
             /\ (exists tail, rest = String ":" tail
                              \/ rest = String "s" (String ":" tail))).
  { unfold isHttp in Hhttp. apply orb_true_iff in Hhttp.
    destruct Hhttp as [Hp | Hp]; apply String.eqb_eq in Hp; rewrite Hp in Hstart;
      unfold Str.startsWith in Hstart;
      repeat (apply prefix_cons in Hstart; destruct Hstart as (? & -> & Hstart));
      eexists; (split; [reflexivity|]); eexists; eauto. }
  destruct Hshape as (rest & Hhref & tail & Htail).
  assert (Htrim : Str.trim (href u) = href u).
  { unfold Str.trim. rewrite Hhref at 1. cbn [Str.dropStart].
    change (Str.is_ws "h") with false. cbv iota. now rewrite <- Hhref. }
  split.
  - unfold sanitizeHttpUrl. rewrite Htrim.
    assert (Hcand : urlCandidate (href u) = href u).
    { rewrite Hhref. destruct Htail as [-> | ->]; reflexivity. }
    rewrite Hcand, Hagain, Hhttp. rewrite Hhref at 1 2. reflexivity.
  - rewrite Hhref. discriminate.
Qed.

Lemma iconAccepted_not_script s :
  iconAccepted s = true ->
  Str.isEmpty s || Str.startsWithCI "javascript:" s = false.
Proof.
  destruct s as [|ch rest]; [discriminate|].
  unfold iconAccepted, Str.startsWith.
  each_char ch; cbn; intros H; try reflexivity; discriminate H.
Qed.

Lemma sanitizeIconSource_fixed c s :
  trimmed (DEFAULT_ICON c) -> validIcon c s -> sanitizeIconSource c (VStr s) = s.
Proof.
  intros Hdefault [-> | [Htrim Hacc]]; unfold sanitizeIconSource.
  - rewrite Hdefault.
    destruct (Str.isEmpty (DEFAULT_ICON c)
              || Str.startsWithCI "javascript:" (DEFAULT_ICON c)); [reflexivity|].
    now destruct (iconAccepted (DEFAULT_ICON c)).
  - rewrite Htrim, (iconAccepted_not_script s Hacc). now rewrite Hacc.
Qed.

(** Tags that are strings: [String] prints each one as it is. *)
Lemma sanitizeTagList_strings h l :
  sanitizeTagList h (VArr (List.map VStr l))
  = Returns (filter nonEmpty (List.map Str.trim l)).
Proof.
  unfold sanitizeTagList.
  assert (Heach : Try.each (fun tag => text <- toStr h (Js.orElse tag (VStr "")) ;;
                                       Returns (Str.trim text)) (List.map VStr l)
                  = Returns (List.map Str.trim l)).
  { induction l as [|t rest IH]; [reflexivity|].
    cbn [List.map Try.each]. rewrite IH. reflexivity. }
  rewrite Heach. reflexivity.
Qed.

Lemma sanitizeTagList_fixed h l :
  Forall cleanText l -> sanitizeTagList h (VArr (List.map VStr l)) = Returns l.
Proof.
  intros Hclean. rewrite sanitizeTagList_strings. f_equal.
  induction Hclean as [|t rest [Htrim Hne] _ IH]; simpl; [reflexivity|].
  rewrite Htrim. apply nonEmpty_true in Hne. rewrite Hne. now rewrite IH.
Qed.

Lemma sanitizeAppRecord_fixed h c a :
  urlPrintsCanonically h -> trimmed (DEFAULT_ICON c) ->
  validCustomApp h c a ->
  sanitizeAppRecord h c (appToValue a) custom = Returns (Some a).
Proof.
  intros Hlaw Hdefault.
  destruct a as [i n d u ic tg o ty]. unfold validCustomApp. simpl.
  intros (Hid & [Hname Hne] & Hdesc & Hurl & Hicon & Htags & -> & ->).
  destruct (sanitizeHttpUrl_fixed h u Hlaw Hurl) as [Hu Hune].
  unfold sanitizeAppRecord.
  replace (Js.isObject _) with true by reflexivity.
  replace (Js.get _ "name") with (VStr n) by reflexivity.
  replace (Js.get _ "description") with (VStr d) by reflexivity.
  replace (Js.get _ "url") with (VStr u) by reflexivity.
  replace (Js.get _ "icon") with (VStr ic) by reflexivity.
  replace (Js.get _ "tags") with (VArr (List.map VStr tg)) by reflexivity.
  replace (Js.get _ "id") with (VStr i) by reflexivity.
  unfold trimmedString. rewrite Hid, Hname, Hdesc, Hu.
  rewrite (sanitizeIconSource_fixed c ic Hdefault Hicon).
  rewrite (sanitizeTagList_fixed h tg Htags).
  apply isEmpty_false in Hne, Hune. rewrite Hne, Hune. reflexivity.
Qed.

Lemma sanitize_all_fixed h c l :
  urlPrintsCanonically h -> trimmed (DEFAULT_ICON c) ->
  Forall (validCustomApp h c) l ->
  Try.each (fun e => sanitizeAppRecord h c e custom) (List.map appToValue l)
  = Returns (List.map Some l).
Proof.
  intros Hlaw Hdefault. induction 1 as [|a rest Ha _ IH]; [reflexivity|].
  cbn [List.map Try.each].
  now rewrite (sanitizeAppRecord_fixed h c a Hlaw Hdefault Ha), IH.
Qed.

Lemma keepSome_all {A} (l : list A) : keepSome (List.map Some l) = l.
Proof. induction l as [|a rest IH]; simpl; [reflexivity | now rewrite IH]. Qed.

Lemma ofList_from acc l :
  NoDup (acc ++ l) -> fold_left (fun s x => StrSet.add x s) l acc = (acc ++ l)%list.
Proof.
  revert acc. induction l as [|x rest IH]; intros acc Hnd; simpl.
  - now rewrite app_nil_r.
  - assert (Hx : ~ In x acc).
    { apply NoDup_remove_2 in Hnd. intros Hin. apply Hnd.
      apply in_or_app. now left. }
    unfold StrSet.add at 2. apply mem_false_not_In in Hx. rewrite Hx.
    rewrite IH; rewrite <- app_assoc; [reflexivity | exact Hnd].
Qed.

Lemma ofList_NoDup l : NoDup l -> StrSet.ofList l = l.
Proof. intros Hnd. unfold StrSet.ofList. now rewrite ofList_from. Qed.

Lemma hidden_ids_fixed l :
  NoDup l -> Forall cleanText l ->
  StrSet.ofList (filter nonEmpty (List.map trimmedString (List.map VStr l))) = l.
Proof.
  intros Hnd Hclean.
  assert (Hsame : filter nonEmpty (List.map trimmedString (List.map VStr l)) = l).
  { clear Hnd. induction Hclean as [|t rest [Htrim Hne] _ IH]; simpl; [reflexivity|].
    rewrite Htrim. apply nonEmpty_true in Hne. rewrite Hne. now rewrite IH. }
  rewrite Hsame. now apply ofList_NoDup.
Qed.

Lemma importUserData_fixed h c u :
  urlPrintsCanonically h -> pageConstantsOk c -> trimmed (DEFAULT_ICON c) ->
  validUserData h c u ->
  importUserData h c (userDataToValue u) = Returns u.
Proof.
  intros Hlaw Hok Hdefault.
  destruct u as [hidden apps size]. unfold validUserData. simpl.
  intros (Hnd & Hclean & Happs & p & -> & Hp & Hdiv).
  unfold importUserData, mergeUserData.
  replace (Js.get _ "customApps") with (VArr (List.map appToValue apps)) by reflexivity.
  replace (Js.get _ "hiddenAppIds") with (VArr (List.map VStr hidden)) by reflexivity.
  replace (Js.get _ "pageSize") with (VNum (Num.ofZ p)) by reflexivity.
  rewrite (sanitize_all_fixed h c apps Hlaw Hdefault Happs).
  cbn [Try.bind p_hiddenAppIds p_customApps p_pageSize].
  rewrite (hidden_ids_fixed hidden Hnd Hclean), keepSome_all.
  replace (Js.orElse (VNum (Num.ofZ p)) _) with (VNum (Num.ofZ p)) by reflexivity.
  now rewrite (normalizePageSize_fixed h c Hok p Hp Hdiv).
Qed.

(** *** The snapshot survives [JSON.stringify] and [JSON.parse] *)

Lemma json_strings l :
  List.map Js.jsonRoundTrip (List.map VStr l) = List.map VStr l.
Proof. rewrite map_map. reflexivity. Qed.

Lemma json_app a : Js.jsonRoundTrip (appToValue a) = appToValue a.
Proof.
  destruct a as [i n d u ic tg [o|] [ty|]]; try destruct o; try destruct ty;
    unfold appToValue; cbn; now rewrite json_strings.
Qed.

Lemma json_apps l :
  List.map Js.jsonRoundTrip (List.map appToValue l) = List.map appToValue l.
Proof.
  rewrite map_map. apply map_ext. intros a. apply json_app.
Qed.

Lemma json_settings s :
  validSettings s -> Js.jsonRoundTrip (settingsToValue s) = settingsToValue s.
Proof.
  destruct s as [bt bc bi oo bs gc go hd ml hcs].
  unfold validSettings, settingsInRange. simpl.
  intros ((Hoo & Hbs & Hgo & _ & _ & Hml) & _ & [flag ->] & [done ->]).
  destruct oo, bs, go; try contradiction.
  destruct bt, Hml as [-> | ->]; reflexivity.
Qed.

Lemma json_userData c u :
  validPageSize c (pageSize u) ->
  Js.jsonRoundTrip (userDataToValue u) = userDataToValue u.
Proof.
  destruct u as [hidden apps size]. simpl. intros (p & -> & _).
  unfold userDataToValue. cbn. now rewrite json_strings, json_apps.
Qed.

(** ** Backup round trip *)

(** C8. On a platform whose [new URL] prints canonically, with page-size
    constants in order and a trimmed default icon: for every valid state
    (every field present and within the invariants of the data model),
    importing the snapshot that [exportBackup] builds from the state, read
    back from its JSON text, succeeds and leaves the state, settings and user
    data, as it was. *)
Theorem export_import_round_trip (h : Host) (c : Constants)
        (generatedAt : string) (st : State) :
  urlPrintsCanonically h ->
  pageConstantsOk c ->
  trimmed (DEFAULT_ICON c) ->
  validState h c st ->
  let snapshot := Js.jsonRoundTrip (exportPayload c generatedAt st) in
  succeeded (fst (importBackup h c snapshot st)) = true
  /\ settings (snd (importBackup h c snapshot st)) = settings st
  /\ userData (snd (importBackup h c snapshot st)) = userData st
  /\ snd (importBackup h c snapshot st) = st.
Proof.
  intros Hlaw Hok Hdefault [Hs Hu] snapshot.
  destruct Hu as (Hnd & Hclean & Happs & Hsize).
  assert (Hsettings : Js.get snapshot "settings" = settingsToValue (settings st)).
  { transitivity (Js.jsonRoundTrip (settingsToValue (settings st)));
      [reflexivity | now apply json_settings]. }
  assert (Hdata : Js.get snapshot "userData" = userDataToValue (userData st)).
  { transitivity (Js.jsonRoundTrip (userDataToValue (userData st)));
      [reflexivity | now apply (json_userData c)]. }
  assert (Hresult : importBackup h c snapshot st
                    = (Returns
                         (mkResult true "Imported settings and app data successfully."),
                       st)).
  { unfold importBackup.
    replace (Js.isObject snapshot) with true by reflexivity.
    rewrite Hsettings, Hdata.
    replace (Js.truthy (settingsToValue (settings st))) with true by reflexivity.
    replace (Js.isObject (settingsToValue (settings st))) with true by reflexivity.
    replace (Js.isObject (userDataToValue (userData st))) with true by reflexivity.
    cbn [negb andb].
    rewrite (importSettings_fixed h c st (settings st) Hs).
    rewrite (importUserData_fixed h c (userData st) Hlaw Hok Hdefault)
      by (repeat split; assumption).
    cbn [Try.bind]. now destruct st. }
  rewrite Hresult. simpl. auto.
Qed.

Lemma dropEnd_snoc p s ch :
  p ch = false ->
  Str.dropEnd p (s ++ String ch EmptyString) = s ++ String ch EmptyString.
Proof.
  intros Hp. induction s as [|a rest IH]; simpl.
  - now rewrite Hp.
  - rewrite IH. now destruct rest.
Qed.

Lemma hasSlash_snoc s : hasSlash (s ++ "/") = true.
Proof.
  induction s as [|a rest IH]; simpl; [reflexivity|].
  rewrite IH. apply orb_true_r.
Qed.

Lemma exampleHost_prints_canonically : urlPrintsCanonically exampleHost.
Proof.
  intros t u Hparse _. simpl in Hparse. unfold exampleURL in Hparse.
  destruct (Str.startsWith "https://" t) eqn:Hstart; [|discriminate].
  destruct (hasNoSpace t) eqn:Hspace; [|discriminate].
  unfold Str.startsWith in Hstart.
  repeat (apply prefix_cons in Hstart; destruct Hstart as (? & -> & Hstart)).
  cbn [andb skip] in Hparse.
  match type of Hparse with match ?tail with _ => _ end = _ =>
    destruct tail as [|ch rest] eqn:Htail; [discriminate|] end.
  unfold hasNoSpace in Hspace. apply String.eqb_eq in Hspace.
  set (whole := String "h" (String "t" (String "t" (String "p" (String "s"
                  (String ":" (String "/" (String "/" (String ch rest))))))))) in *.
  assert (Hpre : forall x, Str.startsWith "https://" (whole ++ x) = true)
    by reflexivity.
  assert (Hskip : forall x, skip 8 (whole ++ x) = String ch (rest ++ x))
    by reflexivity.
  assert (Hpre0 : Str.startsWith "https://" whole = true) by reflexivity.
  assert (Hskip0 : skip 8 whole = String ch rest) by reflexivity.
  assert (Hprot : forall x, Str.startsWith "https:" (whole ++ x) = true)
    by reflexivity.
  assert (Hprot0 : Str.startsWith "https:" whole = true) by reflexivity.
  clearbody whole.
  destruct (hasSlash (String ch rest)) eqn:Hslash; injection Hparse as <-;
    cbn [href protocol URL_new exampleHost]; unfold exampleURL, hasNoSpace.
  - split; [|split; [exact Hprot0 | exact Hspace]].
    rewrite Hspace, String.eqb_refl, Hpre0, Hskip0. cbn [andb]. now rewrite Hslash.
  - assert (Hend : Str.dropEnd Str.is_ws (whole ++ "/") = whole ++ "/")
      by (now apply dropEnd_snoc).
    split; [|split; [apply Hprot | exact Hend]].
    rewrite Hend, String.eqb_refl, Hpre, Hskip. cbn [andb].
    change (String ch (rest ++ "/")) with (String ch rest ++ "/").
    now rewrite hasSlash_snoc.
Qed.

Lemma mailApp_valid : validCustomApp exampleHost exampleConstants mailApp.
Proof.
  unfold validCustomApp, cleanText, trimmed. simpl.
  split; [reflexivity|]. split; [split; [reflexivity | discriminate]|].
  split; [reflexivity|]. split.
  { exists "https://mail.example.com/", (mkURL "https:" "https://mail.example.com/").
    repeat split. }
  split; [now left|]. repeat split. constructor.
Qed.

Lemma hiddenMailState_valid : validState exampleHost exampleConstants hiddenMailState.
Proof.
  split.
  - unfold validSettings, settingsInRange, within, cleanImage, trimmed, isLayout.
    simpl. repeat split; try (vm_compute; discriminate); eauto.
  - unfold validUserData. simpl.
    split; [repeat constructor; simpl; tauto|].
    split; [constructor; [split; [reflexivity | discriminate] | constructor]|].
    split; [constructor; [exact mailApp_valid | constructor]|].
    exists 28%Z. simpl. repeat split; try lia. now exists 4%Z.
Qed.

Lemma export_import_round_trip_witness :
  snd (importBackup exampleHost exampleConstants
         (Js.jsonRoundTrip (exportPayload exampleConstants "2026-01-01T00:00:00.000Z"
                              hiddenMailState))
         hiddenMailState)
  = hiddenMailState.
Proof.
  refine (proj2 (proj2 (proj2
    (export_import_round_trip exampleHost exampleConstants
       "2026-01-01T00:00:00.000Z" hiddenMailState _ _ _ _)))).
  - exact exampleHost_prints_canonically.
  - unfold pageConstantsOk. simpl.
    repeat split; try lia; try reflexivity;
      [exists 2%Z; reflexivity | exists 8%Z; reflexivity].
  - reflexivity.
  - exact hiddenMailState_valid.
Defined.

(** * Further properties *)

(** ** Validators *)

(** X1. [clampNumber] with finite bounds in order. It returns exactly on
    the values [String] prints and throws on the others. What it returns is
    the fallback or a finite number between the bounds. A finite number is
    clamped as it is, without being printed and read: the result lies between
    the bounds and is the number itself when that already does. With a
    fallback between the bounds, what it returns is a fixed point: clamping
    it again returns it. *)
Theorem clampNumber_contract (h : Host) (v : value) (lo hi : Qc) (fallback : number) :
  (lo <= hi)%Qc ->
  (printable v = true ->
   exists y, clampNumber h v (Fin lo) (Fin hi) fallback = Returns y)
  /\ (printable v = false -> clampNumber h v (Fin lo) (Fin hi) fallback = Throws)
  /\ (forall y, clampNumber h v (Fin lo) (Fin hi) fallback = Returns y ->
        y = fallback \/ exists q, y = Fin q /\ (lo <= q)%Qc /\ (q <= hi)%Qc)
  /\ (forall x,
        exists q, clampNumber h (VNum (Fin x)) (Fin lo) (Fin hi) fallback
                  = Returns (Fin q)
                  /\ (lo <= q)%Qc /\ (q <= hi)%Qc
                  /\ ((lo <= x)%Qc -> (x <= hi)%Qc -> q = x))
  /\ (forall y f,
        fallback = Fin f -> (lo <= f)%Qc -> (f <= hi)%Qc ->
        clampNumber h v (Fin lo) (Fin hi) fallback = Returns y ->
        clampNumber h (VNum y) (Fin lo) (Fin hi) fallback = Returns y).
Proof.
  intros Hle.
  assert (Hreturned : forall y,
             clampNumber h v (Fin lo) (Fin hi) fallback = Returns y ->
             y = fallback \/ exists q, y = Fin q /\ (lo <= q)%Qc /\ (q <= hi)%Qc).
  { unfold clampNumber. destruct (toFloat h v) as [numeric|]; [|discriminate].
    cbn [Try.bind]. intros y [= <-].
    destruct numeric as [| |x]; simpl negb; cbv iota; auto.
    right. destruct (clamp_bounds x lo hi Hle) as [q [Hq Hrange]]. eauto. }
  split; [|split; [|split; [|split]]].
  - intros Hv. apply returned_true. now rewrite clampNumber_printable.
  - intros Hv. apply returned_false. now rewrite clampNumber_printable.
  - exact Hreturned.
  - intros x. unfold clampNumber. cbn [toFloat Try.bind Num.isFinite negb].
    destruct (clamp_bounds x lo hi Hle) as [q [Hq [Hlo Hhi]]].
    exists q. rewrite Hq. repeat split; try assumption.
    intros Hxl Hxh. rewrite (clamp_fixed x lo hi Hxl Hxh) in Hq. congruence.
  - intros y f Hf Hflo Hfhi Hy.
    assert (Hin : exists q, y = Fin q /\ (lo <= q)%Qc /\ (q <= hi)%Qc).
    { destruct (Hreturned y Hy) as [-> | Hq]; [eauto | exact Hq]. }
    destruct Hin as (q & -> & Hqlo & Hqhi).
    unfold clampNumber. cbn [toFloat Try.bind Num.isFinite negb].
    now rewrite (clamp_fixed q lo hi Hqlo Hqhi).
Qed.

Lemma clampNumber_contract_witness :
  (exists y, clampNumber exampleHost (VArr [VStr "wide"; VNull]) (Fin (Q2Qc 0))
               (Fin (Q2Qc 20)) (Num.ofZ 8) = Returns y)
  /\ clampNumber exampleHost (VArr [VStr "wide"; ownToString]) (Fin (Q2Qc 0))
       (Fin (Q2Qc 20)) (Num.ofZ 8) = Throws.
Proof.
  assert (Hle : (Q2Qc 0 <= Q2Qc 20)%Qc) by (vm_compute; discriminate).
  split.
  - apply (clampNumber_contract exampleHost (VArr [VStr "wide"; VNull])
             (Q2Qc 0) (Q2Qc 20) (Num.ofZ 8) Hle). reflexivity.
  - apply (clampNumber_contract exampleHost (VArr [VStr "wide"; ownToString])
             (Q2Qc 0) (Q2Qc 20) (Num.ofZ 8) Hle). reflexivity.
Defined.

(** X2. [normalizePageSize] is idempotent: normalising a normalised page size
    changes nothing. *)
Theorem normalizePageSize_idempotent (h : Host) (c : Constants) (v : value) :
  pageConstantsOk c ->
  (p <- normalizePageSize h c v ;; normalizePageSize h c (VNum p))
  = normalizePageSize h c v.
Proof.
  intros Hok. destruct (normalizePageSize h c v) as [n|] eqn:Hn; [|reflexivity].
  cbn [Try.bind]. destruct (normalizePageSize_stepped h c Hok v n Hn) as [z ->].
  destruct (stepped_range c Hok z) as (p & -> & Hp & Hdiv).
  now apply normalizePageSize_fixed.
Qed.

Lemma exampleConstants_pageOk : pageConstantsOk exampleConstants.
Proof.
  unfold pageConstantsOk. simpl.
  repeat split; try lia; try reflexivity;
    [exists 2%Z; reflexivity | exists 8%Z; reflexivity].
Qed.

Lemma normalizePageSize_idempotent_witness :
  (p <- normalizePageSize exampleHost exampleConstants (VNum (Num.ofZ 40)) ;;
   normalizePageSize exampleHost exampleConstants (VNum p))
  = normalizePageSize exampleHost exampleConstants (VNum (Num.ofZ 40)).
Proof.
  apply normalizePageSize_idempotent. exact exampleConstants_pageOk.
Defined.

Lemma sanitizeHttpUrl_cases h v :
  sanitizeHttpUrl h v = "" \/ canonicalUrl h (sanitizeHttpUrl h v).
Proof.
  unfold sanitizeHttpUrl. destruct v; auto.
  destruct (Str.isEmpty (Str.trim s) || Str.startsWithCI "javascript:" (Str.trim s));
    auto.
  destruct (URL_new h (urlCandidate (Str.trim s))) as [u|] eqn:Hu; auto.
  destruct (isHttp u) eqn:Hhttp; simpl; auto.
  right. now exists (urlCandidate (Str.trim s)), u.
Qed.

(** X3. On a platform whose [new URL] prints canonically, [sanitizeHttpUrl]
    is idempotent: it accepts unchanged whatever it returned. *)
Theorem sanitizeHttpUrl_idempotent (h : Host) (v : value) :
  urlPrintsCanonically h ->
  sanitizeHttpUrl h (VStr (sanitizeHttpUrl h v)) = sanitizeHttpUrl h v.
Proof.
  intros Hlaw.
  destruct (sanitizeHttpUrl_cases h v) as [-> | Hcanon]; [reflexivity|].
  now apply sanitizeHttpUrl_fixed.
Qed.

Lemma sanitizeHttpUrl_idempotent_witness :
  sanitizeHttpUrl exampleHost (VStr (sanitizeHttpUrl exampleHost (VStr " example.com ")))
  = sanitizeHttpUrl exampleHost (VStr " example.com ").
Proof.
  apply sanitizeHttpUrl_idempotent. exact exampleHost_prints_canonically.
Defined.

Lemma sanitizeIconSource_valid c v : validIcon c (sanitizeIconSource c v).
Proof.
  unfold sanitizeIconSource, validIcon. destruct v; auto.
  destruct (Str.isEmpty (Str.trim s) || Str.startsWithCI "javascript:" (Str.trim s));
    auto.
  destruct (iconAccepted (Str.trim s)) eqn:Hacc; auto.
  right. split; [apply trim_idem | exact Hacc].
Qed.

(** X4. [sanitizeIconSource] returns the default icon, or a trimmed source
    that starts with [http://], [https://], [data:image/], [./] or [/]; so a
    result that starts with [javascript:] can only be the default icon
    itself. With a trimmed default icon it is idempotent. *)
Theorem sanitizeIconSource_safe (c : Constants) (v : value) :
  (sanitizeIconSource c v = DEFAULT_ICON c
   \/ (Str.trim (sanitizeIconSource c v) = sanitizeIconSource c v
       /\ iconAccepted (sanitizeIconSource c v) = true))
  /\ (Str.startsWithCI "javascript:" (sanitizeIconSource c v) = true ->
      sanitizeIconSource c v = DEFAULT_ICON c)
  /\ (Str.trim (DEFAULT_ICON c) = DEFAULT_ICON c ->
      sanitizeIconSource c (VStr (sanitizeIconSource c v)) = sanitizeIconSource c v).
Proof.
  pose proof (sanitizeIconSource_valid c v) as Hvalid.
  split; [exact Hvalid|]. split.
  - intros Hjs. destruct Hvalid as [Hd | [_ Hacc]]; [exact Hd|].
    apply iconAccepted_not_script in Hacc.
    apply orb_false_iff in Hacc. destruct Hacc as [_ Hacc]. congruence.
  - intros Hdefault. now apply sanitizeIconSource_fixed.
Qed.

Lemma sanitizeIconSource_safe_witness :
  sanitizeIconSource exampleConstants
    (VStr (sanitizeIconSource exampleConstants (VStr "  ./icons/mail.svg ")))
  = sanitizeIconSource exampleConstants (VStr "  ./icons/mail.svg ").
Proof.
  apply (sanitizeIconSource_safe exampleConstants). reflexivity.
Defined.

Lemma trim_noop s : allChars notSpace s = true -> Str.trim s = s.
Proof.
  intros Hall. unfold Str.trim.
  assert (Hstart : Str.dropStart Str.is_ws s = s).
  { destruct s as [|ch rest]; [reflexivity|]. simpl in *.
    apply andb_true_iff in Hall. destruct Hall as [Hch _].
    unfold notSpace in Hch. apply negb_true_iff in Hch. now rewrite Hch. }
  rewrite Hstart. now apply dropEnd_noop.
Qed.

Lemma sanitizeTagList_clean h v tags_ :
  sanitizeTagList h v = Returns tags_ -> Forall cleanText tags_.
Proof.
  unfold sanitizeTagList. destruct v; try (intros [= <-]; constructor).
  match goal with |- context [Try.each ?f items] =>
    destruct (Try.each f items) as [texts|] eqn:Heach end; [|discriminate].
  cbn [Try.bind]. intros [= <-].
  apply Forall_forall. intros t Ht. apply filter_In in Ht. destruct Ht as [Hin Hne].
  destruct (each_In _ _ _ _ Heach Hin) as (x & _ & Hx).
  destruct (toStr h (Js.orElse x (VStr ""))) as [text|]; [|discriminate].
  cbn [Try.bind] in Hx. injection Hx as <-.
  split; [apply trim_idem | now apply nonEmpty_true].
Qed.

(** [sanitizeTagList] throws exactly on an array that [String] does not
    print. *)
Lemma sanitizeTagList_returned h v :
  Try.returned (sanitizeTagList h v) = negb (Js.isArray v) || printable v.
Proof.
  unfold sanitizeTagList. destruct v; try reflexivity.
  cbn [Js.isArray negb orb printable].
  match goal with |- context [Try.each ?f items] =>
    transitivity (Try.returned (Try.each f items));
      [now destruct (Try.each f items)|]
  end.
  rewrite each_returned.
  induction items as [|x rest IH]; [reflexivity|]. cbn [forallb]. rewrite IH.
  f_equal. rewrite <- (toStr_printable h x).
  destruct x; try reflexivity; cbn [Js.orElse Js.nullish];
    now destruct (toStr h _).
Qed.

Lemma splitComma_parts s : Forall (fun w => allChars notComma w = true) (Str.splitComma s).
Proof.
  induction s as [|ch rest IH]; simpl; [repeat constructor|].
  destruct (Ascii.eqb ch ",") eqn:Hch; [constructor; [reflexivity | exact IH]|].
  destruct (Str.splitComma rest) as [|w ws]; simpl.
  - constructor; [|constructor]. simpl. unfold notComma. now rewrite Hch.
  - inversion IH; subst. constructor; [|assumption].
    simpl. unfold notComma at 1. now rewrite Hch.
Qed.

Lemma dropStart_allChars p q s :
  allChars q s = true -> allChars q (Str.dropStart p s) = true.
Proof.
  induction s as [|ch rest IH]; simpl; [reflexivity|].
  intros Hall. destruct (p ch); [|exact Hall].
  apply andb_true_iff in Hall. now apply IH.
Qed.

Lemma dropEnd_allChars p q s :
  allChars q s = true -> allChars q (Str.dropEnd p s) = true.
Proof.
  induction s as [|ch rest IH]; simpl; [reflexivity|].
  intros Hall. apply andb_true_iff in Hall. destruct Hall as [Hch Hrest].
  specialize (IH Hrest).
  destruct (Str.dropEnd p rest); [destruct (p ch); simpl; now rewrite ?Hch|].
  simpl in *. now rewrite Hch, IH.
Qed.

Lemma trim_allChars q s : allChars q s = true -> allChars q (Str.trim s) = true.
Proof. intros H. unfold Str.trim. now apply dropEnd_allChars, dropStart_allChars. Qed.

(** X5. Every tag that [sanitizeTagList] or [parseCustomTagString] returns is
    trimmed and not empty, and a tag of [parseCustomTagString] holds no
    comma; a value that is not an array, respectively not a string, gives no
    tag. [sanitizeTagList] throws exactly on an array that [String] does not
    print. *)
Theorem tag_lists_clean (h : Host) (v : value) :
  (forall tags_, sanitizeTagList h v = Returns tags_ ->
                 Forall (fun t => Str.trim t = t /\ t <> "") tags_)
  /\ Forall (fun t => Str.trim t = t /\ t <> "" /\ allChars notComma t = true)
            (parseCustomTagString v)
  /\ (Js.isArray v = false -> sanitizeTagList h v = Returns [])
  /\ (Js.isString v = false -> parseCustomTagString v = [])
  /\ (sanitizeTagList h v = Throws <-> Js.isArray v = true /\ printable v = false).
Proof.
  split; [apply sanitizeTagList_clean|]. split; [|split; [|split]].
  4: { rewrite <- returned_false, sanitizeTagList_returned.
       destruct (Js.isArray v), (printable v); simpl; intuition congruence. }
  - unfold parseCustomTagString. destruct v; try constructor.
    apply Forall_forall. intros t Ht. apply filter_In in Ht. destruct Ht as [Hin Hne].
    apply in_map_iff in Hin. destruct Hin as [w [<- Hw]].
    split; [apply trim_idem|]. split; [now apply nonEmpty_true|].
    apply trim_allChars.
    pose proof (splitComma_parts s) as Hparts. rewrite Forall_forall in Hparts.
    now apply Hparts.
  - destruct v; try reflexivity. discriminate.
  - destruct v; try reflexivity. discriminate.
Qed.

Lemma tag_lists_clean_witness :
  sanitizeTagList exampleHost (VStr "mail, work") = Returns []
  /\ parseCustomTagString (VArr [VStr "mail"]) = [].
Proof.
  split.
  - apply (proj1 (proj2 (proj2 (tag_lists_clean exampleHost (VStr "mail, work"))))).
    reflexivity.
  - apply (proj1 (proj2 (proj2 (proj2 (tag_lists_clean exampleHost
                                          (VArr [VStr "mail"])))))).
    reflexivity.
Defined.

Lemma splitComma_plain s : allChars notComma s = true -> Str.splitComma s = [s].
Proof.
  induction s as [|ch rest IH]; simpl; [reflexivity|].
  intros Hall. apply andb_true_iff in Hall. destruct Hall as [Hch Hrest].
  unfold notComma in Hch. apply negb_true_iff in Hch. rewrite Hch.
  now rewrite (IH Hrest).
Qed.

Lemma splitComma_app s t :
  allChars notComma s = true ->
  Str.splitComma (s ++ String "," t) = s :: Str.splitComma t.
Proof.
  induction s as [|ch rest IH]; simpl; [reflexivity|].
  intros Hall. apply andb_true_iff in Hall. destruct Hall as [Hch Hrest].
  unfold notComma in Hch. apply negb_true_iff in Hch. rewrite Hch.
  now rewrite (IH Hrest).
Qed.

Lemma trim_after_space s : Str.trim (String " " s) = Str.trim s.
Proof. reflexivity. Qed.

Lemma joined_tags_parse tags_ :
  Forall (fun t => Str.trim t = t /\ t <> "" /\ allChars notComma t = true) tags_ ->
  tags_ <> [] ->
  filter nonEmpty (List.map Str.trim (Str.splitComma (joinTags tags_))) = tags_.
Proof.
  unfold joinTags.
  induction 1 as [|t rest (Htrim & Hne & Hcomma) Hrest IH]; [congruence|].
  intros _. destruct rest as [|t' rest'].
  - simpl. rewrite (splitComma_plain t Hcomma). simpl. rewrite Htrim.
    apply nonEmpty_true in Hne. now rewrite Hne.
  - change (String.concat ", " (t :: t' :: rest'))
      with (t ++ String "," (String " " (String.concat ", " (t' :: rest')))).
    rewrite (splitComma_app t _ Hcomma).
    cbn [List.map filter]. rewrite Htrim.
    apply nonEmpty_true in Hne. rewrite Hne. f_equal.
    assert (Hnext : rest' = rest' -> t' :: rest' <> []) by (intros _; discriminate).
    specialize (IH (Hnext eq_refl)). rewrite <- IH at 2.
    remember (String.concat ", " (t' :: rest')) as joined eqn:Hj.
    assert (Hhead : exists w ws, Str.splitComma joined = w :: ws).
    { destruct joined as [|ch r]; simpl; [eauto|].
      destruct (Ascii.eqb ch ","); [eauto|].
      destruct (Str.splitComma r); eauto. }
    destruct Hhead as (w & ws & Hsplit).
    assert (Hspace : Str.splitComma (String " " joined) = String " " w :: ws).
    { simpl. now rewrite Hsplit. }
    rewrite Hspace, Hsplit. cbn [List.map]. now rewrite trim_after_space.
Qed.

(** X6. The tags of a custom app survive the edit form: joined with [", "]
    by [AddAppModal] and read back by [parseCustomTagString], tags that are
    trimmed, not empty and free of commas come back as they were. *)
Theorem tags_survive_the_form (tags_ : list string) :
  Forall (fun t => Str.trim t = t /\ t <> "" /\ allChars notComma t = true) tags_ ->
  parseCustomTagString (VStr (joinTags tags_)) = tags_.
Proof.
  intros Hall. destruct tags_ as [|t rest]; [reflexivity|].
  unfold parseCustomTagString. apply joined_tags_parse; [exact Hall | discriminate].
Qed.

Lemma tags_survive_the_form_witness :
  parseCustomTagString (VStr (joinTags ["mail"; "work stuff"; "x"]))
  = ["mail"; "work stuff"; "x"].
Proof.
  apply tags_survive_the_form.
  repeat constructor; discriminate.
Defined.

(** ** Slug ids *)

Lemma allChars_app p a b :
  allChars p (a ++ b) = allChars p a && allChars p b.
Proof. induction a as [|ch rest IH]; simpl; [reflexivity|]. now rewrite IH, andb_assoc. Qed.

Lemma slug_char_not_dash ch : is_slug_char ch = true -> is_dash ch = false.
Proof. each_char ch; vm_compute; congruence. Qed.

Lemma slugOrDash_notSpace ch : slugOrDash ch = true -> notSpace ch = true.
Proof. each_char ch; vm_compute; congruence. Qed.

Lemma dashRuns_chars inRun s : allChars slugOrDash (dashRuns inRun s) = true.
Proof.
  revert inRun. induction s as [|ch rest IH]; intros inRun; simpl; [reflexivity|].
  destruct (is_slug_char ch) eqn:Hch.
  - simpl. unfold slugOrDash at 1. now rewrite Hch, IH.
  - destruct inRun; [apply IH|]. simpl. now rewrite IH.
Qed.

Lemma noDoubleDash_cons a b rest :
  noDoubleDash (String a (String b rest))
  = negb (is_dash a && is_dash b) && noDoubleDash (String b rest).
Proof. reflexivity. Qed.

Lemma dashRuns_single inRun s :
  noDoubleDash (dashRuns inRun s) = true
  /\ (inRun = true ->
      match dashRuns inRun s with
      | EmptyString => True
      | String ch _ => is_dash ch = false
      end).
Proof.
  revert inRun. induction s as [|ch rest IH]; intros inRun; simpl; [auto|].
  destruct (is_slug_char ch) eqn:Hch.
  - destruct (IH false) as [Hnd _]. split.
    + apply slug_char_not_dash in Hch.
      destruct (dashRuns false rest) eqn:Hrest; [reflexivity|].
      rewrite noDoubleDash_cons, Hch. exact Hnd.
    + intros _. now apply slug_char_not_dash.
  - destruct inRun.
    + apply IH.
    + destruct (IH true) as [Hnd Hhead]. specialize (Hhead eq_refl).
      split; [|discriminate].
      destruct (dashRuns true rest) eqn:Hrest; [reflexivity|].
      rewrite noDoubleDash_cons, Hhead, andb_false_r. exact Hnd.
Qed.

Lemma noDoubleDash_tail a rest :
  noDoubleDash (String a rest) = true -> noDoubleDash rest = true.
Proof.
  destruct rest as [|b rest']; [reflexivity|]. rewrite noDoubleDash_cons.
  intros Hnd. now apply andb_true_iff in Hnd.
Qed.

Lemma dropStart_noDoubleDash p s :
  noDoubleDash s = true -> noDoubleDash (Str.dropStart p s) = true.
Proof.
  induction s as [|ch rest IH]; [reflexivity|]. intros Hnd. simpl.
  destruct (p ch); [|exact Hnd]. apply IH. now apply noDoubleDash_tail in Hnd.
Qed.

Lemma dropEnd_head p ch rest :
  Str.dropEnd p (String ch rest) = EmptyString
  \/ exists rest', Str.dropEnd p (String ch rest) = String ch rest'.
Proof.
  simpl. destruct (Str.dropEnd p rest); [destruct (p ch)|]; eauto.
Qed.

Lemma dropEnd_noDoubleDash p s :
  noDoubleDash s = true -> noDoubleDash (Str.dropEnd p s) = true.
Proof.
  induction s as [|a rest IH]; [reflexivity|]. intros Hnd.
  pose proof (noDoubleDash_tail a rest Hnd) as Htail. specialize (IH Htail).
  simpl. destruct (Str.dropEnd p rest) as [|b' rest''] eqn:Hrest.
  - now destruct (p a).
  - destruct rest as [|b rest']; [discriminate|].
    destruct (dropEnd_head p b rest') as [He | [r He]]; rewrite He in Hrest;
      [discriminate|].
    injection Hrest as <- <-.
    rewrite noDoubleDash_cons in Hnd |- *. apply andb_true_iff in Hnd.
    destruct Hnd as [Hab _]. rewrite Hab. exact IH.
Qed.

Lemma no_dash_body s :
  allChars is_slug_char s = true ->
  noDoubleDash s = true /\ Str.dropStart is_dash s = s /\ Str.dropEnd is_dash s = s.
Proof.
  intros Hall. repeat split.
  - induction s as [|a rest IH]; [reflexivity|].
    simpl in Hall. apply andb_true_iff in Hall. destruct Hall as [Ha Hrest].
    destruct rest as [|b rest']; [reflexivity|].
    rewrite noDoubleDash_cons, (slug_char_not_dash a Ha). now apply IH.
  - destruct s as [|a rest]; [reflexivity|]. simpl in *.
    apply andb_true_iff in Hall. destruct Hall as [Ha _].
    now rewrite (slug_char_not_dash a Ha).
  - apply dropEnd_noop. eapply allChars_impl; [|exact Hall].
    intros ch Hch. now rewrite (slug_char_not_dash ch Hch).
Qed.

Lemma digit_slug d : (d < 36)%N -> is_slug_char (Str.digit d) = true.
Proof.
  intros Hd.
  assert (Hall : forallb (fun n => is_slug_char (Str.digit (N.of_nat n))) (seq 0 36) = true)
    by (vm_compute; reflexivity).
  rewrite forallb_forall in Hall.
  rewrite <- (N2Nat.id d). apply Hall. apply in_seq. lia.
Qed.

Lemma digits_chars fuel n acc :
  allChars is_slug_char acc = true ->
  allChars is_slug_char (Str.digits fuel 36 n acc) = true.
Proof.
  revert n acc. induction fuel as [|fuel IH]; intros n acc Hacc; simpl; [exact Hacc|].
  assert (Hnext : allChars is_slug_char (String (Str.digit (n mod 36)) acc) = true).
  { simpl. rewrite digit_slug, Hacc; [reflexivity|]. apply N.mod_lt. discriminate. }
  destruct (n <? 36)%N; [exact Hnext | now apply IH].
Qed.

Lemma digits_not_empty fuel radix n acc :
  acc <> "" -> Str.digits fuel radix n acc <> "".
Proof.
  revert n acc. induction fuel as [|fuel IH]; intros n acc Hacc; simpl; [exact Hacc|].
  destruct (n <? radix)%N; [discriminate|]. apply IH. discriminate.
Qed.

Lemma base36_body n : slugBody (Str.radixString 36 n).
Proof.
  assert (Hall : allChars is_slug_char (Str.radixString 36 n) = true)
    by (apply digits_chars; reflexivity).
  destruct (no_dash_body _ Hall) as (Hnd & Hs & He).
  split; [|split; [|repeat split; assumption]].
  - unfold Str.radixString. simpl. destruct (n <? 36)%N; [discriminate|].
    apply digits_not_empty. discriminate.
  - eapply allChars_impl; [|exact Hall]. intros ch Hch. unfold slugOrDash. now rewrite Hch.
Qed.

Lemma slugBase_body name_ : slugBase name_ <> "" -> slugBody (slugBase name_).
Proof.
  intros Hne. unfold slugBody. split; [exact Hne|]. unfold slugBase.
  split; [apply dropEnd_allChars, dropStart_allChars, dashRuns_chars|].
  split; [apply dropEnd_noDoubleDash, dropStart_noDoubleDash, dashRuns_single|].
  split; [|apply dropEnd_idem].
  apply dropStart_dropEnd. apply dropStart_head.
Qed.

(** X7. [createSlugId] returns the prefix, a dash and a body; the body is
    never empty, is made of characters of [a-z0-9] and single dashes, and has
    no dash at either end. It is the slug of the name when the name has a
    character of [a-z0-9] once in lower case, and the clock reading in base
    36 otherwise. *)
Theorem createSlugId_shape (now : N) (prefix name_ : string) :
  exists body,
    createSlugId now prefix name_ = prefix ++ "-" ++ body
    /\ slugBody body
    /\ (slugBase name_ <> "" -> body = slugBase name_)
    /\ (slugBase name_ = "" -> body = Str.radixString 36 now).
Proof.
  unfold createSlugId. destruct (slugBase name_) as [|ch rest] eqn:Hslug.
  - exists (Str.radixString 36 now). simpl.
    split; [reflexivity|]. split; [apply base36_body|]. split; congruence.
  - exists (String ch rest). simpl. split; [reflexivity|].
    split; [rewrite <- Hslug; apply slugBase_body; congruence|]. split; congruence.
Qed.

Lemma createSlugId_shape_witness :
  exists body,
    createSlugId 0 "custom" "  C'est la  vie ! " = "custom" ++ "-" ++ body
    /\ body = "c-est-la-vie".
Proof.
  destruct (createSlugId_shape 0 "custom" "  C'est la  vie ! ")
    as (body & Hid & _ & Hslug & _).
  exists body. split; [exact Hid|]. apply Hslug. vm_compute. discriminate.
Defined.

(** ** App records *)

Lemma trimmedString_clean v : trimmed (trimmedString v).
Proof. apply trimmedString_trimmed. Qed.

Lemma sanitizeAppRecord_fields h c app o a :
  sanitizeAppRecord h c app o = Returns (Some a) ->
  trimmed (id a)
  /\ cleanText (name a)
  /\ trimmed (description a)
  /\ (url a = "" \/ canonicalUrl h (url a))
  /\ validIcon c (icon a)
  /\ Forall cleanText (tags a)
  /\ origin a = Some o
  /\ type_ a = None.
Proof.
  unfold sanitizeAppRecord.
  destruct (Js.isObject app); [|discriminate]. simpl negb. cbv iota.
  destruct (sanitizeTagList h (Js.get app "tags")) as [tags_|] eqn:Htags;
    [|discriminate].
  cbn [Try.bind].
  match goal with |- context [if ?b then Returns None else _] => destruct b end;
    [discriminate|].
  intros [= <-]. cbn [id name description url icon tags origin type_].
  repeat split; try apply trimmedString_clean.
  - destruct (Str.isEmpty (trimmedString (Js.get app "name"))) eqn:He;
      [reflexivity | apply trimmedString_clean].
  - destruct (Str.isEmpty (trimmedString (Js.get app "name"))) eqn:He;
      [discriminate | now apply isEmpty_false].
  - apply sanitizeHttpUrl_cases.
  - apply sanitizeIconSource_valid.
  - eapply sanitizeTagList_clean. exact Htags.
Qed.

(** [sanitizeAppRecord] throws exactly on an object whose [tags] are an
    array that [String] does not print. *)
Lemma sanitizeAppRecord_returned h c app o :
  Try.returned (sanitizeAppRecord h c app o)
  = negb (Js.isObject app)
    || negb (Js.isArray (Js.get app "tags"))
    || printable (Js.get app "tags").
Proof.
  unfold sanitizeAppRecord. destruct (Js.isObject app); [|reflexivity].
  simpl negb. cbv iota. rewrite orb_false_l.
  rewrite <- (sanitizeTagList_returned h).
  destruct (sanitizeTagList h (Js.get app "tags")); [|reflexivity].
  cbn [Try.bind]. now destruct (_ && _).
Qed.

(** X8. [sanitizeAppRecord]: a value that is not an object gives no record.
    An object whose [tags] are an array that [String] does not print makes
    the call throw, and no other value does. A record that comes out has a
    trimmed id and description, a trimmed name that is not empty, a link that
    is empty or the text of an http or https URL, an icon that is the default
    or of an accepted kind, tags trimmed and not empty, and the origin asked
    for. Where the call does not throw, a catalogue record comes out of every
    object, and a custom record comes out exactly when the object has a name
    that is not blank and a link that is accepted; it is then a valid custom
    app. *)
Theorem sanitizeAppRecord_contract (h : Host) (c : Constants) (app : value) :
  (Js.isObject app = false -> forall o, sanitizeAppRecord h c app o = Returns None)
  /\ (forall o,
        sanitizeAppRecord h c app o = Throws
        <-> Js.isObject app = true
            /\ Js.isArray (Js.get app "tags") = true
            /\ printable (Js.get app "tags") = false)
  /\ (forall o a,
        sanitizeAppRecord h c app o = Returns (Some a) ->
        Str.trim (id a) = id a
        /\ Str.trim (name a) = name a /\ name a <> ""
        /\ Str.trim (description a) = description a
        /\ (url a = "" \/ canonicalUrl h (url a))
        /\ validIcon c (icon a)
        /\ Forall cleanText (tags a)
        /\ origin a = Some o /\ type_ a = None)
  /\ (forall a, sanitizeAppRecord h c app custom = Returns (Some a) ->
                validCustomApp h c a)
  /\ (Js.isObject app = true ->
      sanitizeAppRecord h c app custom <> Throws ->
      (exists a, sanitizeAppRecord h c app catalog = Returns (Some a))
      /\ (sanitizeAppRecord h c app custom = Returns None
          <-> trimmedString (Js.get app "name") = ""
              \/ sanitizeHttpUrl h (Js.get app "url") = "")).
Proof.
  split; [|split; [|split; [|split]]].
  - intros Hobj o. unfold sanitizeAppRecord. now rewrite Hobj.
  - intros o. rewrite <- returned_false, sanitizeAppRecord_returned.
    destruct (Js.isObject app), (Js.isArray (Js.get app "tags")),
             (printable (Js.get app "tags")); simpl; intuition congruence.
  - intros o a Hsome.
    destruct (sanitizeAppRecord_fields h c app o a Hsome)
      as (Hid & [Hname Hne] & Hdesc & Hurl & Hicon & Htags & Ho & Hty).
    repeat split; assumption.
  - intros a Hsome.
    destruct (sanitizeAppRecord_fields h c app custom a Hsome)
      as (Hid & Hname & Hdesc & Hurl & Hicon & Htags & Ho & Hty).
    repeat split; try assumption; try apply Hname.
    destruct Hurl as [Hempty | Hcanon]; [|exact Hcanon].
    exfalso. revert Hsome Hempty. unfold sanitizeAppRecord.
    destruct (Js.isObject app); [|discriminate]. simpl negb. cbv iota.
    destruct (sanitizeTagList h (Js.get app "tags")); [|discriminate].
    cbn [Try.bind andb].
    destruct (Str.isEmpty (trimmedString (Js.get app "name"))); [discriminate|].
    destruct (sanitizeHttpUrl h (Js.get app "url")) eqn:Hu; [discriminate|].
    cbn [orb Str.isEmpty]. intros [= <-]. discriminate.
  - intros Hobj. unfold sanitizeAppRecord. rewrite Hobj. simpl negb. cbv iota.
    destruct (sanitizeTagList h (Js.get app "tags")) as [tags_|];
      [|intros Hthrows; now contradiction Hthrows].
    intros _. cbn [Try.bind andb]. split; [eauto|].
    rewrite <- !isEmpty_true.
    destruct (Str.isEmpty (trimmedString (Js.get app "name"))),
             (Str.isEmpty (sanitizeHttpUrl h (Js.get app "url"))); simpl;
      split; intros H; try discriminate; auto; destruct H; discriminate.
Qed.

Lemma sanitizeAppRecord_contract_witness :
  sanitizeAppRecord exampleHost exampleConstants (VStr "app") custom = Returns None
  /\ sanitizeAppRecord exampleHost exampleConstants
       (VObj [("name", VStr "Mail"); ("url", VStr "javascript:alert(1)")]) custom
     = Returns None
  /\ (exists a,
        sanitizeAppRecord exampleHost exampleConstants
          (VObj [("url", VStr "mail.example.com");
                 ("tags", VArr [VStr " post "; VNull; VBool true])]) catalog
        = Returns (Some a))
  /\ sanitizeAppRecord exampleHost exampleConstants
       (VObj [("name", VStr "Mail"); ("tags", VArr [ownToString])]) catalog
     = Throws.
Proof.
  destruct (sanitizeAppRecord_contract exampleHost exampleConstants (VStr "app"))
    as [Hnot _].
  destruct (sanitizeAppRecord_contract exampleHost exampleConstants
              (VObj [("name", VStr "Mail"); ("url", VStr "javascript:alert(1)")]))
    as (_ & _ & _ & _ & Hobj).
  destruct (sanitizeAppRecord_contract exampleHost exampleConstants
              (VObj [("url", VStr "mail.example.com");
                     ("tags", VArr [VStr " post "; VNull; VBool true])]))
    as (_ & _ & _ & _ & Hrecord).
  destruct (sanitizeAppRecord_contract exampleHost exampleConstants
              (VObj [("name", VStr "Mail"); ("tags", VArr [ownToString])]))
    as (_ & Hthrows & _).
  split; [|split; [|split]].
  - apply Hnot. reflexivity.
  - apply (proj2 (Hobj eq_refl ltac:(discriminate))). right. reflexivity.
  - apply (Hrecord eq_refl). discriminate.
  - apply Hthrows. repeat split.
Defined.

(** ** Identity resolver, again *)

Lemma clean_head s :
  cleanText s -> exists ch rest, s = String ch rest /\ Str.is_ws ch = false.
Proof.
  intros [Htrim Hne]. destruct s as [|ch rest]; [congruence|].
  exists ch, rest. split; [reflexivity|].
  unfold trimmed, Str.trim in Htrim.
  pose proof (dropStart_head Str.is_ws (String ch rest)) as Hhead.
  destruct (Str.dropStart Str.is_ws (String ch rest)) as [|ch' rest'] eqn:Hdrop;
    [discriminate|].
  destruct (dropEnd_head Str.is_ws ch' rest') as [He | [r He]]; rewrite He in Htrim;
    [discriminate|].
  injection Htrim as -> _. exact Hhead.
Qed.

Lemma dropEnd_app_keep p x y :
  Str.dropEnd p y = y -> y <> "" -> Str.dropEnd p (x ++ y) = x ++ y.
Proof.
  intros Hy Hne. induction x as [|a rest IH]; simpl; [exact Hy|].
  rewrite IH. destruct (rest ++ y) eqn:Hcat; [|reflexivity].
  destruct rest; simpl in Hcat; congruence.
Qed.

Lemma clean_app s y :
  cleanText s -> allChars notSpace y = true -> y <> "" -> cleanText (s ++ y).
Proof.
  intros Hs Hy Hne. destruct (clean_head s Hs) as (ch & rest & -> & Hch).
  split; [|discriminate].
  unfold trimmed, Str.trim. cbn [append Str.dropStart]. rewrite Hch.
  change (String ch (rest ++ y)) with (String ch rest ++ y).
  apply dropEnd_app_keep; [|exact Hne].
  apply dropEnd_noop. exact Hy.
Qed.

Lemma decimal_chars n : allChars notSpace (Str.decimal n) = true.
Proof.
  unfold Str.decimal. induction (N.to_uint n); simpl; try reflexivity; assumption.
Qed.

Lemma suffixed_clean baseId k : cleanText baseId -> cleanText (suffixed baseId k).
Proof.
  intros Hb. unfold suffixed. apply clean_app; [exact Hb | | discriminate].
  simpl. apply decimal_chars.
Qed.

Lemma createSlugId_clean now prefix name_ :
  prefix <> "" -> allChars notSpace prefix = true ->
  cleanText (createSlugId now prefix name_).
Proof.
  intros Hne Hpre.
  assert (Hbody : exists body,
             createSlugId now prefix name_ = prefix ++ "-" ++ body /\ slugBody body).
  { unfold createSlugId. destruct (slugBase name_) as [|ch rest] eqn:Hslug.
    - exists (Str.radixString 36 now). split; [reflexivity | apply base36_body].
    - exists (String ch rest). split; [reflexivity|].
      rewrite <- Hslug. apply slugBase_body. congruence. }
  destruct Hbody as (body & -> & (_ & Hchars & _)).
  assert (Hall : allChars notSpace (prefix ++ "-" ++ body) = true).
  { rewrite allChars_app. apply andb_true_iff. split; [exact Hpre|].
    simpl. eapply allChars_impl; [|exact Hchars]. apply slugOrDash_notSpace. }
  split; [now apply trim_noop|].
  destruct prefix; [congruence | discriminate].
Qed.

Lemma baseIdOf_clean now a : cleanText (baseIdOf now a).
Proof.
  unfold baseIdOf. destruct (Str.isEmpty (Str.trim (id a))) eqn:He.
  - apply createSlugId_clean; unfold originPrefix;
      destruct (origin a) as [[|]|]; (discriminate || reflexivity).
  - split; [apply trim_idem | now apply isEmpty_false].
Qed.

Lemma freeId_clean seen baseId : cleanText baseId -> cleanText (freeId seen baseId).
Proof.
  intros Hb. destruct (freeId_shape seen baseId) as [-> | [k [_ ->]]];
    [exact Hb | now apply suffixed_clean].
Qed.

Lemma uniqueFrom_clean clock i seen apps :
  Forall (fun a => cleanText (id a)) (uniqueFrom clock i seen apps).
Proof.
  revert i seen. induction apps as [|a rest IH]; intros i seen; simpl; constructor.
  - simpl. apply freeId_clean, baseIdOf_clean.
  - apply IH.
Qed.

Lemma with_id_same a : with_id a (id a) = a.
Proof. now destruct a. Qed.

Lemma uniqueFrom_stable clock i seen apps :
  NoDup (ids apps) ->
  Forall (fun a => cleanText (id a)) apps ->
  (forall x, In x (ids apps) -> ~ In x seen) ->
  uniqueFrom clock i seen apps = apps.
Proof.
  revert i seen. induction apps as [|a rest IH]; intros i seen Hnd Hclean Hfresh;
    simpl; [reflexivity|].
  inversion Hnd as [|? ? Hnot Hnd']; subst.
  inversion Hclean as [|? ? [Htrim Hne] Hclean']; subst.
  assert (Hbase : baseIdOf (clock i) a = id a).
  { unfold baseIdOf. rewrite Htrim. apply isEmpty_false in Hne. now rewrite Hne. }
  rewrite Hbase, freeId_unseen by (apply Hfresh; now left).
  rewrite with_id_same. f_equal. apply IH; try assumption.
  intros x Hx [<- | Hseen]; [contradiction|].
  apply (Hfresh x); [now right | exact Hseen].
Qed.

(** X9. Records whose ids are trimmed, not empty and pairwise distinct go
    through [ensureUniqueAppIds] unchanged: an id that is already unique is
    kept. *)
Theorem ensureUniqueAppIds_keeps_unique_ids (clock : nat -> N)
        (apps : list LaunchpadApp) :
  NoDup (ids apps) ->
  Forall (fun a => Str.trim (id a) = id a /\ id a <> "") apps ->
  ensureUniqueAppIds clock apps = apps.
Proof.
  intros Hnd Hclean. apply uniqueFrom_stable; try assumption. intros x _ [].
Qed.

Lemma ensureUniqueAppIds_keeps_unique_ids_witness :
  ensureUniqueAppIds noon [catalogApp "docs" "Docs"; catalogApp "mail" "Docs"]
  = [catalogApp "docs" "Docs"; catalogApp "mail" "Docs"].
Proof.
  apply ensureUniqueAppIds_keeps_unique_ids.
  - repeat constructor; simpl; intuition discriminate.
  - repeat constructor; discriminate.
Defined.

(** X10. [ensureUniqueAppIds] is idempotent, whatever the clock reads at
    either run, and every id it gives is trimmed and not empty. *)
Theorem ensureUniqueAppIds_idempotent (clock clock' : nat -> N)
        (apps : list LaunchpadApp) :
  ensureUniqueAppIds clock' (ensureUniqueAppIds clock apps)
  = ensureUniqueAppIds clock apps
  /\ Forall (fun a => Str.trim (id a) = id a /\ id a <> "")
            (ensureUniqueAppIds clock apps).
Proof.
  split.
  - apply uniqueFrom_stable.
    + apply uniqueFrom_ids.
    + apply uniqueFrom_clean.
    + intros x _ [].
  - apply uniqueFrom_clean.
Qed.

(** ** Hidden ids, colours and images *)

Lemma filter_all {A} (f : A -> bool) (l : list A) :
  (forall x, In x l -> f x = true) -> filter f l = l.
Proof.
  induction l as [|x rest IH]; simpl; [reflexivity|]. intros Hall.
  rewrite (Hall x) by now left. f_equal. apply IH. intros y Hy. apply Hall. now right.
Qed.

Lemma map_trimmed l :
  Forall trimmed l -> List.map trimmedString (List.map VStr l) = l.
Proof.
  induction 1 as [|x rest Hx _ IH]; simpl; [reflexivity|]. now rewrite Hx, IH.
Qed.

(** X11. [dedupeHiddenIds] is idempotent for a given app list, its result is
    never longer than the array it was given, and a value that is not an
    array gives no id. *)
Theorem dedupeHiddenIds_idempotent (hiddenIds : value) (apps : list LaunchpadApp) :
  dedupeHiddenIds (VArr (List.map VStr (dedupeHiddenIds hiddenIds apps))) apps
  = dedupeHiddenIds hiddenIds apps
  /\ (forall items, hiddenIds = VArr items ->
        (List.length (dedupeHiddenIds hiddenIds apps) <= List.length items)%nat)
  /\ (Js.isArray hiddenIds = false -> dedupeHiddenIds hiddenIds apps = []).
Proof.
  split; [|split].
  - set (out := dedupeHiddenIds hiddenIds apps).
    assert (Hout : forall i, In i out -> i <> "" /\ Str.trim i = i /\ In i (ids apps)).
    { intros i Hi. apply dedupeHiddenIds_sound in Hi. tauto. }
    unfold dedupeHiddenIds at 1.
    rewrite map_trimmed.
    + apply filter_all. intros i Hi. destruct (Hout i Hi) as (Hne & _ & Hin).
      apply andb_true_iff. split; [now apply nonEmpty_true | now apply mem_In].
    + apply Forall_forall. intros i Hi. now apply Hout.
  - intros items ->. simpl.
    rewrite <- (length_map trimmedString items). apply filter_length_le.
  - destruct hiddenIds; try reflexivity. discriminate.
Qed.

Lemma dedupeHiddenIds_idempotent_witness :
  dedupeHiddenIds (VObj [("0", VStr "docs")]) [catalogApp "docs" "Docs"] = [].
Proof.
  apply (proj2 (proj2 (dedupeHiddenIds_idempotent (VObj [("0", VStr "docs")])
                         [catalogApp "docs" "Docs"]))).
  reflexivity.
Defined.

(** X12. With a fallback that [hexToRgb] reads, the colour [resolveHexColor]
    returns is [#] and six hexadecimal digits, and [resolveHexColor] returns
    it unchanged when given it again, whatever the second fallback. *)
Theorem resolveHexColor_idempotent (v : value) (fallback fallback' : string) :
  hexToRgb (VStr fallback) <> None ->
  isHexColor (resolveHexColor v fallback) = true
  /\ resolveHexColor (VStr (resolveHexColor v fallback)) fallback'
     = resolveHexColor v fallback.
Proof.
  intros Hfb. pose proof (resolveHexColor_color v fallback Hfb) as Hc.
  split; [exact Hc | now apply resolveHexColor_fixed].
Qed.

Lemma resolveHexColor_idempotent_witness :
  resolveHexColor (VStr " FaB ") "#0f172a" = "#ffaabb"
  /\ resolveHexColor (VStr (resolveHexColor (VStr " FaB ") "#0f172a")) "nothing"
     = resolveHexColor (VStr " FaB ") "#0f172a".
Proof.
  split; [reflexivity|].
  apply resolveHexColor_idempotent. vm_compute. discriminate.
Defined.

Lemma sanitizeBackgroundImage_clean v : cleanImage (sanitizeBackgroundImage v).
Proof.
  unfold sanitizeBackgroundImage, cleanImage, trimmed.
  destruct v; try (split; reflexivity).
  destruct (Str.isEmpty (Str.trim s)); [split; reflexivity|].
  destruct (Str.containsCI "javascript:" (Str.trim s)) eqn:Hjs; [split; reflexivity|].
  split; [apply trim_idem | exact Hjs].
Qed.

(** X13. What [sanitizeBackgroundImage] returns is trimmed and holds
    [javascript:] nowhere, in any case of letters; and [sanitizeBackgroundImage]
    is idempotent. *)
Theorem sanitizeBackgroundImage_safe (v : value) :
  Str.trim (sanitizeBackgroundImage v) = sanitizeBackgroundImage v
  /\ Str.containsCI "javascript:" (sanitizeBackgroundImage v) = false
  /\ sanitizeBackgroundImage (VStr (sanitizeBackgroundImage v))
     = sanitizeBackgroundImage v.
Proof.
  pose proof (sanitizeBackgroundImage_clean v) as Hclean.
  destruct Hclean as [Htrim Hjs].
  repeat split; try assumption.
  apply sanitizeBackgroundImage_fixed. now split.
Qed.

(** ** Settings reconciler, again *)

(** X14. A valid settings object is a fixed point of the reconciler: given
    as the update, it comes back unchanged, whatever the base and the
    defaults. *)
Theorem updateSettingsFromForm_fixed (h : Host) (c : Constants)
        (base s : LaunchpadSettings) :
  validSettings s ->
  updateSettingsFromForm h c base (settingsToValue s) = Returns s.
Proof.
  destruct s as [bt bc bi oo bs gc go hd ml hcs].
  unfold validSettings, settingsInRange. simpl.
  intros ((Hoo & Hbs & Hgo & Hbc & Hgc & Hml) & Hbi & [flag ->] & [done ->]).
  assert (Hlayout : exists l, ml = Some l) by (destruct Hml as [-> | ->]; eauto).
  destruct Hlayout as [l ->].
  pose proof (clampNumber_fixed h oo 0 (6 # 10) (overlayOpacity (defaultSettings c)) Hoo)
    as H1.
  pose proof (clampNumber_fixed h bs 0 20 (blurStrength (defaultSettings c)) Hbs)
    as H2.
  pose proof (clampNumber_fixed h go (5 # 100) (95 # 100)
                (glassTintOpacity (defaultSettings c)) Hgo) as H3.
  unfold updateSettingsFromForm. cbv zeta.
  destruct bt, l;
    (replace (Js.nullish (settingsToValue _)) with false by reflexivity; cbv iota;
     replace (Js.get _ "overlayOpacity") with (VNum oo) by reflexivity;
     replace (Js.get _ "blurStrength") with (VNum bs) by reflexivity;
     replace (Js.get _ "glassTintOpacity") with (VNum go) by reflexivity;
     change (Num.ofZ 0) with (Num.ofQ 0); change (Num.ofZ 20) with (Num.ofQ 20);
     rewrite H1, H2, H3; cbn [Try.bind];
     replace (Js.get _ "backgroundColor") with (VStr bc) by reflexivity;
     replace (Js.get _ "backgroundImage") with (VStr bi) by reflexivity;
     replace (Js.get _ "glassTintColor") with (VStr gc) by reflexivity;
     rewrite (resolveHexColor_fixed bc _ Hbc), (resolveHexColor_fixed gc _ Hgc),
       (sanitizeBackgroundImage_fixed bi Hbi);
     reflexivity).
Qed.

Lemma exampleSettings_valid : validSettings exampleSettings.
Proof.
  unfold validSettings, settingsInRange, within, cleanImage, trimmed, isLayout.
  simpl. repeat split; try (vm_compute; discriminate); eauto.
Qed.

Lemma updateSettingsFromForm_fixed_witness :
  updateSettingsFromForm exampleHost exampleConstants
    (withCompletedSetup exampleSettings VNull) (settingsToValue exampleSettings)
  = Returns exampleSettings.
Proof.
  apply updateSettingsFromForm_fixed. exact exampleSettings_valid.
Defined.

(** ** The merged collection *)

Lemma find_first {A} (f : A -> bool) (l : list A) (x : A) :
  List.find f l = Some x ->
  exists before after,
    l = (before ++ x :: after)%list /\ f x = true
    /\ forall y, In y before -> f y = false.
Proof.
  induction l as [|a rest IH]; simpl; [discriminate|].
  destruct (f a) eqn:Ha.
  - intros [= <-]. exists [], rest. repeat split; [exact Ha | intros y []].
  - intros Hfind. destruct (IH Hfind) as (before & after & -> & Hx & Hbefore).
    exists (a :: before), after. repeat split; [exact Hx|].
    intros y [<- | Hy]; [exact Ha | now apply Hbefore].
Qed.

(** X15. [findAppById] answers with the first app of the list that has the
    id, and with nothing exactly when the id is [null] or empty or no app has
    it. *)
Theorem findAppById_first (apps : list LaunchpadApp) (i : option string) :
  (forall a, findAppById apps i = Some a ->
     exists before after,
       apps = (before ++ a :: after)%list
       /\ i = Some (id a) /\ id a <> ""
       /\ forall b, In b before -> id b <> id a)
  /\ (findAppById apps i = None <->
      i = None \/ i = Some "" \/ exists s, i = Some s /\ ~ In s (ids apps)).
Proof.
  unfold findAppById. split.
  - intros a. destruct i as [s|]; [|discriminate].
    destruct (Str.isEmpty s) eqn:He; [discriminate|]. intros Hfind.
    destruct (find_first _ _ _ Hfind) as (before & after & Happs & Hid & Hbefore).
    apply String.eqb_eq in Hid. subst s.
    exists before, after. repeat split; try assumption.
    + now apply isEmpty_false.
    + intros b Hb Heq. apply Hbefore in Hb. rewrite Heq, String.eqb_refl in Hb.
      discriminate.
  - destruct i as [s|]; [|split; auto].
    destruct (Str.isEmpty s) eqn:He.
    + apply isEmpty_true in He. subst. split; auto.
    + split.
      * intros Hnone. right. right. exists s. split; [reflexivity|].
        intros Hin. apply in_map_iff in Hin. destruct Hin as [a [Ha Hin]].
        apply (find_none _ _ Hnone) in Hin. rewrite Ha, String.eqb_refl in Hin.
        discriminate.
      * intros [Hn | [Hn | [s' [Hs Hnot]]]]; try discriminate.
        { injection Hn as ->. discriminate. }
        injection Hs as <-.
        destruct (List.find _ apps) as [a|] eqn:Hfind; [|reflexivity].
        apply find_some in Hfind. destruct Hfind as [Hin Hid].
        apply String.eqb_eq in Hid. exfalso. apply Hnot. subst.
        now apply in_map.
Qed.

Lemma findAppById_first_witness :
  exists before after,
    [catalogApp "docs" "Docs"; mailApp] = (before ++ mailApp :: after)%list
    /\ forall b, In b before -> id b <> "custom-mail".
Proof.
  destruct (proj1 (findAppById_first [catalogApp "docs" "Docs"; mailApp]
                     (Some "custom-mail")) mailApp eq_refl)
    as (before & after & Happs & _ & _ & Hbefore).
  exists before, after. split; [exact Happs | exact Hbefore].
Defined.

Lemma insertByName_In h a sorted x :
  In x (insertByName h a sorted) <-> x = a \/ In x sorted.
Proof.
  induction sorted as [|y rest IH]; simpl; [intuition|].
  destruct (localeCompare h (name a) (name y)); simpl; rewrite ?IH; intuition.
Qed.

Lemma insertByName_NoDup h a sorted :
  ~ In (id a) (ids sorted) -> NoDup (ids sorted) ->
  NoDup (ids (insertByName h a sorted)).
Proof.
  induction sorted as [|y rest IH]; simpl; intros Hnot Hnd.
  - constructor; [intros [] | constructor].
  - inversion Hnd as [|? ? Hy Hnd']; subst.
    assert (Hcons : NoDup (id a :: id y :: ids rest)) by (constructor; assumption).
    destruct (localeCompare h (name a) (name y)); simpl; try exact Hcons.
    all: constructor;
      [ intros Hin; apply in_map_iff in Hin; destruct Hin as [z [Hz Hin]];
        apply insertByName_In in Hin; destruct Hin as [-> | Hin];
        [ apply Hnot; left; auto
        | apply Hy; rewrite <- Hz; now apply in_map ]
      | apply IH; [intros Hin; apply Hnot; now right | assumption] ].
Qed.

Lemma sort_from_In h apps acc x :
  In x (fold_left (fun sorted a => insertByName h a sorted) apps acc)
  <-> In x apps \/ In x acc.
Proof.
  revert acc. induction apps as [|a rest IH]; intros acc; simpl; [intuition|].
  rewrite IH, insertByName_In. intuition.
Qed.

Lemma sort_from_NoDup h apps acc :
  NoDup (ids (apps ++ acc)) ->
  NoDup (ids (fold_left (fun sorted a => insertByName h a sorted) apps acc)).
Proof.
  revert acc. induction apps as [|a rest IH]; intros acc; simpl; [auto|].
  intros Hnd. inversion Hnd as [|? ? Ha Hnd']; subst.
  unfold ids in *. rewrite map_app in *.
  apply IH. unfold ids. rewrite map_app.
  apply NoDup_app_remove_l in Hnd' as Hacc.
  assert (Hnew : NoDup (List.map id (insertByName h a acc))).
  { apply insertByName_NoDup; [|exact Hacc].
    intros Hin. apply Ha. apply in_or_app. now right. }
  clear IH Hnd.
  induction rest as [|b rest' IHr]; simpl in *; [exact Hnew|].
  inversion Hnd' as [|? ? Hb Hnd'']; subst.
  constructor.
  - intros Hin. apply in_app_or in Hin. destruct Hin as [Hin | Hin].
    + apply Hb. apply in_or_app. now left.
    + apply in_map_iff in Hin. destruct Hin as [z [Hz Hin]].
      apply insertByName_In in Hin. destruct Hin as [-> | Hin].
      * apply Ha. rewrite <- Hz. now left.
      * apply Hb. apply in_or_app. right. rewrite <- Hz. now apply in_map.
  - apply IHr; [|exact Hnd''].
    intros Hin. apply Ha. now right.
Qed.

Lemma sort_from_length h apps acc :
  List.length (fold_left (fun sorted a => insertByName h a sorted) apps acc)
  = (List.length apps + List.length acc)%nat.
Proof.
  revert acc. induction apps as [|a rest IH]; intros acc; simpl; [reflexivity|].
  rewrite IH.
  assert (Hins : forall l, List.length (insertByName h a l) = S (List.length l)).
  { induction l as [|y l' IHl]; simpl; [reflexivity|].
    destruct (localeCompare h (name a) (name y)); simpl; now rewrite ?IHl. }
  rewrite Hins. lia.
Qed.

Lemma uniqueFrom_origin clock i seen apps :
  Forall (fun a => origin a <> None) apps ->
  Forall (fun a => origin a <> None) (uniqueFrom clock i seen apps).
Proof.
  intros Hall. revert i seen.
  induction Hall as [|a rest Ha _ IH]; intros i seen; simpl; constructor; auto.
Qed.

(** X16. The merged collection: no two of its apps share an id, every id is
    trimmed and not empty, every app has an origin, and it has one app per
    custom app plus, unless the default apps are hidden, one per catalogue
    app. (The order is that of [sortAppsByName], which is modelled from the
    spec.) *)
Theorem mergeCollection_invariants (h : Host) (clock : nat -> N)
        (baseCatalog_ customApps_ : list LaunchpadApp) (hide : option bool) :
  let merged := mergeCollection h clock baseCatalog_ customApps_ hide in
  NoDup (ids merged)
  /\ Forall (fun a => Str.trim (id a) = id a /\ id a <> "" /\ origin a <> None) merged
  /\ List.length merged
     = ((match hide with Some true => 0 | _ => List.length baseCatalog_ end)
        + List.length customApps_)%nat.
Proof.
  unfold mergeCollection, sortAppsByName, ensureUniqueAppIds.
  set (part := match hide with Some true => [] | _ => baseCatalog_ end).
  set (normalized := uniqueFrom clock 0 [] (List.map tagOrigin (part ++ customApps_))).
  cbv zeta. split; [|split].
  - apply sort_from_NoDup. rewrite app_nil_r. apply uniqueFrom_ids.
  - apply Forall_forall. intros a Ha. apply sort_from_In in Ha.
    destruct Ha as [Ha | []].
    pose proof (uniqueFrom_clean clock 0 [] (List.map tagOrigin (part ++ customApps_)))
      as Hclean.
    assert (Horigin : Forall (fun a => origin a <> None) normalized).
    { apply uniqueFrom_origin. apply Forall_forall. intros b Hb.
      apply in_map_iff in Hb. destruct Hb as [b0 [<- _]].
      unfold tagOrigin. destruct (origin b0) eqn:Ho; [congruence | discriminate]. }
    rewrite Forall_forall in Hclean, Horigin.
    destruct (Hclean a Ha) as [Ht Hne]. repeat split; auto.
  - rewrite sort_from_length. unfold normalized.
    rewrite uniqueFrom_length, length_map, length_app. simpl.
    unfold part. destruct hide as [[|]|]; simpl; lia.
Qed.

(** ** Pages and the active index *)

(** X17. With at least one page, the page that [setPage] or the effect after
    a change of [totalPages] leaves is a page that exists; a page that exists
    is left as it is; the mobile layout is always on page 0. *)
Theorem current_page_in_range (isMobileLayout : bool) (totalPages page : Z) :
  (1 <= totalPages)%Z ->
  (0 <= setPage isMobileLayout totalPages page < totalPages)%Z
  /\ ((0 <= page)%Z ->
      (0 <= settleCurrentPage isMobileLayout totalPages page < totalPages)%Z)
  /\ (isMobileLayout = false -> (0 <= page < totalPages)%Z ->
      setPage isMobileLayout totalPages page = page
      /\ settleCurrentPage isMobileLayout totalPages page = page)
  /\ (isMobileLayout = true ->
      setPage isMobileLayout totalPages page = 0%Z
      /\ settleCurrentPage isMobileLayout totalPages page = 0%Z).
Proof.
  intros Htotal. unfold setPage, settleCurrentPage.
  destruct isMobileLayout; repeat split; try discriminate; try lia;
    try (destruct (Z.geb_spec page totalPages); lia);
    try (intros; destruct (Z.geb_spec page totalPages); lia).
Qed.

Lemma current_page_in_range_witness : (0 <= setPage false 3 7 < 3)%Z.
Proof.
  refine (proj1 (current_page_in_range false 3 7 _)). lia.
Defined.

Lemma page_of_index perPage index :
  (0 < perPage)%Z ->
  (index / perPage * perPage <= index < (index / perPage + 1) * perPage)%Z.
Proof.
  intros Hp. pose proof (Z.div_mod index perPage) as Hdm.
  pose proof (Z.mod_pos_bound index perPage Hp). lia.
Qed.

(** X18. [setActiveIndex] on a list that is not empty, with a positive page
    size: the active index is an index of the list, and on the desktop layout
    the current page is the page that holds it. It agrees with the grid: the
    card [index] of page [pageIndex], handed over under its [globalIndex],
    becomes the active index and [pageIndex] the current page. On an empty
    list the active index is [-1] and the page stays. *)
Theorem setActiveIndex_on_page (count perPage index pageIndex : Z) (isMobileLayout : bool)
        (cur : Cursor) :
  (0 < count)%Z -> (0 < perPage)%Z ->
  let next := setActiveIndex count isMobileLayout perPage index cur in
  (0 <= activeIndex next < count)%Z
  /\ (isMobileLayout = false ->
      (currentPage next * perPage <= activeIndex next
       < (currentPage next + 1) * perPage)%Z)
  /\ (isMobileLayout = true -> currentPage next = currentPage cur)
  /\ ((0 <= index < count)%Z -> activeIndex next = index)
  /\ ((0 <= index < perPage)%Z -> (0 <= pageIndex)%Z ->
      (globalIndex false perPage pageIndex index < count)%Z ->
      setActiveIndex count false perPage (globalIndex false perPage pageIndex index) cur
      = mkCursor (globalIndex false perPage pageIndex index) pageIndex)
  /\ setActiveIndex 0 isMobileLayout perPage index cur = mkCursor (-1) (currentPage cur).
Proof.
  intros Hcount Hper. unfold setActiveIndex.
  destruct (Z.eqb_spec count 0) as [Hz | _]; [lia|].
  assert (Hgt : (count >? 0)%Z = true) by (apply Z.gtb_lt; lia).
  rewrite Hgt. cbn [activeIndex currentPage andb].
  split; [lia|]. split; [|split; [|split; [|split]]].
  - intros ->. cbn [negb]. apply page_of_index. exact Hper.
  - intros ->. reflexivity.
  - intros Hin. lia.
  - intros Hi Hp Hg. unfold globalIndex in *. cbn [negb andb]. f_equal; [lia|].
    replace (Z.min (Z.max (pageIndex * perPage + index) 0) (count - 1))
      with (pageIndex * perPage + index)%Z by lia.
    symmetry. apply (Z.div_unique _ _ _ index); lia.
  - reflexivity.
Qed.

Lemma setActiveIndex_on_page_witness :
  setActiveIndex 30 false 14 (globalIndex false 14 1 5) (mkCursor (-1) 0)
  = mkCursor 19 1.
Proof.
  refine (proj1 (proj2 (proj2 (proj2 (proj2
            (setActiveIndex_on_page 30 14 5 1 false (mkCursor (-1) 0) _ _))))) _ _ _);
    simpl; lia.
Defined.

(** X19. [advanceActiveIndex] on a list that is not empty. From "no
    selection" ([-1]) a step forward selects the first index and any other
    step the last. From an index of the list, a step that does not go back
    more than one full turn lands on an index of the list, the one reached by
    counting round the list; one step forward then one step back return to
    the index one started from. On the desktop layout the current page is the
    page that holds the new index. *)
Theorem advanceActiveIndex_wraps (count perPage delta : Z) (isMobileLayout : bool)
        (cur : Cursor) :
  (0 < count)%Z -> (0 < perPage)%Z ->
  let next := advanceActiveIndex count isMobileLayout perPage delta cur in
  (activeIndex cur = (-1)%Z ->
   activeIndex next = if (delta >? 0)%Z then 0%Z else (count - 1)%Z)
  /\ ((0 <= activeIndex cur < count)%Z -> (- count <= activeIndex cur + delta)%Z ->
      (0 <= activeIndex next < count)%Z
      /\ activeIndex next = ((activeIndex cur + delta) mod count)%Z)
  /\ ((0 <= activeIndex cur < count)%Z ->
      activeIndex (advanceActiveIndex count isMobileLayout perPage (-1)
                     (advanceActiveIndex count isMobileLayout perPage 1 cur))
      = activeIndex cur)
  /\ (isMobileLayout = false -> (0 <= activeIndex next)%Z ->
      (currentPage next * perPage <= activeIndex next
       < (currentPage next + 1) * perPage)%Z)
  /\ (isMobileLayout = true -> currentPage next = currentPage cur).
Proof.
  intros Hcount Hper.
  assert (Hrem : forall i d, (0 <= i < count)%Z -> (- count <= i + d)%Z ->
            Z.rem (i + d + count) count = ((i + d) mod count)%Z
            /\ (0 <= (i + d) mod count < count)%Z).
  { intros i d Hi Hd. split; [|apply Z.mod_pos_bound; lia].
    rewrite Z.rem_mod_nonneg by lia.
    replace (i + d + count)%Z with (i + d + 1 * count)%Z by lia.
    apply Z.mod_add. lia. }
  unfold advanceActiveIndex.
  destruct (Z.eqb_spec count 0) as [Hz | _]; [lia|].
  split; [|split; [|split; [|split]]].
  - intros ->. reflexivity.
  - intros Hi Hd. destruct (Z.eqb_spec (activeIndex cur) (-1)) as [He | _]; [lia|].
    cbn [activeIndex]. destruct (Hrem _ _ Hi Hd) as [-> Hb]. auto.
  - intros Hi. destruct (Z.eqb_spec (activeIndex cur) (-1)) as [He | _]; [lia|].
    cbn [activeIndex].
    destruct (Hrem (activeIndex cur) 1%Z Hi) as [H1 B1]; [lia|]. rewrite H1.
    destruct (Z.eqb_spec ((activeIndex cur + 1) mod count) (-1)) as [He | _]; [lia|].
    cbn [activeIndex].
    destruct (Hrem ((activeIndex cur + 1) mod count)%Z (-1)%Z B1) as [H2 _]; [lia|].
    rewrite H2. rewrite Zplus_mod_idemp_l.
    replace (activeIndex cur + 1 + -1)%Z with (activeIndex cur) by lia.
    apply Z.mod_small. exact Hi.
  - intros -> Hnext. cbn [negb] in *.
    destruct (activeIndex cur =? -1)%Z; cbn [activeIndex currentPage] in *;
      apply page_of_index; exact Hper.
  - intros ->. cbn [negb]. now destruct (activeIndex cur =? -1)%Z.
Qed.

Lemma advanceActiveIndex_wraps_witness :
  activeIndex (advanceActiveIndex 5 false 14 1 (mkCursor 4 0)) = 0%Z
  /\ activeIndex (advanceActiveIndex 5 false 14 (-1) (mkCursor 0 0)) = 4%Z.
Proof.
  split.
  - refine (proj2 (proj1 (proj2 (advanceActiveIndex_wraps 5 14 1 false (mkCursor 4 0)
                                   _ _)) _ _)); simpl; lia.
  - refine (proj2 (proj1 (proj2 (advanceActiveIndex_wraps 5 14 (-1) false (mkCursor 0 0)
                                   _ _)) _ _)); simpl; lia.
Defined.

(** ** Actions on the hidden ids and the custom apps *)

Lemma add_In x y s : In x (StrSet.add y s) <-> x = y \/ In x s.
Proof.
  unfold StrSet.add. destruct (Str.mem y s) eqn:Hm.
  - apply mem_In in Hm. split; [auto | intros [-> | H]; auto].
  - rewrite in_app_iff. simpl. intuition.
Qed.

Lemma add_NoDup y s : NoDup s -> NoDup (StrSet.add y s).
Proof.
  intros Hnd. unfold StrSet.add. destruct (Str.mem y s) eqn:Hm; [exact Hnd|].
  apply mem_false_not_In in Hm.
  apply NoDup_app; [exact Hnd | repeat constructor; intros [] |].
  intros x Hx [<- | []]. contradiction.
Qed.

Lemma ofList_from_spec l acc :
  (forall x, In x (fold_left (fun s y => StrSet.add y s) l acc) <-> In x acc \/ In x l)
  /\ (NoDup acc -> NoDup (fold_left (fun s y => StrSet.add y s) l acc)).
Proof.
  revert acc. induction l as [|y rest IH]; intros acc; simpl.
  - split; [intuition | auto].
  - destruct (IH (StrSet.add y acc)) as [Hin Hnd]. split.
    + intros x. rewrite Hin, add_In. intuition.
    + intros Hacc. apply Hnd. now apply add_NoDup.
Qed.

Lemma ofList_In l x : In x (StrSet.ofList l) <-> In x l.
Proof.
  unfold StrSet.ofList. destruct (ofList_from_spec l []) as [Hin _].
  rewrite Hin. simpl. intuition.
Qed.

Lemma ofList_is_set l : NoDup (StrSet.ofList l).
Proof.
  unfold StrSet.ofList. destruct (ofList_from_spec l []) as [_ Hnd].
  apply Hnd. constructor.
Qed.

Lemma delete_In x y s : In x (StrSet.delete y s) <-> In x s /\ x <> y.
Proof.
  unfold StrSet.delete. rewrite filter_In, negb_true_iff, String.eqb_neq. tauto.
Qed.

Lemma hidden_after_dedupe (set : list string) (apps : list LaunchpadApp) :
  Forall trimmed set ->
  dedupeHiddenIds (VArr (List.map VStr set)) apps
  = filter (fun i => nonEmpty i && Str.mem i (ids apps)) set.
Proof. intros Hset. unfold dedupeHiddenIds. now rewrite map_trimmed. Qed.

Lemma hideApp_hidden h clock appId st :
  appId <> "" ->
  hiddenAppIds (userData (hideApp h clock appId st))
  = dedupeHiddenIds
      (VArr (List.map VStr (StrSet.add appId (StrSet.ofList (hiddenAppIds (userData st))))))
      (catalogApps h clock st).
Proof. intros Hne. unfold hideApp. destruct appId; [congruence | reflexivity]. Qed.

Lemma showApp_hidden h clock appId st :
  appId <> "" ->
  hiddenAppIds (userData (showApp h clock appId st))
  = dedupeHiddenIds
      (VArr (List.map VStr (StrSet.delete appId (StrSet.ofList (hiddenAppIds (userData st))))))
      (catalogApps h clock st).
Proof. intros Hne. unfold showApp. destruct appId; [congruence | reflexivity]. Qed.

Lemma hideApp_rest h clock appId st :
  settings (hideApp h clock appId st) = settings st
  /\ baseCatalog (hideApp h clock appId st) = baseCatalog st
  /\ customApps (userData (hideApp h clock appId st)) = customApps (userData st)
  /\ pageSize (userData (hideApp h clock appId st)) = pageSize (userData st).
Proof. unfold hideApp. destruct (Str.isEmpty appId); repeat split. Qed.

Lemma showApp_rest h clock appId st :
  settings (showApp h clock appId st) = settings st
  /\ baseCatalog (showApp h clock appId st) = baseCatalog st
  /\ customApps (userData (showApp h clock appId st)) = customApps (userData st)
  /\ pageSize (userData (showApp h clock appId st)) = pageSize (userData st).
Proof. unfold showApp. destruct (Str.isEmpty appId); repeat split. Qed.

Lemma hideApp_clean h clock appId st :
  Forall cleanText (hiddenAppIds (userData st)) ->
  Forall cleanText (hiddenAppIds (userData (hideApp h clock appId st))).
Proof.
  intros Hclean. destruct (string_dec appId "") as [-> | Hne]; [exact Hclean|].
  rewrite hideApp_hidden by exact Hne. apply Forall_forall. intros i Hi.
  apply dedupeHiddenIds_sound in Hi. split; tauto.
Qed.

Lemma showApp_clean h clock appId st :
  Forall cleanText (hiddenAppIds (userData st)) ->
  Forall cleanText (hiddenAppIds (userData (showApp h clock appId st))).
Proof.
  intros Hclean. destruct (string_dec appId "") as [-> | Hne]; [exact Hclean|].
  rewrite showApp_hidden by exact Hne. apply Forall_forall. intros i Hi.
  apply dedupeHiddenIds_sound in Hi. split; tauto.
Qed.

(** X20. Hiding and showing, with hidden ids that are trimmed and an id that
    is not empty. After [showApp] the id is not hidden. After [hideApp] with a
    trimmed id, the id is hidden exactly when the merged collection has an
    app with it. Another id is hidden afterwards exactly when it was hidden
    before, is not empty and is an id of the merged collection. After
    [showApp], and after [hideApp] with a trimmed id, no hidden id is
    repeated, whatever repetitions there were before. The settings,
    the catalogue, the custom apps and the page size are not touched. *)
Theorem hide_show_contract (h : Host) (clock : nat -> N) (appId : string) (st : State) :
  Forall (fun i => Str.trim i = i) (hiddenAppIds (userData st)) ->
  appId <> "" ->
  let shown := showApp h clock appId st in
  let hidden := hideApp h clock appId st in
  ~ In appId (hiddenAppIds (userData shown))
  /\ (Str.trim appId = appId ->
      (In appId (hiddenAppIds (userData hidden))
       <-> In appId (ids (catalogApps h clock st))))
  /\ (forall j, j <> appId ->
        (In j (hiddenAppIds (userData shown))
         <-> In j (hiddenAppIds (userData st)) /\ j <> ""
             /\ In j (ids (catalogApps h clock st))))
  /\ (Str.trim appId = appId ->
      forall j, j <> appId ->
        (In j (hiddenAppIds (userData hidden))
         <-> In j (hiddenAppIds (userData st)) /\ j <> ""
             /\ In j (ids (catalogApps h clock st))))
  /\ NoDup (hiddenAppIds (userData shown))
  /\ (Str.trim appId = appId -> NoDup (hiddenAppIds (userData hidden)))
  /\ (settings shown = settings st /\ baseCatalog shown = baseCatalog st
      /\ customApps (userData shown) = customApps (userData st)
      /\ pageSize (userData shown) = pageSize (userData st))
  /\ (settings hidden = settings st /\ baseCatalog hidden = baseCatalog st
      /\ customApps (userData hidden) = customApps (userData st)
      /\ pageSize (userData hidden) = pageSize (userData st)).
Proof.
  intros Htrim Hne shown hidden.
  assert (Hdel : Forall trimmed
                   (StrSet.delete appId (StrSet.ofList (hiddenAppIds (userData st))))).
  { apply Forall_forall. intros i Hi. apply (proj1 (delete_In _ _ _)) in Hi. destruct Hi as [Hi _].
    apply (proj1 (ofList_In _ _)) in Hi. rewrite Forall_forall in Htrim. now apply Htrim. }
  assert (Hadd : Str.trim appId = appId ->
                 Forall trimmed
                   (StrSet.add appId (StrSet.ofList (hiddenAppIds (userData st))))).
  { intros Ht. apply Forall_forall. intros i Hi. apply (proj1 (add_In _ _ _)) in Hi.
    destruct Hi as [-> | Hi]; [exact Ht|].
    apply (proj1 (ofList_In _ _)) in Hi. rewrite Forall_forall in Htrim. now apply Htrim. }
  assert (Hshown : forall j, In j (hiddenAppIds (userData shown))
                     <-> (In j (hiddenAppIds (userData st)) /\ j <> appId)
                         /\ j <> "" /\ In j (ids (catalogApps h clock st))).
  { intros j. unfold shown. rewrite showApp_hidden, hidden_after_dedupe by assumption.
    rewrite filter_In, delete_In, ofList_In, andb_true_iff, nonEmpty_true, mem_In.
    tauto. }
  assert (Hhidden : Str.trim appId = appId ->
                    forall j, In j (hiddenAppIds (userData hidden))
                      <-> (j = appId \/ In j (hiddenAppIds (userData st)))
                          /\ j <> "" /\ In j (ids (catalogApps h clock st))).
  { intros Ht j. unfold hidden.
    rewrite hideApp_hidden, hidden_after_dedupe by auto.
    rewrite filter_In, add_In, ofList_In, andb_true_iff, nonEmpty_true, mem_In.
    tauto. }
  split; [|split; [|split; [|split; [|split; [|split; [|split]]]]]].
  - rewrite Hshown. tauto.
  - intros Ht. rewrite (Hhidden Ht). tauto.
  - intros j Hj. rewrite Hshown. tauto.
  - intros Ht j Hj. rewrite (Hhidden Ht). tauto.
  - unfold shown. rewrite showApp_hidden, hidden_after_dedupe by assumption.
    apply NoDup_filter. unfold StrSet.delete. apply NoDup_filter, ofList_is_set.
  - intros Ht. unfold hidden. rewrite hideApp_hidden, hidden_after_dedupe by auto.
    apply NoDup_filter, add_NoDup, ofList_is_set.
  - apply showApp_rest.
  - apply hideApp_rest.
Qed.

Lemma hide_show_contract_witness :
  ~ In "custom-mail"
      (hiddenAppIds (userData (showApp exampleHost noon "custom-mail" hiddenMailState))).
Proof.
  refine (proj1 (hide_show_contract exampleHost noon "custom-mail" hiddenMailState _ _)).
  - repeat constructor.
  - discriminate.
Defined.

Lemma filter_Forall {A} (P : A -> Prop) (p : A -> bool) (l : list A) :
  Forall P l -> Forall P (filter p l).
Proof.
  intros Hall. apply Forall_forall. intros x Hx. apply filter_In in Hx.
  rewrite Forall_forall in Hall. now apply Hall.
Qed.

Lemma filter_droppedOnly {A} (P : A -> Prop) (p : A -> bool) (l : list A) :
  (forall x, p x = false -> P x) -> droppedOnly P l (filter p l).
Proof.
  intros Hp. induction l as [|x l IH]; simpl; [constructor|].
  destruct (p x) eqn:Hx.
  - now apply droppedOnly_keep.
  - apply droppedOnly_drop; [now apply Hp | exact IH].
Qed.

(** What [droppedOnly] and the absence of [P] from the result say together
    leaves one list only. *)
Lemma droppedOnly_unique {A} (P : A -> Prop) (l l1 l2 : list A) :
  droppedOnly P l l1 -> Forall (fun x => ~ P x) l1 ->
  droppedOnly P l l2 -> Forall (fun x => ~ P x) l2 ->
  l1 = l2.
Proof.
  intros H1. revert l2.
  induction H1 as [|x l l1 H1 IH|x l l1 Hx H1 IH]; intros l2 Hno1 H2 Hno2.
  - now inversion H2.
  - inversion Hno1 as [|? ? Hnx Hno1']; subst.
    inversion H2 as [|? ? l2' H2'|? ? ? Hx' H2']; subst.
    + inversion Hno2; subst. f_equal. now apply IH.
    + contradiction.
  - inversion H2 as [|? ? l2' H2'|? ? ? Hx' H2']; subst.
    + inversion Hno2; subst. contradiction.
    + now apply IH.
Qed.

Lemma filter_keeps_all {A} (p : A -> bool) (l : list A) :
  (forall x, In x l -> p x = true) -> filter p l = l.
Proof.
  induction l as [|x l IH]; simpl; intros Hall; [reflexivity|].
  rewrite (Hall x (or_introl eq_refl)). f_equal. apply IH. auto.
Qed.

Lemma filter_twice {A} (p q : A -> bool) (l : list A) :
  filter p (filter q l) = filter q (filter p l).
Proof.
  induction l as [|x l IH]; simpl; [reflexivity|].
  destruct (q x) eqn:Hq, (p x) eqn:Hp; simpl; rewrite ?Hq, ?Hp, IH; reflexivity.
Qed.

Lemma filter_again {A} (p : A -> bool) (l : list A) :
  filter p (filter p l) = filter p l.
Proof.
  apply filter_keeps_all. intros x Hx. now apply filter_In in Hx.
Qed.

Lemma differs_true x y : differs x y = true <-> x <> y.
Proof. unfold differs. now rewrite negb_true_iff, String.eqb_neq. Qed.

Lemma differs_false x y : differs x y = false -> x = y.
Proof. unfold differs. rewrite negb_false_iff. apply String.eqb_eq. Qed.

(** X21. [removeCustomApp] leaves no custom app and no hidden id with the
    id. Of the custom apps only apps with the id are dropped and of the
    hidden ids only the id: the others stay, as often as they were there and
    in the order they had. So a list that holds the id once becomes what was
    before it followed by what was after it, and a state that holds the id
    nowhere is left as it is. Removing the same id again changes nothing, and
    two removals give the same state in either order. A valid state stays
    valid; the settings, the catalogue and the page size are not touched. *)
Theorem removeCustomApp_contract (appId : string) (st : State) :
  let st' := removeCustomApp appId st in
  ~ In appId (ids (customApps (userData st')))
  /\ ~ In appId (hiddenAppIds (userData st'))
  /\ droppedOnly (fun a => id a = appId)
       (customApps (userData st)) (customApps (userData st'))
  /\ droppedOnly (fun i => i = appId)
       (hiddenAppIds (userData st)) (hiddenAppIds (userData st'))
  /\ (forall a, In a (customApps (userData st'))
                <-> In a (customApps (userData st)) /\ id a <> appId)
  /\ (forall i, In i (hiddenAppIds (userData st'))
                <-> In i (hiddenAppIds (userData st)) /\ i <> appId)
  /\ (forall before a after,
        customApps (userData st) = (before ++ a :: after)%list ->
        id a = appId ->
        ~ In appId (ids before) -> ~ In appId (ids after) ->
        customApps (userData st') = (before ++ after)%list)
  /\ (forall before after,
        hiddenAppIds (userData st) = (before ++ appId :: after)%list ->
        ~ In appId before -> ~ In appId after ->
        hiddenAppIds (userData st') = (before ++ after)%list)
  /\ (~ In appId (ids (customApps (userData st))) ->
      ~ In appId (hiddenAppIds (userData st)) ->
      st' = st)
  /\ removeCustomApp appId st' = st'
  /\ (forall other,
        removeCustomApp other st' = removeCustomApp appId (removeCustomApp other st))
  /\ (forall h c, validState h c st -> validState h c st')
  /\ settings st' = settings st
  /\ baseCatalog st' = baseCatalog st
  /\ pageSize (userData st') = pageSize (userData st).
Proof.
  intros st'. subst st'.
  assert (Happ : forall a, In a (filter (fun a => differs (id a) appId)
                                   (customApps (userData st)))
                           <-> In a (customApps (userData st)) /\ id a <> appId).
  { intros a. rewrite filter_In, differs_true. tauto. }
  assert (Hid : forall i, In i (filter (fun i => differs i appId)
                                  (hiddenAppIds (userData st)))
                          <-> In i (hiddenAppIds (userData st)) /\ i <> appId).
  { intros i. rewrite filter_In, differs_true. tauto. }
  assert (Happs : forall l, ~ In appId (ids l) ->
                            filter (fun a => differs (id a) appId) l = l).
  { intros l Hno. apply filter_keeps_all. intros x Hx. apply differs_true.
    intros Heq. apply Hno. apply in_map_iff. now exists x. }
  assert (Hids : forall l, ~ In appId l -> filter (fun i => differs i appId) l = l).
  { intros l Hno. apply filter_keeps_all. intros x Hx. apply differs_true.
    intros ->. contradiction. }
  unfold removeCustomApp.
  cbn [setUserData userData settings baseCatalog customApps hiddenAppIds pageSize].
  split; [|split; [|split; [|split; [|split; [|split; [|split; [|split; [|split;
    [|split; [|split; [|split; [|split; [|split]]]]]]]]]]]]]; try reflexivity.
  - intros Hin. apply in_map_iff in Hin. destruct Hin as [a [Ha Hin]].
    apply Happ in Hin. tauto.
  - intros Hin. apply Hid in Hin. tauto.
  - apply filter_droppedOnly. intros a. apply differs_false.
  - apply filter_droppedOnly. intros i. apply differs_false.
  - exact Happ.
  - exact Hid.
  - intros before a after -> Ha Hbefore Hafter.
    rewrite filter_app. cbn [filter]. subst appId.
    unfold differs at 2. rewrite String.eqb_refl. cbn [negb].
    now rewrite (Happs before), (Happs after).
  - intros before after -> Hbefore Hafter.
    rewrite filter_app. cbn [filter].
    unfold differs at 2. rewrite String.eqb_refl. cbn [negb].
    now rewrite (Hids before), (Hids after).
  - intros Hnoapp Hnoid. rewrite (Happs _ Hnoapp), (Hids _ Hnoid).
    destruct st as [s [hidden apps size] catalog]. reflexivity.
  - now rewrite !filter_again.
  - intros other.
    rewrite (filter_twice (fun i => differs i other)).
    rewrite (filter_twice (fun a => differs (id a) other)). reflexivity.
  - intros h c [Hs (Hnd & Hclean & Hvalid & Hsize)].
    split; [exact Hs|].
    cbn [userData hiddenAppIds customApps pageSize].
    split; [now apply NoDup_filter|]. split; [now apply filter_Forall|].
    split; [now apply filter_Forall | exact Hsize].
Qed.

Lemma removeCustomApp_contract_witness :
  customApps (userData (removeCustomApp "custom-mail" hiddenMailState)) = []
  /\ hiddenAppIds (userData (removeCustomApp "custom-mail" hiddenMailState)) = []
  /\ removeCustomApp "custom-news" hiddenMailState = hiddenMailState
  /\ validState exampleHost exampleConstants
       (removeCustomApp "custom-mail" hiddenMailState).
Proof.
  pose proof (removeCustomApp_contract "custom-mail" hiddenMailState)
    as (_ & _ & _ & _ & _ & _ & Happs & Hids & _ & _ & _ & Hvalid & _).
  pose proof (removeCustomApp_contract "custom-news" hiddenMailState)
    as (_ & _ & _ & _ & _ & _ & _ & _ & Habsent & _).
  split; [|split; [|split]].
  - apply (Happs [] mailApp []); [reflexivity | reflexivity | | ]; intros [].
  - apply (Hids [] []); [reflexivity | | ]; intros [].
  - apply Habsent; simpl; intros [H | []]; discriminate H.
  - apply Hvalid. exact hiddenMailState_valid.
Defined.

(** ** Saving a custom app *)

Lemma sanitizeAppRecord_custom h c app a :
  sanitizeAppRecord h c app custom = Returns (Some a) -> validCustomApp h c a.
Proof.
  intros Hsan. pose proof (sanitizeAppRecord_fields h c app custom a Hsan)
    as (Hid & Hname & Hdesc & Hurl & Hicon & Htags & Horigin & Htype).
  unfold validCustomApp. repeat split; try assumption; try apply Hname.
  destruct Hurl as [Hempty | Hurl]; [|exact Hurl].
  exfalso. revert Hsan Hempty. unfold sanitizeAppRecord.
  destruct (Js.isObject app); [|discriminate]. simpl negb. cbv iota.
  destruct (sanitizeTagList h (Js.get app "tags")); [|discriminate].
  cbn [Try.bind andb].
  destruct (Str.isEmpty (trimmedString (Js.get app "name"))); [discriminate|].
  destruct (Str.isEmpty (sanitizeHttpUrl h (Js.get app "url"))) eqn:He;
    [discriminate|].
  simpl. intros [= <-]. cbn [url]. intros Hempty. rewrite Hempty in He. discriminate.
Qed.

Lemma printable_strings l : printable (VArr (List.map VStr l)) = true.
Proof. cbn [printable]. induction l as [|t rest IH]; [reflexivity | exact IH]. Qed.

(** A record whose tags are strings: [sanitizeAppRecord] does not throw. *)
Lemma sanitizeAppRecord_string_tags h c app o l :
  Js.get app "tags" = VArr (List.map VStr l) ->
  sanitizeAppRecord h c app o <> Throws.
Proof.
  intros Htags Hthrows. apply returned_false in Hthrows.
  rewrite sanitizeAppRecord_returned, Htags, printable_strings in Hthrows.
  rewrite orb_true_r in Hthrows. discriminate.
Qed.

(** The text a custom icon field holds, [""] when there is none. *)
Local Abbreviation customIconText input :=
  (match in_iconCustom input with Some s => s | None => "" end).

Local Abbreviation submittedId input :=
  (match in_id input with Some i => Str.trim i | None => "" end).

(** What a successful [submitCustomApp] leaves, with the branches on
    [previousId] resolved: it is the trimmed id of the input. *)
Lemma submitCustomApp_success h c clock now input st :
  succeeded (fst (submitCustomApp h c clock now input st)) = true ->
  exists baseApp,
    validCustomApp h c baseApp
    /\ name baseApp = Str.trim (in_name input)
    /\ id baseApp = submittedId input
    /\ let previousId := submittedId input in
       let targetId :=
         if Str.isEmpty previousId
         then freeId (StrSet.ofList (ids (catalogApps h clock st)))
                     (createSlugId now "custom" (name baseApp))
         else previousId in
       let prepared := with_origin (with_id baseApp targetId) custom in
       snd (submitCustomApp h c clock now input st)
       = setUserData st
           (mkUserData
              (filter (fun i => differs i previousId && differs i targetId)
                      (hiddenAppIds (userData st)))
              (filter (fun a => differs (id a) previousId && differs (id a) targetId)
                      (customApps (userData st)) ++ [prepared])%list
              (pageSize (userData st))).
Proof.
  unfold submitCustomApp.
  destruct (Str.isEmpty (Str.trim (in_name input))) eqn:Hname; [discriminate|].
  destruct (Str.isEmpty (sanitizeHttpUrl h (VStr (in_url input)))); [discriminate|].
  match goal with |- context [match ?icon with Some _ => _ | None => _ end] =>
    destruct icon as [icon_|] end; [|discriminate].
  match goal with |- context [sanitizeAppRecord h c ?raw custom] =>
    destruct (sanitizeAppRecord h c raw custom) as [[baseApp|]|] eqn:Hbase end;
    [|discriminate|discriminate].
  intros _. exists baseApp.
  assert (Hfields : name baseApp = Str.trim (in_name input)
                    /\ id baseApp = submittedId input).
  { revert Hbase. unfold sanitizeAppRecord. simpl Js.isObject. simpl negb. cbv iota.
    destruct (sanitizeTagList h _) as [tags_|]; [|discriminate]. cbn [Try.bind].
    match goal with |- (if ?b then _ else _) = _ -> _ => destruct b end;
      [discriminate|].
    intros [= <-]. cbn [name id]. split.
    - change (Js.get _ "name") with (VStr (Str.trim (in_name input))).
      cbn [trimmedString]. rewrite trim_idem, Hname. reflexivity.
    - destruct (in_id input); reflexivity. }
  destruct Hfields as [Hn Hi].
  split; [eapply sanitizeAppRecord_custom; exact Hbase|].
  split; [exact Hn|]. split; [exact Hi|].
  cbv zeta. cbn [snd]. rewrite Hi.
  assert (Htrim : Str.trim (submittedId input) = submittedId input).
  { destruct (in_id input); [apply trim_idem | reflexivity]. }
  destruct (Str.isEmpty (submittedId input)) eqn:He;
    cbv iota; rewrite ?He; cbv iota; rewrite ?Htrim; reflexivity.
Qed.

(** [submitCustomApp] hands [sanitizeAppRecord] tags that are strings. *)
Lemma submitCustomApp_never_throws h c clock now input st :
  fst (submitCustomApp h c clock now input st) <> Throws.
Proof.
  unfold submitCustomApp, failure.
  destruct (Str.isEmpty (Str.trim (in_name input))); [discriminate|].
  destruct (Str.isEmpty (sanitizeHttpUrl h (VStr (in_url input)))); [discriminate|].
  match goal with |- context [match ?icon with Some _ => _ | None => _ end] =>
    destruct icon as [icon_|] end; [|discriminate].
  match goal with |- context [sanitizeAppRecord h c ?raw custom] =>
    destruct (sanitizeAppRecord h c raw custom) as [[baseApp|]|] eqn:Hbase end;
    try discriminate.
  exfalso. eapply sanitizeAppRecord_string_tags; [|exact Hbase]. reflexivity.
Qed.

(** X22. The outcomes of [submitCustomApp]. A blank name, a link that
    [sanitizeHttpUrl] refuses, and the custom icon choice with a blank icon
    field are refused in that order, each with its message and with the state
    left as it was. With a URL parser that reads back what it prints, every
    other input is saved: the message about creating the app is never
    given. The call never throws. *)
Theorem submitCustomApp_outcome (h : Host) (c : Constants) (clock : nat -> N)
        (now : N) (input : CustomAppInput) (st : State) :
  let r := submitCustomApp h c clock now input st in
  let blankIcon :=
    in_iconChoice input = Some "custom" /\ Str.trim (customIconText input) = "" in
  (Str.trim (in_name input) = "" ->
   r = (Returns (mkResult false "Please enter a name."), st))
  /\ (Str.trim (in_name input) <> "" ->
      sanitizeHttpUrl h (VStr (in_url input)) = "" ->
      r = (Returns (mkResult false "Please enter a valid link."), st))
  /\ (Str.trim (in_name input) <> "" ->
      sanitizeHttpUrl h (VStr (in_url input)) <> "" ->
      blankIcon ->
      r = (Returns (mkResult false "Paste an icon URL or pick a preset."), st))
  /\ (urlPrintsCanonically h ->
      Str.trim (in_name input) <> "" ->
      sanitizeHttpUrl h (VStr (in_url input)) <> "" ->
      ~ blankIcon ->
      succeeded (fst r) = true)
  /\ (succeeded (fst r) = false -> snd r = st)
  /\ fst r <> Throws.
Proof.
  intros r blankIcon. subst r blankIcon.
  split; [|split; [|split; [|split; [|split]]]];
    [| | | | |apply submitCustomApp_never_throws];
    unfold submitCustomApp, failure.
  - intros ->. reflexivity.
  - intros Hname ->. apply isEmpty_false in Hname. rewrite Hname. reflexivity.
  - intros Hname Hurl [Hchoice Hblank].
    apply isEmpty_false in Hname, Hurl. rewrite Hname, Hurl, Hchoice.
    rewrite String.eqb_refl, Hblank. reflexivity.
  - intros Hlaw Hname Hurl Hicon.
    pose proof Hname as Hname'. pose proof Hurl as Hurl'.
    apply isEmpty_false in Hname', Hurl'. rewrite Hname', Hurl'.
    match goal with |- context [match ?icon with Some _ => _ | None => _ end] =>
      destruct icon as [icon_|] eqn:Hstep end.
    + match goal with |- context [sanitizeAppRecord h c ?raw custom] =>
        destruct (sanitizeAppRecord h c raw custom) as [[baseApp|]|] eqn:Hbase end;
        [reflexivity| |].
      * exfalso. revert Hbase. unfold sanitizeAppRecord.
        simpl Js.isObject. simpl negb. cbv iota.
        destruct (sanitizeTagList h _) as [tags_|]; [|discriminate]. cbn [Try.bind].
        change (Js.get _ "name") with (VStr (Str.trim (in_name input))).
        change (Js.get _ "url") with (VStr (sanitizeHttpUrl h (VStr (in_url input)))).
        cbn [trimmedString]. rewrite trim_idem, Hname'.
        destruct (sanitizeHttpUrl_cases h (VStr (in_url input))) as [He | Hcanon];
          [contradiction|].
        destruct (sanitizeHttpUrl_fixed h _ Hlaw Hcanon) as [-> _].
        rewrite Hurl'. discriminate.
      * exfalso. eapply sanitizeAppRecord_string_tags; [|exact Hbase]. reflexivity.
    + exfalso. apply Hicon.
      destruct (in_iconChoice input) as [choice|]; [|discriminate].
      destruct (String.eqb choice "custom") eqn:Hc; [|discriminate].
      apply String.eqb_eq in Hc. subst choice. split; [reflexivity|].
      destruct (Str.isEmpty (Str.trim (customIconText input))) eqn:He;
        [now apply isEmpty_true | discriminate].
  - destruct (Str.isEmpty (Str.trim (in_name input))); [reflexivity|].
    destruct (Str.isEmpty (sanitizeHttpUrl h (VStr (in_url input)))); [reflexivity|].
    match goal with |- context [match ?icon with Some _ => _ | None => _ end] =>
      destruct icon as [icon_|] end; [|reflexivity].
    match goal with |- context [sanitizeAppRecord h c ?raw custom] =>
      destruct (sanitizeAppRecord h c raw custom) as [[baseApp|]|] end;
      [discriminate | reflexivity | reflexivity].
Qed.

Lemma submitCustomApp_outcome_witness :
  succeeded (fst (submitCustomApp exampleHost exampleConstants noon 0 editMailForm
                    hiddenMailState)) = true.
Proof.
  refine (proj1 (proj2 (proj2 (proj2
            (submitCustomApp_outcome exampleHost exampleConstants noon 0 editMailForm
               hiddenMailState)))) _ _ _ _).
  - exact exampleHost_prints_canonically.
  - vm_compute. discriminate.
  - vm_compute. discriminate.
  - intros [Hchoice _]. vm_compute in Hchoice. discriminate.
Defined.

Lemma ids_filter_NoDup (p : LaunchpadApp -> bool) (l : list LaunchpadApp) :
  NoDup (ids l) -> NoDup (ids (filter p l)).
Proof.
  unfold ids. induction l as [|a rest IH]; simpl; intros Hnd; [constructor|].
  inversion Hnd as [|? ? Hnot Hrest]; subst.
  destruct (p a); simpl; [constructor|]; auto.
  intros Hin. apply Hnot. apply in_map_iff in Hin. destruct Hin as [b [Hb Hin]].
  apply filter_In in Hin. apply in_map_iff. exists b. tauto.
Qed.

(** X23. A successful [submitCustomApp] stores the saved record last among
    the custom apps, after the former ones whose id is neither the submitted
    id nor the id of the saved record. The saved record is a valid custom app
    under the trimmed name, with an id that is not empty: the submitted id
    when there is one, and otherwise an id that no app of the merged
    collection has. Custom apps with distinct ids keep distinct ids, valid
    ones stay valid, and the settings, the catalogue and the page size are
    not touched. *)
Theorem submitCustomApp_saves (h : Host) (c : Constants) (clock : nat -> N)
        (now : N) (input : CustomAppInput) (st : State) :
  succeeded (fst (submitCustomApp h c clock now input st)) = true ->
  let st' := snd (submitCustomApp h c clock now input st) in
  let submitted := match in_id input with Some i => Str.trim i | None => "" end in
  exists others prepared,
    customApps (userData st') = (others ++ [prepared])%list
    /\ validCustomApp h c prepared
    /\ name prepared = Str.trim (in_name input)
    /\ id prepared <> ""
    /\ (forall a, In a others
                  <-> In a (customApps (userData st))
                      /\ id a <> submitted /\ id a <> id prepared)
    /\ (submitted <> "" -> id prepared = submitted)
    /\ (submitted = "" -> ~ In (id prepared) (ids (catalogApps h clock st)))
    /\ (NoDup (ids (customApps (userData st))) ->
        NoDup (ids (customApps (userData st'))))
    /\ (Forall (validCustomApp h c) (customApps (userData st)) ->
        Forall (validCustomApp h c) (customApps (userData st')))
    /\ settings st' = settings st
    /\ baseCatalog st' = baseCatalog st
    /\ pageSize (userData st') = pageSize (userData st).
Proof.
  intros Hok st' submitted.
  destruct (submitCustomApp_success h c clock now input st Hok)
    as (baseApp & Hvalid & Hname & Hid & Hst).
  cbv zeta in Hst. fold submitted in Hst, Hid. subst st'. rewrite Hst.
  cbn [userData setUserData customApps settings baseCatalog pageSize].
  set (targetId := if Str.isEmpty submitted
                   then freeId (StrSet.ofList (ids (catalogApps h clock st)))
                               (createSlugId now "custom" (name baseApp))
                   else submitted).
  assert (Htarget : cleanText targetId).
  { unfold targetId. destruct (Str.isEmpty submitted) eqn:He.
    - apply freeId_clean, createSlugId_clean; [discriminate | reflexivity].
    - split; [|now apply isEmpty_false].
      unfold submitted. destruct (in_id input); [apply trim_idem | reflexivity]. }
  assert (Hprepared : validCustomApp h c (with_origin (with_id baseApp targetId) custom)).
  { destruct Hvalid as (_ & Hn & Hd & Hu & Hi & Ht & _ & Hty).
    unfold validCustomApp. cbn. repeat split; try assumption; apply Htarget || apply Hn. }
  assert (Hothers : forall a,
             In a (filter (fun a => differs (id a) submitted && differs (id a) targetId)
                     (customApps (userData st)))
             <-> In a (customApps (userData st))
                 /\ id a <> submitted /\ id a <> targetId).
  { intros a. unfold differs.
    rewrite filter_In, andb_true_iff, !negb_true_iff, !String.eqb_neq. tauto. }
  eexists _, _. split; [reflexivity|]. cbn [id name with_origin with_id].
  split; [exact Hprepared|]. split; [exact Hname|]. split; [apply Htarget|].
  split; [exact Hothers|].
  split; [|split; [|split; [|split; [|repeat split]]]].
  - intros Hne. unfold targetId. apply isEmpty_false in Hne. now rewrite Hne.
  - intros He. unfold targetId. rewrite He. simpl Str.isEmpty. cbv iota.
    intros Hin. apply (freeId_fresh (StrSet.ofList (ids (catalogApps h clock st)))
                         (createSlugId now "custom" (name baseApp))).
    now apply ofList_In.
  - intros Hnd. unfold ids. rewrite map_app. apply NoDup_app.
    + now apply ids_filter_NoDup.
    + simpl. repeat constructor. intros [].
    + intros i Hi [<- | []]. apply in_map_iff in Hi. destruct Hi as [a [Ha Hi]].
      apply Hothers in Hi. tauto.
  - intros Hall. apply Forall_app. split; [|constructor; [exact Hprepared | constructor]].
    apply Forall_forall. intros a Ha. apply Hothers in Ha.
    rewrite Forall_forall in Hall. now apply Hall.
Qed.

Lemma submitCustomApp_saves_witness :
  exists others prepared,
    customApps (userData (snd (submitCustomApp exampleHost exampleConstants noon 0
                                 editMailForm hiddenMailState)))
    = (others ++ [prepared])%list
    /\ name prepared = "Mail box".
Proof.
  destruct (submitCustomApp_saves exampleHost exampleConstants noon 0 editMailForm
              hiddenMailState)
    as (others & prepared & Happs & _ & Hname & _).
  - vm_compute. reflexivity.
  - exists others, prepared. split; [exact Happs | exact Hname].
Defined.

(** ** Settings, backups and the states the hook reaches *)

Lemma normalizePageSize_valid h c v n :
  pageConstantsOk c -> normalizePageSize h c v = Returns n ->
  validPageSize c (Some n).
Proof.
  intros Hok Hn. destruct (normalizePageSize_stepped h c Hok v n Hn) as [z ->].
  destruct (stepped_range c Hok z) as (p & -> & Hp & Hdiv).
  exists p. auto.
Qed.

Lemma normalizePageSize_of_number h c n :
  exists p, normalizePageSize h c (VNum n) = Returns p.
Proof. apply returned_true. now rewrite normalizePageSize_printable. Qed.

Lemma closeSettings_valid markCompleted st :
  validSettings (settings st) ->
  validSettings (settings (closeSettings markCompleted st)).
Proof.
  intros (Hrange & Himage & Hhide & Hdone). destruct markCompleted; simpl.
  - split; [|split; [|split]]; try assumption. now exists true.
  - split; [|split; [|split]]; assumption.
Qed.

Lemma updateSettingsFromForm_settings h c base partial s :
  defaultsUsable c ->
  updateSettingsFromForm h c base partial = Returns s ->
  settingsInRange s /\ cleanImage (backgroundImage s)
  /\ exists flag, hideDefaultApps s = Some flag.
Proof.
  intros Hdefaults Hs.
  split; [eapply updateSettingsFromForm_inRange; eassumption|].
  destruct (updateSettingsFromForm_returns h c base partial s Hs)
    as (_ & _ & _ & _ & _ & _ & Hbi & _ & Hhd & _).
  rewrite Hbi, Hhd. split; [apply sanitizeBackgroundImage_clean | eauto].
Qed.

(** The update [submitSettings] builds holds numbers: nothing throws, and
    the state it leaves is the one of its last lines. *)
Lemma submitSettings_returns h c input st :
  exists s p,
    updateSettingsFromForm h c (settings st)
      (VObj [("backgroundType", backgroundTypeToValue (f_backgroundType input));
             ("backgroundImage",
              VStr (if String.eqb (f_backgroundImageChoice input) "custom"
                    then match f_backgroundImageCustom input with
                         | Some s => s
                         | None => ""
                         end
                    else f_backgroundImageChoice input));
             ("backgroundColor", VStr (f_backgroundColor input));
             ("overlayOpacity", VNum (f_overlayOpacity input));
             ("blurStrength", VNum (f_blurStrength input));
             ("glassTintColor", VStr (f_glassTintColor input));
             ("glassTintOpacity", VNum (f_glassTintOpacity input));
             ("hasCompletedSetup", VBool true);
             ("hideDefaultApps", VBool (f_hideDefaultApps input));
             ("mobileLayout", layoutToValue (f_mobileLayout input))]) = Returns s
    /\ normalizePageSize h c (VNum (f_pageSize input)) = Returns p
    /\ submitSettings h c input st
       = closeSettings true
           (mkState s
              (mkUserData (hiddenAppIds (userData st)) (customApps (userData st))
                          (Some p))
              (baseCatalog st)).
Proof.
  destruct (normalizePageSize_of_number h c (f_pageSize input)) as [p Hp].
  unfold submitSettings. cbv zeta. rewrite Hp.
  match goal with |- context [updateSettingsFromForm h c ?base ?partial] =>
    destruct (updateSettingsFromForm h c base partial) as [s|] eqn:Hs
  end.
  - exists s, p. auto.
  - exfalso. apply returned_false in Hs.
    rewrite updateSettingsFromForm_returned in Hs. discriminate.
Qed.

(** X24. [submitSettings], with defaults the reconciler can fall back on and
    usable page constants: nothing in it throws; the settings it stores are
    valid and carry the background type, the "hide default apps" flag and the
    mobile layout of the form, the background image is the sanitised choice
    (the custom text when the choice is [custom]), the setup is marked as
    completed, and the page size is what [normalizePageSize] returns for the
    one of the form, within the bounds and on a step. The hidden ids, the
    custom apps and the catalogue are not touched. *)
Theorem submitSettings_contract (h : Host) (c : Constants)
        (input : SettingsFormInput) (st : State) :
  defaultsUsable c -> pageConstantsOk c ->
  let st' := submitSettings h c input st in
  validSettings (settings st')
  /\ hasCompletedSetup (settings st') = VBool true
  /\ backgroundType (settings st') = f_backgroundType input
  /\ hideDefaultApps (settings st') = Some (f_hideDefaultApps input)
  /\ mobileLayout (settings st') = Some (f_mobileLayout input)
  /\ backgroundImage (settings st')
     = sanitizeBackgroundImage
         (VStr (if String.eqb (f_backgroundImageChoice input) "custom"
                then match f_backgroundImageCustom input with
                     | Some s => s
                     | None => ""
                     end
                else f_backgroundImageChoice input))
  /\ validPageSize c (pageSize (userData st'))
  /\ (exists p, normalizePageSize h c (VNum (f_pageSize input)) = Returns p
                /\ pageSize (userData st') = Some p)
  /\ hiddenAppIds (userData st') = hiddenAppIds (userData st)
  /\ customApps (userData st') = customApps (userData st)
  /\ baseCatalog st' = baseCatalog st.
Proof.
  intros Hdefaults Hok st'. subst st'.
  destruct (submitSettings_returns h c input st) as (s & p & Hs & Hp & ->).
  destruct (updateSettingsFromForm_settings h c _ _ s Hdefaults Hs)
    as (Hrange & Himage & Hflag).
  destruct (updateSettingsFromForm_returns h c _ _ s Hs)
    as (_ & _ & _ & _ & Hbt & _ & Hbi & _ & Hhd & Hml & _).
  cbn [closeSettings setSettings settings userData baseCatalog withCompletedSetup
       hasCompletedSetup backgroundType hideDefaultApps mobileLayout backgroundImage
       pageSize hiddenAppIds customApps].
  split; [|split; [reflexivity|split; [|split; [|split; [|split; [exact Hbi|]]]]]].
  - split; [|split; [|split]].
    + destruct Hrange as (H1 & H2 & H3 & H4 & H5 & H6).
      unfold settingsInRange. cbn. repeat split; assumption.
    + exact Himage.
    + exact Hflag.
    + eexists. reflexivity.
  - rewrite Hbt. destruct (f_backgroundType input); reflexivity.
  - exact Hhd.
  - rewrite Hml. destruct (f_mobileLayout input); reflexivity.
  - split; [eapply normalizePageSize_valid; eassumption|].
    split; [eauto|]. repeat split.
Qed.

Lemma submitSettings_contract_witness :
  validSettings (settings (submitSettings exampleHost exampleConstants hideDefaultsForm
                             hiddenMailState)).
Proof.
  refine (proj1 (submitSettings_contract exampleHost exampleConstants hideDefaultsForm
                   hiddenMailState _ _)).
  - exact exampleConstants_usable.
  - exact exampleConstants_pageOk.
Defined.

Lemma isBoolean_true v : Js.isBoolean v = true -> exists b, v = VBool b.
Proof. destruct v; try discriminate. eauto. Qed.

Lemma importSettings_valid h c st raw s :
  defaultsUsable c -> validSettings (settings st) ->
  importSettings h c st raw = Returns s ->
  validSettings s.
Proof.
  intros Hdefaults (_ & _ & _ & [done Hdone]). unfold importSettings.
  match goal with |- context [updateSettingsFromForm h c ?base ?partial] =>
    destruct (updateSettingsFromForm h c base partial) as [sanitized|] eqn:Hs
  end; [|discriminate].
  cbn [Try.bind]. intros [= <-].
  destruct (updateSettingsFromForm_settings h c _ _ sanitized Hdefaults Hs)
    as (Hrange & Himage & Hflag).
  split; [|split; [|split]].
  - destruct Hrange as (H1 & H2 & H3 & H4 & H5 & H6).
    unfold settingsInRange. cbn. repeat split; assumption.
  - exact Himage.
  - exact Hflag.
  - cbn. destruct (Js.isBoolean (Js.get raw "hasCompletedSetup")) eqn:Hb.
    + apply isBoolean_true in Hb. exact Hb.
    + rewrite Hdone. simpl. now exists done.
Qed.

Lemma keepSome_sanitized h c entries records :
  Try.each (fun e => sanitizeAppRecord h c e custom) entries = Returns records ->
  Forall (validCustomApp h c) (keepSome records).
Proof.
  intros Heach. apply each_results in Heach.
  induction Heach as [|e record rest records' Hrecord _ IH]; simpl; [constructor|].
  destruct record as [a|]; [|exact IH].
  constructor; [|exact IH]. eapply sanitizeAppRecord_custom. exact Hrecord.
Qed.

Lemma importUserData_valid h c raw u :
  pageConstantsOk c -> validUserData h c (defaultUserData c) ->
  importUserData h c raw = Returns u ->
  validUserData h c u.
Proof.
  intros Hok (Hnd & Hclean & Happs & _). unfold importUserData, mergeUserData.
  assert (Hcustom : forall apps,
             match Js.get raw "customApps" with
             | VArr entries =>
                 records <- Try.each (fun e => sanitizeAppRecord h c e custom) entries ;;
                 Returns (Some (keepSome records))
             | _ => Returns None
             end = Returns apps ->
             Forall (validCustomApp h c)
               match apps with Some l => l | None => customApps (defaultUserData c) end).
  { intros apps. destruct (Js.get raw "customApps");
      try (intros [= <-]; exact Happs).
    destruct (Try.each _ items) as [records|] eqn:Heach; [|discriminate].
    cbn [Try.bind]. intros [= <-]. eapply keepSome_sanitized. exact Heach. }
  match goal with |- Try.bind ?e _ = _ -> _ =>
    destruct e as [apps|] eqn:Happs'; [|discriminate] end.
  cbn [Try.bind p_hiddenAppIds p_customApps p_pageSize].
  match goal with |- context [normalizePageSize h c ?v] =>
    destruct (normalizePageSize h c v) as [size|] eqn:Hsize; [|discriminate] end.
  cbn [Try.bind]. intros [= <-].
  split; [|split; [|split]]; cbn [hiddenAppIds customApps pageSize].
  - destruct (Js.get raw "hiddenAppIds"); try exact Hnd. apply ofList_is_set.
  - destruct (Js.get raw "hiddenAppIds"); try exact Hclean.
    apply Forall_forall. intros i Hi. apply (proj1 (ofList_In _ _)) in Hi.
    apply filter_In in Hi. destruct Hi as [Hin Hne].
    apply in_map_iff in Hin. destruct Hin as [x [<- _]].
    split; [apply trimmedString_clean | now apply nonEmpty_true].
  - now apply Hcustom.
  - eapply normalizePageSize_valid; eassumption.
Qed.

(** The state an import leaves: each half is what it was or what was
    imported; the catalogue is what it was. *)
Lemma importBackup_state h c data st :
  (settings (snd (importBackup h c data st)) = settings st
   \/ importSettings h c st (Js.get data "settings")
      = Returns (settings (snd (importBackup h c data st))))
  /\ (userData (snd (importBackup h c data st)) = userData st
      \/ importUserData h c (Js.get data "userData")
         = Returns (userData (snd (importBackup h c data st))))
  /\ baseCatalog (snd (importBackup h c data st)) = baseCatalog st.
Proof.
  unfold importBackup, failure.
  destruct (Js.isObject data); simpl negb; cbv iota; [|auto].
  destruct (negb (Js.truthy (Js.get data "settings"))
            && negb (Js.truthy (Js.get data "userData"))); [auto|].
  destruct (Js.isObject (Js.get data "settings"));
    [destruct (importSettings h c st (Js.get data "settings")) as [sanitized|]|];
    cbn [Try.bind];
    (destruct (Js.isObject (Js.get data "userData"));
     [destruct (importUserData h c (Js.get data "userData")) as [merged|]|]);
    cbn [Try.bind negb andb fst snd setSettings setUserData settings userData
         baseCatalog]; auto.
Qed.

(** X25. [importBackup] keeps a valid state valid, whatever the file holds
    and whether the call returns or throws: with defaults the reconciler can
    fall back on, usable page constants and valid default user data, the
    state after an import of any value is valid when the state before was. *)
Theorem importBackup_keeps_valid (h : Host) (c : Constants) (data : value) (st : State) :
  defaultsUsable c -> pageConstantsOk c ->
  validUserData h c (defaultUserData c) ->
  validState h c st ->
  validState h c (snd (importBackup h c data st)).
Proof.
  intros Hdefaults Hok Hdata [Hs Hu].
  destruct (importBackup_state h c data st) as ([Hs' | Hs'] & [Hu' | Hu'] & _);
    split; rewrite ?Hs', ?Hu'; try assumption;
    try (eapply importSettings_valid; eassumption);
    try (eapply importUserData_valid; eassumption).
Qed.

Lemma exampleDefaults_valid :
  validUserData exampleHost exampleConstants (defaultUserData exampleConstants).
Proof.
  split; [constructor|]. split; [constructor|]. split; [constructor|].
  exists 28%Z. simpl. repeat split; try lia. exists 4%Z. reflexivity.
Qed.

Lemma importBackup_keeps_valid_witness :
  validState exampleHost exampleConstants
    (snd (importBackup exampleHost exampleConstants twoFoosBackup hiddenMailState))
  /\ validState exampleHost exampleConstants
       (snd (importBackup exampleHost exampleConstants halfReadableBackup
               hiddenMailState)).
Proof.
  split; apply importBackup_keeps_valid;
    first [ exact exampleConstants_usable | exact exampleConstants_pageOk
          | exact exampleDefaults_valid | exact hiddenMailState_valid ].
Defined.

Lemma step_wellFormed h c st st' :
  defaultsUsable c -> pageConstantsOk c ->
  validUserData h c (defaultUserData c) ->
  step h c st st' -> wellFormed h c st -> wellFormed h c st'.
Proof.
  intros Hdefaults Hok Hdata Hstep (Hs & Hhidden & Happs & Hsize).
  destruct Hstep.
  - (* the catalogue arrives *)
    split; [|split; [|split]]; assumption.
  - destruct (hideApp_rest h clock appId st) as (Hs' & _ & Ha' & Hp').
    unfold wellFormed. rewrite Hs', Ha', Hp'.
    split; [|split; [|split]]; try assumption. now apply hideApp_clean.
  - destruct (showApp_rest h clock appId st) as (Hs' & _ & Ha' & Hp').
    unfold wellFormed. rewrite Hs', Ha', Hp'.
    split; [|split; [|split]]; try assumption. now apply showApp_clean.
  - unfold wellFormed, removeCustomApp. cbn.
    split; [exact Hs|]. split; [now apply filter_Forall|].
    split; [now apply filter_Forall | exact Hsize].
  - destruct (succeeded (fst (submitCustomApp h c clock now input st))) eqn:Hok'.
    + destruct (submitCustomApp_success h c clock now input st Hok')
        as (baseApp & Hvalid & _ & _ & ->).
      unfold wellFormed. cbn.
      split; [exact Hs|]. split; [now apply filter_Forall|]. split; [|exact Hsize].
      apply Forall_app. split; [now apply filter_Forall|].
      constructor; [|constructor].
      destruct Hvalid as (_ & Hn & Hd & Hu & Hi & Ht & _ & Hty).
      unfold validCustomApp. cbn.
      split; [|split; [|split; [|split; [|split; [|split; [|split]]]]]];
        try assumption; try reflexivity.
      match goal with |- trimmed (if ?b then _ else _) => destruct b eqn:He end.
      * apply freeId_clean, createSlugId_clean; [discriminate | reflexivity].
      * destruct (in_id input); [apply trim_idem | reflexivity].
    + assert (Hsame : snd (submitCustomApp h c clock now input st) = st).
      { revert Hok'. unfold submitCustomApp, failure.
        destruct (Str.isEmpty (Str.trim (in_name input))); [reflexivity|].
        destruct (Str.isEmpty (sanitizeHttpUrl h (VStr (in_url input))));
          [reflexivity|].
        match goal with |- context [match ?icon with Some _ => _ | None => _ end] =>
          destruct icon as [icon_|] end; [|reflexivity].
        match goal with |- context [sanitizeAppRecord h c ?raw custom] =>
          destruct (sanitizeAppRecord h c raw custom) as [[baseApp|]|] end;
          [discriminate | reflexivity | reflexivity]. }
      rewrite Hsame. split; [|split; [|split]]; assumption.
  - unfold wellFormed, setDesktopPageSize.
    destruct (normalizePageSize h c (VNum size)) as [normalized|] eqn:Hsize';
      [|split; [|split; [|split]]; assumption].
    cbn. split; [|split; [|split]]; try assumption.
    eapply normalizePageSize_valid; eassumption.
  - split; [now apply closeSettings_valid|].
    destruct markCompleted; (split; [|split]); assumption.
  - destruct (submitSettings_returns h c input st) as (s & p & Hs' & Hp & ->).
    destruct (updateSettingsFromForm_settings h c _ _ s Hdefaults Hs')
      as (Hrange & Himage & Hflag).
    split; [|cbn; split; [|split]; try assumption;
             eapply normalizePageSize_valid; eassumption].
    apply (closeSettings_valid true). cbn [settings].
    destruct (updateSettingsFromForm_returns h c _ _ s Hs')
      as (_ & _ & _ & _ & _ & _ & _ & _ & _ & _ & Hdone).
    split; [exact Hrange|]. split; [exact Himage|]. split; [exact Hflag|].
    rewrite Hdone. eexists. reflexivity.
  - destruct (importBackup_state h c data st) as ([Hs' | Hs'] & [Hu' | Hu'] & _);
      unfold wellFormed; rewrite ?Hs', ?Hu';
      try (pose proof (importUserData_valid h c _ _ Hok Hdata Hu')
             as (_ & Hh' & Ha' & Hp'));
      try (pose proof (importSettings_valid h c st _ _ Hdefaults Hs Hs'));
      (split; [|split; [|split]]); assumption.
Qed.

(** X26. Every state the hook reaches from valid defaults, by any sequence
    of arrivals of the catalogue and of actions with any arguments, has valid
    settings, hidden ids that are trimmed and not empty, valid custom apps
    and a page size within the bounds and on a step. *)
Theorem reachable_wellFormed (h : Host) (c : Constants) (st : State) :
  defaultsUsable c -> pageConstantsOk c ->
  validSettings (defaultSettings c) ->
  validUserData h c (defaultUserData c) ->
  reachable h c st -> wellFormed h c st.
Proof.
  intros Hdefaults Hok Hsettings Hdata Hreach.
  induction Hreach as [|st st' _ IH Hstep].
  - destruct Hdata as (_ & Hh & Ha & Hp). split; [|split; [|split]]; assumption.
  - eapply step_wellFormed; eassumption.
Qed.

Lemma reachable_wellFormed_witness : wellFormed exampleHost exampleConstants staleState.
Proof.
  apply reachable_wellFormed.
  - exact exampleConstants_usable.
  - exact exampleConstants_pageOk.
  - exact exampleSettings_valid.
  - exact exampleDefaults_valid.
  - unfold staleState.
    eapply reachable_step; [|apply step_submit_settings].
    eapply reachable_step; [|apply step_hide].
    eapply reachable_step; [|apply step_catalog].
    apply reachable_initial.
Defined.

(** ** The page size the viewport allows *)

Lemma desktopPageSizeLimit_fits_aux (h : Host) c rawLimit :
  pageConstantsOk c ->
  (MIN_PAGE_SIZE c <= desktopPageSizeLimit c rawLimit <= MAX_PAGE_SIZE c)%Z
  /\ (PAGE_SIZE_STEP c | desktopPageSizeLimit c rawLimit)%Z.
Proof.
  intros (Hle & Hpos & [a Ha] & _). unfold desktopPageSizeLimit.
  set (lo := MIN_PAGE_SIZE c) in *. set (hi := MAX_PAGE_SIZE c) in *.
  set (stp := PAGE_SIZE_STEP c) in *. set (capped := Z.min rawLimit hi).
  destruct (Z.leb_spec capped lo) as [Hsmall | Hbig].
  - split; [lia | now exists a].
  - pose proof (Z.mul_div_le (capped - lo) stp Hpos) as Hdown.
    pose proof (Z.div_pos (capped - lo) stp ltac:(lia) Hpos) as Hsteps.
    assert (Hcap : (capped <= hi)%Z) by (unfold capped; lia).
    split; [nia|]. exists (a + (capped - lo) / stp)%Z. rewrite Ha. ring.
Qed.

(** X27. With usable page constants [desktopPageSizeLimit] is a page size:
    within the bounds and on a step, so that [normalizePageSize] leaves it as
    it is. It is the largest page size that is not above the raw limit, and
    the smallest page size when no page size is. *)
Theorem desktopPageSizeLimit_largest (h : Host) (c : Constants) (rawLimit : Z) :
  pageConstantsOk c ->
  let limit := desktopPageSizeLimit c rawLimit in
  (MIN_PAGE_SIZE c <= limit <= MAX_PAGE_SIZE c)%Z
  /\ (PAGE_SIZE_STEP c | limit)%Z
  /\ normalizePageSize h c (VNum (Num.ofZ limit)) = Returns (Num.ofZ limit)
  /\ ((MIN_PAGE_SIZE c <= rawLimit)%Z -> (limit <= rawLimit)%Z)
  /\ ((rawLimit < MIN_PAGE_SIZE c)%Z -> limit = MIN_PAGE_SIZE c)
  /\ (forall p, (MIN_PAGE_SIZE c <= p <= MAX_PAGE_SIZE c)%Z ->
                (PAGE_SIZE_STEP c | p)%Z -> (p <= rawLimit)%Z -> (p <= limit)%Z).
Proof.
  intros Hok limit. pose proof Hok as (Hle & Hpos & [a Ha] & [b Hb] & _).
  assert (Hfacts :
            (MIN_PAGE_SIZE c <= limit <= MAX_PAGE_SIZE c)%Z
            /\ (PAGE_SIZE_STEP c | limit)%Z
            /\ ((MIN_PAGE_SIZE c <= rawLimit)%Z -> (limit <= rawLimit)%Z)
            /\ ((rawLimit < MIN_PAGE_SIZE c)%Z -> limit = MIN_PAGE_SIZE c)
            /\ (forall p, (MIN_PAGE_SIZE c <= p <= MAX_PAGE_SIZE c)%Z ->
                          (PAGE_SIZE_STEP c | p)%Z -> (p <= rawLimit)%Z ->
                          (p <= limit)%Z)).
  { subst limit. unfold desktopPageSizeLimit.
    set (lo := MIN_PAGE_SIZE c) in *. set (hi := MAX_PAGE_SIZE c) in *.
    set (stp := PAGE_SIZE_STEP c) in *. set (capped := Z.min rawLimit hi).
    destruct (Z.leb_spec capped lo) as [Hsmall | Hbig].
    - split; [lia|]. split; [now exists a|]. split; [lia|]. split; [reflexivity|].
      intros p Hp [k Hk] Hraw. unfold capped in Hsmall. lia.
    - pose proof (Z.mul_div_le (capped - lo) stp Hpos) as Hdown.
      pose proof (Z.div_pos (capped - lo) stp ltac:(lia) Hpos) as Hsteps.
      assert (Hcap : (capped <= hi)%Z) by (unfold capped; lia).
      assert (Hcapr : (capped <= rawLimit)%Z) by (unfold capped; lia).
      split; [nia|]. split.
      + exists (a + (capped - lo) / stp)%Z. rewrite Ha. ring.
      + split; [nia|]. split; [unfold capped in Hbig; lia|].
        intros p Hp [k Hk] Hraw.
        assert (Hpc : (p <= capped)%Z) by (unfold capped; lia).
        assert (Hdiv : ((p - lo) / stp <= (capped - lo) / stp)%Z)
          by (apply Z.div_le_mono; lia).
        assert (Hexact : ((p - lo) / stp * stp = p - lo)%Z).
        { replace (p - lo)%Z with ((k - a) * stp)%Z by (rewrite Hk, Ha; ring).
          rewrite Z.div_mul by lia. reflexivity. }
        nia. }
  destruct Hfacts as (Hrange & Hdiv & Hraw & Hmin & Hmax).
  split; [exact Hrange|]. split; [exact Hdiv|].
  split; [now apply normalizePageSize_fixed|]. auto.
Qed.

Lemma desktopPageSizeLimit_largest_witness :
  desktopPageSizeLimit exampleConstants 40 = 35%Z
  /\ (14 <= desktopPageSizeLimit exampleConstants 40 <= 56)%Z.
Proof.
  split; [reflexivity|].
  refine (proj1 (desktopPageSizeLimit_largest exampleHost exampleConstants 40 _)).
  exact exampleConstants_pageOk.
Defined.

Lemma desktopPageSize_returns h c st : exists p, desktopPageSize h c st = Returns p.
Proof.
  apply returned_true. unfold desktopPageSize. rewrite normalizePageSize_printable.
  now destruct (pageSize (userData st)).
Qed.

Lemma desktopPageSize_set h c z st :
  pageConstantsOk c ->
  (MIN_PAGE_SIZE c <= z <= MAX_PAGE_SIZE c)%Z -> (PAGE_SIZE_STEP c | z)%Z ->
  desktopPageSize h c (setDesktopPageSize h c (Num.ofZ z) st) = Returns (Num.ofZ z).
Proof.
  intros Hok Hz Hdiv. unfold desktopPageSize, setDesktopPageSize.
  rewrite (normalizePageSize_fixed h c Hok z Hz Hdiv). cbn.
  apply (normalizePageSize_fixed h c Hok z Hz Hdiv).
Qed.

(** X28. The effect that holds the page size under the limit of the
    viewport, on the desktop layout with usable page constants and a smallest
    page size above zero. The hook has a page size before and after, nothing
    throws; afterwards the page size of the hook is not above the limit; a
    state whose page size is not above the limit is left as it is, so that
    running the effect again changes nothing; the mobile layout and missing
    grid metrics leave every state as it is. The settings, the hidden ids and
    the custom apps are never touched. *)
Theorem enforcePageSizeLimit_contract (h : Host) (c : Constants) (rawLimit : Z)
        (st : State) :
  pageConstantsOk c -> (0 < MIN_PAGE_SIZE c)%Z ->
  let limit := desktopPageSizeLimit c rawLimit in
  let st' := enforcePageSizeLimit h c false (Some limit) st in
  exists size size',
    desktopPageSize h c st = Returns size
    /\ desktopPageSize h c st' = Returns size'
    /\ Num.le size' (Num.ofZ limit) = true
    /\ (Num.le size (Num.ofZ limit) = true -> st' = st)
    /\ (Num.le size (Num.ofZ limit) = false -> size' = Num.ofZ limit)
    /\ enforcePageSizeLimit h c false (Some limit) st' = st'
    /\ enforcePageSizeLimit h c true (Some limit) st = st
    /\ enforcePageSizeLimit h c false None st = st
    /\ settings st' = settings st
    /\ hiddenAppIds (userData st') = hiddenAppIds (userData st)
    /\ customApps (userData st') = customApps (userData st).
Proof.
  intros Hok Hmin limit st'.
  destruct (desktopPageSizeLimit_fits_aux h c rawLimit Hok) as (Hrange & Hdiv).
  fold limit in Hrange, Hdiv.
  assert (Hnz : (limit =? 0)%Z = false) by (apply Z.eqb_neq; lia).
  destruct (desktopPageSize_returns h c st) as [size Hsize].
  pose proof (desktopPageSize_set h c limit st Hok Hrange Hdiv) as Hset.
  pose proof (normalizePageSize_fixed h c Hok limit Hrange Hdiv) as Hfixed.
  assert (Hst' : st' = if Num.le size (Num.ofZ limit) then st
                       else setDesktopPageSize h c (Num.ofZ limit) st).
  { subst st'. unfold enforcePageSizeLimit. rewrite Hsize, Hnz. reflexivity. }
  assert (Hafter : exists size', desktopPageSize h c st' = Returns size'
                                 /\ Num.le size' (Num.ofZ limit) = true
                                 /\ (Num.le size (Num.ofZ limit) = false ->
                                     size' = Num.ofZ limit)).
  { rewrite Hst'. destruct (Num.le size (Num.ofZ limit)) eqn:Hle.
    - exists size. split; [exact Hsize|]. split; [exact Hle | discriminate].
    - exists (Num.ofZ limit). split; [exact Hset|].
      split; [rewrite le_ofZ; apply Z.leb_refl | reflexivity]. }
  destruct Hafter as (size' & Hsize' & Hunder & Hover).
  exists size, size'.
  split; [exact Hsize|]. split; [exact Hsize'|]. split; [exact Hunder|].
  split; [|split; [exact Hover|split; [|split; [|split]]]].
  - intros Hle. rewrite Hst', Hle. reflexivity.
  - unfold enforcePageSizeLimit at 1. now rewrite Hsize', Hnz, Hunder.
  - unfold enforcePageSizeLimit. now destruct (desktopPageSize h c st).
  - reflexivity.
  - rewrite Hst'. unfold setDesktopPageSize. rewrite Hfixed.
    destruct (Num.le size (Num.ofZ limit)); repeat split.
Qed.

Lemma enforcePageSizeLimit_contract_witness :
  desktopPageSize exampleHost exampleConstants
    (enforcePageSizeLimit exampleHost exampleConstants false
       (Some (desktopPageSizeLimit exampleConstants 20)) hiddenMailState)
  = Returns (Num.ofZ 14).
Proof.
  destruct (enforcePageSizeLimit_contract exampleHost exampleConstants 20
              hiddenMailState exampleConstants_pageOk eq_refl)
    as (size & size' & Hsize & Hsize' & _ & _ & Hover & _).
  rewrite Hsize'. f_equal. apply Hover.
  revert Hsize. vm_compute. intros [= <-]. reflexivity.
Defined.

(** ** Backups that hold a part of the state *)

Lemma importUserData_defaults h c raw u :
  importUserData h c raw = Returns u ->
  (Js.isArray (Js.get raw "hiddenAppIds") = false ->
   hiddenAppIds u = hiddenAppIds (defaultUserData c))
  /\ (Js.isArray (Js.get raw "customApps") = false ->
      customApps u = customApps (defaultUserData c))
  /\ (Js.nullish (Js.get raw "pageSize") = true ->
      normalizePageSize h c (Js.ofOption VNum (pageSize (defaultUserData c)))
      = Returns match pageSize u with Some p => p | None => NaN end
      /\ pageSize u <> None).
Proof.
  unfold importUserData, mergeUserData.
  cbn [p_hiddenAppIds p_customApps p_pageSize].
  destruct (Js.get raw "customApps") as [| |b|n|s|entries|fields] eqn:Hca;
    [| | | | |destruct (Try.each _ entries) as [records|]; [|discriminate]|];
    cbn [Try.bind];
    (match goal with |- context [normalizePageSize h c ?v] =>
       destruct (normalizePageSize h c v) as [size|] eqn:Hsize; [|discriminate] end);
    cbn [Try.bind]; intros [= <-]; cbn [hiddenAppIds customApps pageSize];
    (split; [|split]);
    try (destruct (Js.get raw "hiddenAppIds"); try reflexivity; discriminate);
    try reflexivity; try discriminate;
    intros Hnull; unfold Js.orElse in Hsize; rewrite Hnull in Hsize;
    (split; [|discriminate]);
    now destruct (Js.nullish (Js.ofOption VNum (pageSize (defaultUserData c)))).
Qed.

(** X29. [importBackup] of an object. The call throws exactly when a part
    that is an object makes its reconciler throw. A part that is not an
    object leaves its half of the state as it was. Settings that are an
    object and reconcile are set, also when the user data then make the call
    throw; user data that make it throw leave the user data as they were. A
    call that returns names the half it imported, and its imported
    [userData] replace the whole user data: a list they do not hold as an
    array is taken from the default user data, not from the current state,
    and the page size is the normalised default page size when they hold
    none. The catalogue is never touched. *)
Theorem importBackup_partial (h : Host) (c : Constants) (data : value) (st : State) :
  Js.isObject data = true ->
  let rawSettings := Js.get data "settings" in
  let rawUserData := Js.get data "userData" in
  let r := importBackup h c data st in
  (fst r = Throws <->
   (Js.isObject rawSettings = true /\ importSettings h c st rawSettings = Throws)
   \/ (Js.isObject rawUserData = true /\ importUserData h c rawUserData = Throws))
  /\ (Js.isObject rawUserData = false -> userData (snd r) = userData st)
  /\ (Js.isObject rawSettings = false -> settings (snd r) = settings st)
  /\ (forall s, Js.isObject rawSettings = true ->
                importSettings h c st rawSettings = Returns s ->
                settings (snd r) = s)
  /\ (importUserData h c rawUserData = Throws -> userData (snd r) = userData st)
  /\ (fst r <> Throws ->
      Js.isObject rawSettings = true -> Js.isObject rawUserData = false ->
      fst r = Returns (mkResult true "Imported settings successfully."))
  /\ (fst r <> Throws ->
      Js.isObject rawSettings = false -> Js.isObject rawUserData = true ->
      fst r = Returns (mkResult true "Imported app data successfully."))
  /\ (fst r <> Throws -> Js.isObject rawUserData = true ->
      importUserData h c rawUserData = Returns (userData (snd r))
      /\ (Js.isArray (Js.get rawUserData "hiddenAppIds") = false ->
          hiddenAppIds (userData (snd r)) = hiddenAppIds (defaultUserData c))
      /\ (Js.isArray (Js.get rawUserData "customApps") = false ->
          customApps (userData (snd r)) = customApps (defaultUserData c))
      /\ (Js.nullish (Js.get rawUserData "pageSize") = true ->
          exists p,
            normalizePageSize h c (Js.ofOption VNum (pageSize (defaultUserData c)))
            = Returns p
            /\ pageSize (userData (snd r)) = Some p))
  /\ baseCatalog (snd r) = baseCatalog st.
Proof.
  intros Hdata rawSettings rawUserData r.
  assert (Htruthy : forall v, Js.isObject v = true -> Js.truthy v = true).
  { intros v Hv. unfold Js.isObject in Hv. now apply andb_true_iff in Hv. }
  assert (Hreplaced :
            Js.isObject rawUserData = true ->
            importUserData h c rawUserData = Returns (userData (snd r)) ->
            importUserData h c rawUserData = Returns (userData (snd r))
            /\ (Js.isArray (Js.get rawUserData "hiddenAppIds") = false ->
                hiddenAppIds (userData (snd r)) = hiddenAppIds (defaultUserData c))
            /\ (Js.isArray (Js.get rawUserData "customApps") = false ->
                customApps (userData (snd r)) = customApps (defaultUserData c))
            /\ (Js.nullish (Js.get rawUserData "pageSize") = true ->
                exists p,
                  normalizePageSize h c
                    (Js.ofOption VNum (pageSize (defaultUserData c))) = Returns p
                  /\ pageSize (userData (snd r)) = Some p)).
  { intros _ Hu.
    destruct (importUserData_defaults h c rawUserData _ Hu) as (Hh & Ha & Hp).
    split; [exact Hu|]. split; [exact Hh|]. split; [exact Ha|].
    intros Hnull. destruct (Hp Hnull) as [Hsize Hsome].
    destruct (pageSize (userData (snd r))) as [p|]; [|congruence]. eauto. }
  revert Hreplaced. subst r. unfold importBackup, failure.
  rewrite Hdata. simpl negb. cbv iota. fold rawSettings rawUserData.
  destruct (Js.isObject rawSettings) eqn:Hs;
    destruct (Js.isObject rawUserData) eqn:Hu;
    rewrite ?(Htruthy _ Hs), ?(Htruthy _ Hu), ?andb_false_r;
    cbn [negb andb]; cbv iota;
    try destruct (importSettings h c st rawSettings) as [sanitized|] eqn:Hsan;
    try destruct (importUserData h c rawUserData) as [merged|] eqn:Hmer;
    try destruct (negb (Js.truthy rawSettings) && negb (Js.truthy rawUserData));
    cbn [Try.bind fst snd negb andb setSettings setUserData settings userData
         baseCatalog];
    intros Hreplaced;
    (split; [split; [intros; try discriminate; auto
                    |intros [[? ?]|[? ?]]; try discriminate; try reflexivity]|]);
    repeat (split; [intros; try discriminate; try congruence; auto|]);
    try reflexivity.
Qed.

Lemma importBackup_partial_witness :
  customApps (userData (snd (importBackup exampleHost exampleConstants pageSize999
                               hiddenMailState)))
  = customApps (defaultUserData exampleConstants)
  /\ fst (importBackup exampleHost exampleConstants halfReadableBackup hiddenMailState)
     = Throws.
Proof.
  split.
  - destruct (importBackup_partial exampleHost exampleConstants pageSize999
                hiddenMailState eq_refl)
      as (_ & _ & _ & _ & _ & _ & _ & Hreplaced & _).
    apply Hreplaced; first [reflexivity | discriminate].
  - destruct (importBackup_partial exampleHost exampleConstants halfReadableBackup
                hiddenMailState eq_refl) as (Hthrows & _).
    apply Hthrows. right. split; reflexivity.
Defined.

(** ** The edit form *)

Lemma accepted_icon c ic :
  trimmed (DEFAULT_ICON c) -> iconAccepted (DEFAULT_ICON c) = true ->
  validIcon c ic ->
  trimmed ic /\ iconAccepted ic = true.
Proof. intros Ht Ha [-> | H]; [split; assumption | exact H]. Qed.

Lemma parse_or_nothing t :
  (if Str.isEmpty t then [] else parseCustomTagString (VStr t))
  = parseCustomTagString (VStr t).
Proof. destruct t; reflexivity. Qed.

Lemma sanitizeAppRecord_raw h c i n d u ic tg :
  urlPrintsCanonically h -> trimmed (DEFAULT_ICON c) ->
  validCustomApp h c (mkApp i n d u ic tg (Some custom) None) ->
  sanitizeAppRecord h c
    (VObj [("id", VStr i); ("name", VStr n); ("description", VStr d);
           ("url", VStr u); ("icon", VStr ic);
           ("tags", VArr (List.map VStr tg))]) custom
  = Returns (Some (mkApp i n d u ic tg (Some custom) None)).
Proof.
  intros Hlaw Hdefault. unfold validCustomApp. simpl.
  intros (Hid & [Hname Hne] & Hdesc & Hurl & Hicon & Htags & _ & _).
  destruct (sanitizeHttpUrl_fixed h u Hlaw Hurl) as [Hu Hune].
  unfold sanitizeAppRecord.
  replace (Js.isObject _) with true by reflexivity.
  replace (Js.get _ "name") with (VStr n) by reflexivity.
  replace (Js.get _ "description") with (VStr d) by reflexivity.
  replace (Js.get _ "url") with (VStr u) by reflexivity.
  replace (Js.get _ "icon") with (VStr ic) by reflexivity.
  replace (Js.get _ "tags") with (VArr (List.map VStr tg)) by reflexivity.
  replace (Js.get _ "id") with (VStr i) by reflexivity.
  unfold trimmedString. rewrite Hid, Hname, Hdesc, Hu.
  rewrite (sanitizeIconSource_fixed c ic Hdefault Hicon).
  rewrite (sanitizeTagList_fixed h tg Htags).
  apply isEmpty_false in Hne, Hune. rewrite Hne, Hune. reflexivity.
Qed.

(** X30. The edit form gives back what it was opened with. For a valid
    custom app with an id and tags free of commas, with a URL parser that
    reads back what it prints and a default icon that is an accepted source:
    the form [AddAppModal] opens on the app, submitted unchanged, is accepted
    as an update and stores the very same record, last among the custom apps
    and after the others. *)
Theorem edit_form_round_trip (h : Host) (c : Constants) (clock : nat -> N) (now : N)
        (iconLibrary : list string) (a : LaunchpadApp) (st : State) :
  urlPrintsCanonically h ->
  Str.trim (DEFAULT_ICON c) = DEFAULT_ICON c ->
  iconAccepted (DEFAULT_ICON c) = true ->
  validCustomApp h c a ->
  id a <> "" ->
  Forall (fun t => allChars notComma t = true) (tags a) ->
  exists input,
    formInput (Some a) (openForm c iconLibrary (Some a)) = Some input
    /\ fst (submitCustomApp h c clock now input st)
       = Returns (mkResult true "App updated successfully.")
    /\ customApps (userData (snd (submitCustomApp h c clock now input st)))
       = (filter (fun b => differs (id b) (id a)) (customApps (userData st))
          ++ [a])%list.
Proof.
  intros Hlaw Hdefault Hdefacc Hvalid Hid Hcomma.
  destruct a as [i n d u ic tg o ty].
  assert (Horigin : o = Some custom /\ ty = None)
    by (split; apply Hvalid).
  destruct Horigin as [-> ->].
  pose proof (sanitizeAppRecord_raw h c i n d u ic tg Hlaw Hdefault Hvalid) as Hfixed.
  unfold validCustomApp in Hvalid.
  cbn [id name description url icon tags origin type_] in *.
  destruct Hvalid as (Hi & [Hn Hne] & Hd & Hu & Hic & Htg & _ & _).
  destruct (sanitizeHttpUrl_fixed h u Hlaw Hu) as [Hsan Hune].
  destruct (accepted_icon c ic Hdefault Hdefacc Hic) as [Hict Hica].
  assert (Hutrim : Str.isEmpty (Str.trim u) = false).
  { apply isEmpty_false. intros He. apply Hune. rewrite <- Hsan.
    unfold sanitizeHttpUrl. now rewrite He. }
  assert (Hicne : Str.isEmpty (Str.trim ic) = false).
  { rewrite Hict. apply isEmpty_false. intros ->. discriminate. }
  assert (Hnot : String.eqb ic "custom" = false).
  { apply String.eqb_neq. intros ->. discriminate. }
  assert (Hicon : sanitizeIconSource c (VStr ic) = ic)
    by (apply sanitizeIconSource_fixed; assumption).
  assert (Htags : parseCustomTagString (VStr (joinTags tg)) = tg).
  { destruct tg as [|t rest]; [reflexivity|].
    unfold parseCustomTagString. apply joined_tags_parse; [|discriminate].
    apply Forall_forall. intros x Hx.
    rewrite Forall_forall in Htg, Hcomma.
    destruct (Htg x Hx) as [Hxt Hxne]. auto. }
  pose proof Hne as Hne'. apply isEmpty_false in Hne'.
  pose proof Hune as Hune'. apply isEmpty_false in Hune'.
  pose proof Hid as Hid'. apply isEmpty_false in Hid'.
  unfold formInput, openForm, isCustom.
  cbn [origin form_name form_url form_description form_tags form_iconChoice
       form_iconCustom name url description tags icon id].
  rewrite Hutrim, Hn, Hne'. eexists. split; [reflexivity|].
  destruct (Str.mem ic iconLibrary); unfold submitCustomApp;
    cbn [in_id in_name in_url in_description in_tagsInput in_iconChoice in_iconCustom];
    rewrite Hn, Hne', Hsan, Hune', Hd, parse_or_nothing, Htags;
    rewrite ?String.eqb_refl, ?Hnot; cbv zeta; rewrite ?Hicne, Hicon;
    cbn [Js.ofOption]; rewrite Hfixed; cbv zeta; cbn [id Js.ofOption]; rewrite Hi, Hid'; cbv iota;
    rewrite ?Hid', ?Hi;
    cbn [fst snd userData setUserData customApps id with_id with_origin
         name description url icon tags origin type_];
    (split; [reflexivity|]); f_equal;
    apply filter_ext; intros b; now destruct (differs (id b) i).
Qed.

Lemma edit_form_round_trip_witness :
  exists input,
    formInput (Some mailApp) (openForm exampleConstants [] (Some mailApp)) = Some input
    /\ customApps (userData (snd (submitCustomApp exampleHost exampleConstants noon 0
                                    input hiddenMailState)))
       = [mailApp].
Proof.
  destruct (edit_form_round_trip exampleHost exampleConstants noon 0 [] mailApp
              hiddenMailState)
    as (input & Hform & _ & Happs).
  - exact exampleHost_prints_canonically.
  - reflexivity.
  - reflexivity.
  - exact mailApp_valid.
  - discriminate.
  - constructor.
  - exists input. split; [exact Hform | exact Happs].
Defined.
